(** * apparun.impact_model: parameter transformation, scoring and Sobol indices

    A shallow embedding of [src/apparun/impact_model.py].  Python dicts are
    insertion-ordered association lists with unique keys, exceptions are an
    error monad, and the calls made to the collaborators the module imports
    (the impact tree, SALib's Sobol analysis) are recorded in a trace.
    [transform_parameters] is read a second time on a store of objects, to
    state what it allocates and what it leaves untouched; the second reading
    is shown to simulate the first. *)

From Stdlib Require Import List String Bool Arith ZArith Lia PrimFloat Permutation.
Import ListNotations.
Open Scope string_scope.

Set Implicit Arguments.

(** ** Python values *)

(** A parameter value is a [float], a [str], or a [list] of values
    ([Union[List[Union[str, float]], Union[str, float]]]). *)
Inductive value : Type :=
| VNum (x : float)
| VStr (s : string)
| VList (l : list value).

(** [isinstance(parameter, list)] *)
Definition isinstance_list (v : value) : bool :=
  match v with
  | VList _ => true
  | _ => false
  end.

(** A batch of length [L]. *)
Definition is_batch (L : nat) (v : value) : Prop :=
  exists l, v = VList l /\ List.length l = L.

(** ** Exceptions *)

Inductive exception : Type :=
| KeyError (key : string)
| AssertionError
| IndexError
| ValueError
| TypeError
| AttributeError
| Raised (what : string).  (* an exception raised inside a collaborator *)

Inductive result (A : Type) : Type :=
| Ok (a : A)
| Err (e : exception).
Arguments Ok {A} a.
Arguments Err {A} e.

Definition bind {A B : Type} (c : result A) (k : A -> result B) : result B :=
  match c with
  | Ok a => k a
  | Err e => Err e
  end.

Declare Scope result_scope.
Delimit Scope result_scope with result.
Notation "x <- c ;; k" := (bind c (fun x => k))
  (at level 61, c at next level, right associativity) : result_scope.
Open Scope result_scope.

(** A list comprehension whose element expression may raise: elements are
    evaluated left to right and the first exception aborts the whole list. *)
Fixpoint mapM {A B : Type} (f : A -> result B) (l : list A) : result (list B) :=
  match l with
  | [] => Ok []
  | a :: l' => b <- f a ;; bs <- mapM f l' ;; Ok (b :: bs)
  end.

Definition is_ok {A : Type} (r : result A) : bool :=
  match r with
  | Ok _ => true
  | Err _ => false
  end.

(** ** Insertion-ordered dictionaries *)

Module Dict.

Definition t (V : Type) : Type := list (string * V).

Section Ops.
Variable V : Type.

(** [d[k] = v]: an existing key keeps its position, a new key goes last. *)
Fixpoint set (k : string) (v : V) (d : t V) : t V :=
  match d with
  | [] => [(k, v)]
  | (k', v') :: d' =>
      if String.eqb k k' then (k, v) :: d' else (k', v') :: set k v d'
  end.

(** [d.get(k)] *)
Fixpoint get (k : string) (d : t V) : option V :=
  match d with
  | [] => None
  | (k', v') :: d' => if String.eqb k k' then Some v' else get k d'
  end.

(** [k in d] *)
Definition mem (k : string) (d : t V) : bool :=
  match get k d with
  | Some _ => true
  | None => false
  end.

(** [d[k]], raising [KeyError]. *)
Definition getitem (k : string) (d : t V) : result V :=
  match get k d with
  | Some v => Ok v
  | None => Err (KeyError k)
  end.

(** The display that unpacks [d1] then [d2]; [d1.update(d2)] on a copy. *)
Definition update (d1 d2 : t V) : t V :=
  fold_left (fun d kv => set (fst kv) (snd kv) d) d2 d1.

(** A dict display or comprehension: the pairs are stored in order, a
    later pair overwriting the value of an earlier one with its key. *)
Definition of_items (l : list (string * V)) : t V := update [] l.

Definition items (d : t V) : list (string * V) := d.
Definition keys (d : t V) : list string := map fst d.
Definition values (d : t V) : list V := map snd d.

(** [del d[k]] when present. *)
Definition remove (k : string) (d : t V) : t V :=
  filter (fun kv => negb (String.eqb k (fst kv))) d.

(** What every Python dict satisfies: no key occurs twice. *)
Definition wf (d : t V) : Prop := NoDup (keys d).

End Ops.

Arguments get {V} k d.
Arguments mem {V} k d.
Arguments getitem {V} k d.
Arguments items {V} d.
Arguments keys {V} d.
Arguments values {V} d.
Arguments remove {V} k d.
Arguments wf {V} d.

End Dict.

(** ** The classes the module imports *)

(** [apparun.score.LCIAScores]: impact method name to score, or to the list
    of scores of a batch. *)
Module LCIAScores.
Record t : Type := { scores : Dict.t value }.
End LCIAScores.

(** [apparun.tree_node.NodeScores], as [get_nodes_scores] constructs it. *)
Module NodeScores.
Record t : Type := {
  name : string;
  properties : Dict.t value;
  parent : string;
  lcia_scores : LCIAScores.t
}.
End NodeScores.

(** [apparun.impact_tree.ImpactTreeNode]: what this module reads of a node.
    [compute] takes the transformed parameters and the keyword argument
    [direct_impacts] ([None] when the call leaves it out); it may raise. *)
Module ImpactTreeNode.
Class api (N : Type) : Type := {
  name : N -> string;
  properties : N -> Dict.t value;
  parent : N -> option N;
  children : N -> list N;
  unnested_descendants : N -> list N;
  compute : N -> Dict.t value -> option bool -> result LCIAScores.t
}.
End ImpactTreeNode.

(** The problem descriptor SALib expects: [sobol_problem["names"]] and the
    rest. *)
Record SobolProblem : Type := {
  names : list string;
  num_vars : nat;
  bounds : list (float * float)
}.

(** What [sobol.analyze] returns, of which the module reads ["S1"]. *)
Record SobolIndices : Type := {
  S1 : list float;
  ST : list float
}.

(** [apparun.parameters.ImpactModelParam]: a name, a default value and the
    transform method, which maps a value or a list of values to a dict of
    derived values and may raise. *)
Module ImpactModelParam.
Record t : Type := {
  name : string;
  default : value;
  transform : value -> result (Dict.t value)
}.
End ImpactModelParam.

(** [apparun.parameters.ImpactModelParams]: iterating it yields the
    parameters in order.  The draws are functions of the requested size: one
    run of the random generators. *)
Module ImpactModelParams.
Record t : Type := {
  parameters : list ImpactModelParam.t;
  sobol_problem : SobolProblem;
  uniform_draw : Z -> result (Dict.t value);
  sobol_draw : Z -> result (Dict.t value);
  draw_to_distrib : Dict.t value -> result (Dict.t value)
}.

(** Modelled from the spec: [ImpactModelParams.get_missing_parameter_names],
    whose file apparun/parameters.py is not among the sources.  "Determine
    which declared parameters are absent from caller input": the declared
    names, in declaration order, that are no key of the supplied mapping. *)
Definition get_missing_parameter_names (ps : t) (supplied : Dict.t value)
  : list string :=
  filter (fun nm => negb (Dict.mem nm supplied))
         (map ImpactModelParam.name (parameters ps)).

(** Modelled from the spec: [ImpactModelParams.get_default_values], whose
    file apparun/parameters.py is not among the sources.  "Default values
    for a name-set": each declared parameter whose name is in the set, with
    its default. *)
Definition get_default_values (ps : t) (wanted : list string) : Dict.t value :=
  Dict.of_items
    (map (fun p => (ImpactModelParam.name p, ImpactModelParam.default p))
         (filter (fun p => existsb (String.eqb (ImpactModelParam.name p)) wanted)
                 (parameters ps))).
End ImpactModelParams.

(** ** Model metadata *)

Record LcaPractitioner : Type := {
  practitioner_name : option string;
  organization : option string;
  mail : option string
}.

Record LcaStudy : Type := {
  link : option string;
  description : option string;
  date : option string;
  version : option string;
  license : option string;
  appabuild_version : option string
}.

Record ModelMetadata : Type := {
  author : option LcaPractitioner;
  reviewer : option LcaPractitioner;
  report : option LcaStudy
}.

(** ** ImpactModel *)

Record ImpactModel (N : Type) : Type := {
  metadata : option ModelMetadata;
  parameters : option ImpactModelParams.t;
  tree : option N
}.

Section TransformParameters.
Variable N : Type.
Variable self : ImpactModel N.

(** The property [transformation_table]: a dict built anew at each access.
    Iterating [self.parameters] when it is [None] raises [TypeError]. *)
Definition transformation_table
  : result (Dict.t (value -> result (Dict.t value))) :=
  match parameters self with
  | None => Err TypeError
  | Some ps =>
      Ok (Dict.of_items
            (map (fun p => (ImpactModelParam.name p, ImpactModelParam.transform p))
                 (ImpactModelParams.parameters ps)))
  end.

(** [self.transformation_table[parameter_name](parameter_value)] *)
Definition transform_one (kv : string * value) : result (Dict.t value) :=
  table <- transformation_table ;;
  f <- Dict.getitem (fst kv) table ;;
  f (snd kv).

(** The comprehension both branches end with: the inner list of tables is
    built first, then its pairs are stored in order. *)
Definition merge_transformed (parameters : Dict.t value) : result (Dict.t value) :=
  tables <- mapM transform_one (Dict.items parameters) ;;
  Ok (Dict.of_items (List.concat (map Dict.items tables))).

Definition list_parameters (parameters : Dict.t value) : Dict.t value :=
  Dict.of_items (filter (fun kv => isinstance_list (snd kv)) (Dict.items parameters)).

Definition single_parameters (parameters : Dict.t value) : Dict.t value :=
  Dict.of_items
    (filter (fun kv => negb (isinstance_list (snd kv))) (Dict.items parameters)).

(** [len(x)] *)
Definition len (v : value) : result nat :=
  match v with
  | VList l => Ok (List.length l)
  | VStr s => Ok (String.length s)
  | VNum _ => Err TypeError
  end.

(** [min] and [max] of a generator: [ValueError] when it yields nothing. *)
Definition py_min (l : list nat) : result nat :=
  match l with
  | [] => Err ValueError
  | x :: l' => Ok (fold_left Nat.min l' x)
  end.

Definition py_max (l : list nat) : result nat :=
  match l with
  | [] => Err ValueError
  | x :: l' => Ok (fold_left Nat.max l' x)
  end.

(** [len(list(list_parameters.values())[0])] *)
Definition first_len (list_params : Dict.t value) : result nat :=
  match Dict.values list_params with
  | [] => Err IndexError
  | v :: _ => len v
  end.

(** The dict display that unpacks, first, the comprehension
    [name: [value] * len(...)] over [single_parameters.items()] and, second,
    [list_parameters]. *)
Definition full_list_parameters (single_params list_params : Dict.t value)
  : result (Dict.t value) :=
  broadcast <-
    mapM (fun kv => L <- first_len list_params ;;
                    Ok (fst kv, VList (repeat (snd kv) L)))
         (Dict.items single_params) ;;
  Ok (Dict.update (Dict.of_items broadcast) list_params).

Definition transform_parameters (parameters : Dict.t value)
  : result (Dict.t value) :=
  let list_params := list_parameters parameters in
  let single_params := single_parameters parameters in
  if Nat.eqb (List.length list_params) 0 then merge_transformed parameters
  else
    lens_min <- mapM len (Dict.values list_params) ;;
    shortest <- py_min lens_min ;;
    lens_max <- mapM len (Dict.values list_params) ;;
    longest <- py_max lens_max ;;
    if Nat.eqb shortest longest then
      full <- full_list_parameters single_params list_params ;;
      merge_transformed full
    else Err AssertionError.

End TransformParameters.

(** ** Calls to the collaborators *)

(** What a run does that its caller can observe besides its result: each
    call of a node's [compute] and each call of [sobol.analyze], with the
    arguments passed. *)
Inductive event (N : Type) : Type :=
| EvCompute (node : N) (params : Dict.t value) (direct_impacts : option bool)
| EvSobolAnalyze (problem : SobolProblem) (Y : value) (calc_second_order : bool).
Arguments EvSobolAnalyze {N} problem Y calc_second_order.

(** A computation: the calls made so far, and a value or the exception that
    ended it. *)
Definition M (N A : Type) : Type := (list (event N) * result A)%type.

Definition ret {N A : Type} (a : A) : M N A := ([], Ok a).

Definition lift {N A : Type} (r : result A) : M N A := ([], r).

Definition mbind {N A B : Type} (c : M N A) (k : A -> M N B) : M N B :=
  match c with
  | (tr, Ok a) => let (tr', r) := k a in ((tr ++ tr')%list, r)
  | (tr, Err e) => (tr, Err e)
  end.

Declare Scope run_scope.
Delimit Scope run_scope with run.
Notation "x <~ c ;; k" := (mbind c (fun x => k))
  (at level 61, c at next level, right associativity) : run_scope.
Open Scope run_scope.

(** A list comprehension whose element expression calls a collaborator. *)
Fixpoint mapMM {N A B : Type} (f : A -> M N B) (l : list A) : M N (list B) :=
  match l with
  | [] => ret []
  | a :: l' => b <~ f a ;; bs <~ mapMM f l' ;; ret (b :: bs)
  end.

(** A [for] loop that updates a local variable. *)
Fixpoint for_each {N A S : Type} (body : S -> A -> M N S) (l : list A) (s : S)
  : M N S :=
  match l with
  | [] => ret s
  | a :: l' => s' <~ body s a ;; for_each body l' s'
  end.

(** The calls of a run, and its outcome. *)
Definition trace {N A : Type} (c : M N A) : list (event N) := fst c.
Definition outcome {N A : Type} (c : M N A) : result A := snd c.

(** ** Scores *)

Section Scores.
Context {N : Type} {tree_api : ImpactTreeNode.api N}.

(** [NodeScores.combine_by_property] of apparun/tree_node.py and
    [SALib.analyze.sobol.analyze]: taken as given. *)
Variable combine_by_property :
  list NodeScores.t -> value -> result (list NodeScores.t).
Variable sobol_analyze : SobolProblem -> value -> bool -> result SobolIndices.

Variable self : ImpactModel N.

(** [self.parameters.<method>] and [self.tree.<attribute>]: on [None] the
    attribute access raises. *)
Definition self_parameters : M N ImpactModelParams.t :=
  match parameters self with
  | Some ps => ret ps
  | None => lift (Err AttributeError)
  end.

Definition self_tree : M N N :=
  match tree self with
  | Some root => ret root
  | None => lift (Err AttributeError)
  end.

(** [node.compute(params)] and [node.compute(params, direct_impacts=b)] *)
Definition call_compute (node : N) (params : Dict.t value)
  (direct_impacts : option bool) : M N LCIAScores.t :=
  ([EvCompute node params direct_impacts],
   ImpactTreeNode.compute node params direct_impacts).

(** [sobol.analyze(problem, np.array(scores), calc_second_order=b)] *)
Definition call_sobol_analyze (problem : SobolProblem) (Y : value)
  (calc_second_order : bool) : M N SobolIndices :=
  ([EvSobolAnalyze problem Y calc_second_order],
   sobol_analyze problem Y calc_second_order).

(** The first three lines shared by [get_scores] and [get_nodes_scores]. *)
Definition merged_parameters (ps : ImpactModelParams.t) (params : Dict.t value)
  : Dict.t value :=
  let missing_params := ImpactModelParams.get_missing_parameter_names ps params in
  let default_params := ImpactModelParams.get_default_values ps missing_params in
  Dict.update params default_params.

Definition get_scores (params : Dict.t value) : M N LCIAScores.t :=
  ps <~ self_parameters ;;
  transformed_params <~ lift (transform_parameters self (merged_parameters ps params)) ;;
  root <~ self_tree ;;
  call_compute root transformed_params None.

Definition is_not_None {A : Type} (o : option A) : bool :=
  match o with
  | Some _ => true
  | None => false
  end.

(** The [NodeScores(...)] built for one node. *)
Definition node_scores (transformed_params : Dict.t value)
  (by_property : option value) (node : N) : M N NodeScores.t :=
  let parent_name :=
    match ImpactTreeNode.parent node with
    | Some p => ImpactTreeNode.name p
    | None => ""
    end in
  lcia <~ call_compute node transformed_params (Some (is_not_None by_property)) ;;
  ret {| NodeScores.name := ImpactTreeNode.name node;
         NodeScores.properties := ImpactTreeNode.properties node;
         NodeScores.parent := parent_name;
         NodeScores.lcia_scores := lcia |}.

(** What the record built for a node holds: the fields read off the node and
    the scores of the call made for it. *)
Definition record_of (transformed : Dict.t value) (by_property : option value)
  (node : N) (r : NodeScores.t) : Prop :=
  NodeScores.name r = ImpactTreeNode.name node /\
  NodeScores.properties r = ImpactTreeNode.properties node /\
  NodeScores.parent r =
    match ImpactTreeNode.parent node with
    | Some p => ImpactTreeNode.name p
    | None => ""
    end /\
  ImpactTreeNode.compute node transformed (Some (is_not_None by_property))
  = Ok (NodeScores.lcia_scores r).

Definition get_nodes_scores (by_property : option value) (params : Dict.t value)
  : M N (list NodeScores.t) :=
  ps <~ self_parameters ;;
  transformed_params <~ lift (transform_parameters self (merged_parameters ps params)) ;;
  root <~ self_tree ;;
  scores <~ mapMM (node_scores transformed_params by_property)
                  (ImpactTreeNode.unnested_descendants root) ;;
  match by_property with
  | Some property => lift (combine_by_property scores property)
  | None => ret scores
  end.

(** [self.get_scores] called with [samples] unpacked: the mapping becomes the
    keyword arguments; a key naming the positional parameter [self] is a
    [TypeError]. *)
Definition get_scores_kwargs (samples : Dict.t value) : M N LCIAScores.t :=
  if Dict.mem "self" samples then lift (Err TypeError)
  else get_scores samples.

(** [self.get_nodes_scores] called with [samples] unpacked: likewise, and a
    key [by_property] binds the keyword parameter of that name instead of
    going to [params]. *)
Definition get_nodes_scores_kwargs (samples : Dict.t value)
  : M N (list NodeScores.t) :=
  if Dict.mem "self" samples then lift (Err TypeError)
  else get_nodes_scores (Dict.get "by_property" samples)
                        (Dict.remove "by_property" samples).



(** One row of the unpivoted result: the dict with keys ["node"],
    ["method"], ["parameter"] and ["sobol_s1"]. *)
Record SobolRow : Type := {
  row_node : string;
  row_method : string;
  row_parameter : string;
  row_sobol_s1 : float
}.

(** [x[i]] on a list *)
Definition index {A : Type} (l : list A) (i : nat) : result A :=
  match nth_error l i with
  | Some a => Ok a
  | None => Err IndexError
  end.

(** The comprehension [[{...} for i in range(len(s1))]]. *)
Definition rows_of (node : result string) (method : string)
  (problem : result SobolProblem) (s1 : list float) : result (list SobolRow) :=
  mapM (fun i =>
          nd <- node ;;
          pb <- problem ;;
          parameter <- index (names pb) i ;;
          sobol_s1 <- index s1 i ;;
          Ok {| row_node := nd; row_method := method;
                row_parameter := parameter; row_sobol_s1 := sobol_s1 |})
       (seq 0 (List.length s1)).

(** [self.parameters.sobol_problem] and [self.tree.name] as expressions. *)
Definition self_sobol_problem : result SobolProblem :=
  match parameters self with
  | Some ps => Ok (ImpactModelParams.sobol_problem ps)
  | None => Err AttributeError
  end.

Definition self_tree_name : result string :=
  match tree self with
  | Some root => Ok (ImpactTreeNode.name root)
  | None => Err AttributeError
  end.

(** The body of the loop over [(method, scores)]. *)
Definition analyze_method (node : result string)
  (sobol_s1_indices : list SobolRow) (item : string * value)
  : M N (list SobolRow) :=
  problem <~ lift self_sobol_problem ;;
  indices <~ call_sobol_analyze problem (snd item) true ;;
  rows <~ lift (rows_of node (fst item) self_sobol_problem (S1 indices)) ;;
  ret (sobol_s1_indices ++ rows)%list.

Definition get_sobol_s1_indices (n : Z) (all_nodes : bool) : M N (list SobolRow) :=
  ps <~ self_parameters ;;
  samples <~ lift (ImpactModelParams.sobol_draw ps n) ;;
  ps' <~ self_parameters ;;
  samples' <~ lift (ImpactModelParams.draw_to_distrib ps' samples) ;;
  if all_nodes then
    lcia_scores <~ get_nodes_scores_kwargs samples' ;;
    for_each
      (fun sobol_s1_indices node_scores =>
         for_each (analyze_method (Ok (NodeScores.name node_scores)))
                  (Dict.items (LCIAScores.scores (NodeScores.lcia_scores node_scores)))
                  sobol_s1_indices)
      lcia_scores []
  else
    lcia_scores <~ get_scores_kwargs samples' ;;
    for_each (analyze_method self_tree_name)
             (Dict.items (LCIAScores.scores lcia_scores)) [].

(** A call of [sobol.analyze] asks for the second-order terms. *)
Definition second_order_requested (ev : event N) : Prop :=
  match ev with
  | EvSobolAnalyze _ _ calc_second_order => calc_second_order = true
  | EvCompute _ _ _ => True
  end.

(** A row holds, unchanged, the entry of the ["S1"] that one of the calls
    [calls] got back from the analysis, and the name at the same position of
    the problem. *)
Definition row_from_call (calls : list (event N)) (r : SobolRow) : Prop :=
  exists pb Y indices i,
    self_sobol_problem = Ok pb /\
    In (EvSobolAnalyze pb Y true) calls /\
    sobol_analyze pb Y true = Ok indices /\
    nth_error (S1 indices) i = Some (row_sobol_s1 r) /\
    nth_error (names pb) i = Some (row_parameter r).



(** [from_tree_children]: one model per child of the root, sharing the
    parameters and carrying no metadata. *)
Definition from_tree_children : result (list (ImpactModel N)) :=
  match tree self with
  | Some root =>
      Ok (map (fun child => {| metadata := None;
                               parameters := parameters self;
                               tree := Some child |})
              (ImpactTreeNode.children root))
  | None => Err AttributeError
  end.

End Scores.

(** ** A two-parameter model

    A float parameter [p1] and a categorical parameter [p2] over
    ["a"] and ["b"], on a tree of a root and two children; the concrete
    model the general statements below are instantiated at. *)

Module Example.

Inductive node : Type := Root | ChildA | ChildB.

(** The transform of a float parameter: the value under its own name. *)
Definition float_transform (nm : string) (v : value) : result (Dict.t value) :=
  Ok [(nm, v)].

Definition one_hot (category : string) (v : value) : value :=
  match v with
  | VStr s => if String.eqb s category then VNum 1 else VNum 0
  | _ => VNum 0
  end.

(** The transform of a categorical parameter: one dummy variable per
    category, for a value or for each value of a list. *)
Definition enum_transform (nm : string) (v : value) : result (Dict.t value) :=
  match v with
  | VStr _ => Ok [(nm ++ "_a", one_hot "a" v); (nm ++ "_b", one_hot "b" v)]
  | VList l => Ok [(nm ++ "_a", VList (map (one_hot "a") l));
                   (nm ++ "_b", VList (map (one_hot "b") l))]
  | VNum _ => Err (Raised "not a category")
  end.

Definition p1 : ImpactModelParam.t :=
  {| ImpactModelParam.name := "p1";
     ImpactModelParam.default := VNum 5;
     ImpactModelParam.transform := float_transform "p1" |}.

Definition p2 : ImpactModelParam.t :=
  {| ImpactModelParam.name := "p2";
     ImpactModelParam.default := VStr "a";
     ImpactModelParam.transform := enum_transform "p2" |}.

Definition problem : SobolProblem :=
  {| names := ["p1"; "p2"]; num_vars := 2;
     bounds := [(0%float, 10%float); (0%float, 2%float)] |}.

Definition draw (n : Z) : result (Dict.t value) :=
  Ok [("p1", VList [VNum 2; VNum 8]); ("p2", VList [VStr "a"; VStr "b"])].

Definition params : ImpactModelParams.t :=
  {| ImpactModelParams.parameters := [p1; p2];
     ImpactModelParams.sobol_problem := problem;
     ImpactModelParams.uniform_draw := draw;
     ImpactModelParams.sobol_draw := draw;
     ImpactModelParams.draw_to_distrib := fun samples => Ok samples |}.

(** Every node scores two impact methods from [p1]. *)
Definition node_compute (nd : node) (transformed : Dict.t value)
  (direct_impacts : option bool) : result LCIAScores.t :=
  match Dict.get "p1" transformed with
  | Some v => Ok {| LCIAScores.scores := [("GWP", v); ("TOX", v)] |}
  | None => Err (Raised "missing parameter")
  end.

#[global] Instance tree_api : ImpactTreeNode.api node :=
  {| ImpactTreeNode.name := fun nd =>
       match nd with Root => "root" | ChildA => "a" | ChildB => "b" end;
     ImpactTreeNode.properties := fun nd =>
       match nd with Root => [] | _ => [("phase", VStr "use")] end;
     ImpactTreeNode.parent := fun nd =>
       match nd with Root => None | _ => Some Root end;
     ImpactTreeNode.children := fun nd =>
       match nd with Root => [ChildA; ChildB] | _ => [] end;
     ImpactTreeNode.unnested_descendants := fun nd =>
       match nd with Root => [Root; ChildA; ChildB] | _ => [nd] end;
     ImpactTreeNode.compute := node_compute |}.

Definition model : ImpactModel node :=
  {| metadata := None; parameters := Some params; tree := Some Root |}.

(** Pooling keeps the first record of the list. *)
Definition combine (scores : list NodeScores.t) (property : value)
  : result (list NodeScores.t) :=
  Ok (firstn 1 scores).

(** An analysis that reports a slightly negative index for every name. *)
Definition analyze (pb : SobolProblem) (Y : value) (calc_second_order : bool)
  : result SobolIndices :=
  Ok {| S1 := map (fun _ => (-0.5)%float) (names pb); ST := [] |}.

(** The scores of the drawn samples, for the root and per node. *)
Definition sampled_scores : LCIAScores.t :=
  {| LCIAScores.scores := [("GWP", VList [VNum 2; VNum 8]);
                           ("TOX", VList [VNum 2; VNum 8])] |}.

Definition sampled_nodes_scores : list NodeScores.t :=
  map (fun nd =>
         {| NodeScores.name := ImpactTreeNode.name nd;
            NodeScores.properties := ImpactTreeNode.properties nd;
            NodeScores.parent :=
              match ImpactTreeNode.parent nd with
              | Some p => ImpactTreeNode.name p
              | None => ""
              end;
            NodeScores.lcia_scores := sampled_scores |})
      [Root; ChildA; ChildB].

Definition unequal : Dict.t value :=
  [("p1", VList [VNum 1; VNum 2; VNum 3]); ("p2", VList [VStr "a"; VStr "b"])].

Definition mixed : Dict.t value :=
  [("p1", VNum 5); ("p2", VList [VStr "a"; VStr "b"])].

Definition singleton_and_pair : Dict.t value :=
  [("p1", VList [VNum 5]); ("p2", VList [VStr "a"; VStr "b"])].

Definition scalars : Dict.t value := [("p1", VNum 5); ("p2", VStr "a")].

Definition singleton_and_scalar : Dict.t value :=
  [("p1", VList [VNum 5]); ("p2", VStr "a")].

Definition singleton_and_empty : Dict.t value :=
  [("p1", VList [VNum 5]); ("p2", VList [])].





(** A parameter named [by_property], sampled with the others. *)
Definition by_property_param : ImpactModelParam.t :=
  {| ImpactModelParam.name := "by_property";
     ImpactModelParam.default := VNum 0;
     ImpactModelParam.transform := float_transform "by_property" |}.

Definition by_property_draw (n : Z) : result (Dict.t value) :=
  Ok [("p1", VList [VNum 2; VNum 8]); ("by_property", VList [VNum 0; VNum 1])].

Definition by_property_params : ImpactModelParams.t :=
  {| ImpactModelParams.parameters := [p1; by_property_param];
     ImpactModelParams.sobol_problem :=
       {| names := ["p1"; "by_property"]; num_vars := 2;
          bounds := [(0%float, 10%float); (0%float, 1%float)] |};
     ImpactModelParams.uniform_draw := by_property_draw;
     ImpactModelParams.sobol_draw := by_property_draw;
     ImpactModelParams.draw_to_distrib := fun samples => Ok samples |}.

Definition by_property_model : ImpactModel node :=
  {| metadata := None; parameters := Some by_property_params; tree := Some Root |}.

(** A pooling that refuses a property name that is no string. *)
Definition strict_combine (scores : list NodeScores.t) (property : value)
  : result (list NodeScores.t) :=
  match property with
  | VStr _ => Ok (firstn 1 scores)
  | _ => Err TypeError
  end.

End Example.

(** ** Two parameters with a common output

    A categorical parameter [p2], whose transform writes [p2_a] and [p2_b],
    next to a float parameter named [p2_a]; the one node scores what it
    reads under [p2_a]. *)

Module Collision.

Inductive node : Type := Unit.

Definition p2_a : ImpactModelParam.t :=
  {| ImpactModelParam.name := "p2_a";
     ImpactModelParam.default := VNum 7;
     ImpactModelParam.transform := Example.float_transform "p2_a" |}.

Definition params : ImpactModelParams.t :=
  {| ImpactModelParams.parameters := [Example.p2; p2_a];
     ImpactModelParams.sobol_problem :=
       {| names := ["p2"; "p2_a"]; num_vars := 2;
          bounds := [(0%float, 2%float); (0%float, 10%float)] |};
     ImpactModelParams.uniform_draw := fun _ => Ok [];
     ImpactModelParams.sobol_draw := fun _ => Ok [];
     ImpactModelParams.draw_to_distrib := fun samples => Ok samples |}.

Definition node_compute (nd : node) (transformed : Dict.t value)
  (direct_impacts : option bool) : result LCIAScores.t :=
  match Dict.get "p2_a" transformed with
  | Some v => Ok {| LCIAScores.scores := [("GWP", v)] |}
  | None => Err (Raised "missing parameter")
  end.

#[global] Instance tree_api : ImpactTreeNode.api node :=
  {| ImpactTreeNode.name := fun _ => "unit";
     ImpactTreeNode.properties := fun _ => [];
     ImpactTreeNode.parent := fun _ => None;
     ImpactTreeNode.children := fun _ => [];
     ImpactTreeNode.unnested_descendants := fun nd => [nd];
     ImpactTreeNode.compute := node_compute |}.

Definition model : ImpactModel node :=
  {| metadata := None; parameters := Some params; tree := Some Unit |}.

(** Every declared parameter supplied with its default, [p2_a] first. *)
Definition supplied : Dict.t value := [("p2_a", VNum 7); ("p2", VStr "a")].

End Collision.

(** ** Objects and references

    A second reading of [transform_parameters], on a store of objects: dicts
    and lists are objects reached through references, so that what the
    method allocates and what it leaves untouched can be told apart. *)

Module Heap.

Definition addr : Type := nat.

(** A value: [None], an immutable float or string, a reference to an
    object, or the bound method [transform] of a parameter object. *)
Inductive pyval : Type :=
| PNone
| PNum (x : float)
| PStr (s : string)
| PRef (a : addr)
| PBound (param : addr).

Inductive obj : Type :=
| OList (l : list pyval)
| ODict (d : Dict.t pyval)
| OParam (name : string) (default : pyval)
| OParams (l : list addr)
| OModel (metadata parameters tree : pyval)
| OOther (what : string).

(** The store: address [a] is position [a]; objects are never freed. *)
Definition heap : Type := list obj.

Definition St (A : Type) : Type := heap -> result A * heap.

Definition ret {A : Type} (a : A) : St A := fun h => (Ok a, h).

Definition raise {A : Type} (e : exception) : St A := fun h => (Err e, h).

Definition bind {A B : Type} (c : St A) (k : A -> St B) : St B :=
  fun h =>
    match c h with
    | (Ok a, h') => k a h'
    | (Err e, h') => (Err e, h')
    end.

Declare Scope heap_scope.
Delimit Scope heap_scope with heap.
Notation "x <-- c ;; k" := (bind c (fun x => k))
  (at level 61, c at next level, right associativity) : heap_scope.
Open Scope heap_scope.

(** A new object, at the next free address. *)
Definition alloc (o : obj) : St addr :=
  fun h => (Ok (List.length h), (h ++ [o])%list).

Definition read (a : addr) : St obj :=
  fun h =>
    match nth_error h a with
    | Some o => (Ok o, h)
    | None => (Err (Raised "dangling reference"), h)
    end.

Definition lift {A : Type} (r : result A) : St A := fun h => (r, h).

Fixpoint mapM {A B : Type} (f : A -> St B) (l : list A) : St (list B) :=
  match l with
  | [] => ret []
  | a :: l' => b <-- f a ;; bs <-- mapM f l' ;; ret (b :: bs)
  end.

(** A comprehension with an [if] clause. *)
Fixpoint filterM {A : Type} (f : A -> St bool) (l : list A) : St (list A) :=
  match l with
  | [] => ret []
  | a :: l' =>
      keep <-- f a ;; rest <-- filterM f l' ;;
      ret (if keep then a :: rest else rest)
  end.

(** The items of the dict a value refers to. *)
Definition read_dict (v : pyval) : St (Dict.t pyval) :=
  match v with
  | PRef a =>
      o <-- read a ;;
      match o with
      | ODict d => ret d
      | _ => raise AttributeError
      end
  | _ => raise AttributeError
  end.

(** [isinstance(parameter, list)] *)
Definition isinstance_list (v : pyval) : St bool :=
  match v with
  | PRef a =>
      o <-- read a ;;
      ret match o with
          | OList _ => true
          | _ => false
          end
  | _ => ret false
  end.

(** [len(x)] *)
Definition len (v : pyval) : St nat :=
  match v with
  | PRef a =>
      o <-- read a ;;
      match o with
      | OList l => ret (List.length l)
      | ODict d => ret (List.length d)
      | _ => raise TypeError
      end
  | PStr s => ret (String.length s)
  | _ => raise TypeError
  end.

Section Methods.

(** The code of [ImpactModelParam.transform], called on a parameter object
    with a value: it returns a value, or raises, and leaves a store. *)
Variable transform_method : addr -> pyval -> St pyval.

(** The property [transformation_table]: a new dict from each parameter's
    name to its bound method. *)
Definition transformation_table (self : addr) : St pyval :=
  model <-- read self ;;
  match model with
  | OModel _ (PRef ps) _ =>
      collection <-- read ps ;;
      match collection with
      | OParams l =>
          pairs <-- mapM (fun a =>
                            p <-- read a ;;
                            match p with
                            | OParam name _ => ret (name, PBound a)
                            | _ => raise AttributeError
                            end) l ;;
          table <-- alloc (ODict (Dict.of_items pairs)) ;;
          ret (PRef table)
      | _ => raise TypeError
      end
  | OModel _ _ _ => raise TypeError
  | _ => raise AttributeError
  end.

(** [self.transformation_table[parameter_name](parameter_value)], and the
    items of the table it returns. *)
Definition transform_one (self : addr) (kv : string * pyval) : St (Dict.t pyval) :=
  table <-- transformation_table self ;;
  entries <-- read_dict table ;;
  f <-- lift (Dict.getitem (fst kv) entries) ;;
  match f with
  | PBound param =>
      returned <-- transform_method param (snd kv) ;;
      read_dict returned
  | _ => raise TypeError
  end.

Definition merge_transformed (self : addr) (parameters : Dict.t pyval) : St pyval :=
  tables <-- mapM (transform_one self) parameters ;;
  merged <-- alloc (ODict (Dict.of_items (List.concat tables))) ;;
  ret (PRef merged).

Definition first_len (list_params : Dict.t pyval) : St nat :=
  match Dict.values list_params with
  | [] => raise IndexError
  | v :: _ => len v
  end.

(** The method itself.  The temporaries no reference outlives (the list of
    tables, the lists made of [values()]) are not stored. *)
Definition transform_parameters (self : addr) (parameters : pyval) : St pyval :=
  entries <-- read_dict parameters ;;
  batches <-- filterM (fun kv => isinstance_list (snd kv)) entries ;;
  list_parameters <-- alloc (ODict (Dict.of_items batches)) ;;
  entries' <-- read_dict parameters ;;
  scalars <-- filterM (fun kv => b <-- isinstance_list (snd kv) ;; ret (negb b)) entries' ;;
  single_parameters <-- alloc (ODict (Dict.of_items scalars)) ;;
  list_params <-- read_dict (PRef list_parameters) ;;
  if Nat.eqb (List.length list_params) 0 then
    entries'' <-- read_dict parameters ;;
    merge_transformed self entries''
  else
    lens_min <-- mapM len (Dict.values list_params) ;;
    shortest <-- lift (py_min lens_min) ;;
    lens_max <-- mapM len (Dict.values list_params) ;;
    longest <-- lift (py_max lens_max) ;;
    if Nat.eqb shortest longest then
      single_params <-- read_dict (PRef single_parameters) ;;
      broadcast <--
        mapM (fun kv =>
                L <-- first_len list_params ;;
                replicated <-- alloc (OList (repeat (snd kv) L)) ;;
                ret (fst kv, PRef replicated))
             single_params ;;
      inner <-- alloc (ODict (Dict.of_items broadcast)) ;;
      inner_items <-- read_dict (PRef inner) ;;
      full_list_parameters <-- alloc (ODict (Dict.update inner_items list_params)) ;;
      full <-- read_dict (PRef full_list_parameters) ;;
      merge_transformed self full
    else raise AssertionError.

End Methods.

(** [h'] holds every object of [h], as it was. *)
Definition extends (h h' : heap) : Prop := exists more, h' = (h ++ more)%list.

(** A computation that changes no object it finds. *)
Definition preserving {A : Type} (c : St A) : Prop :=
  forall h, extends h (snd (c h)).

(** A computation whose value, when it returns one, refers to a dict it has
    allocated itself. *)
Definition returns_new_dict (c : St pyval) : Prop :=
  forall h v h',
    c h = (Ok v, h') ->
    exists a d, v = PRef a /\ List.length h <= a /\ nth_error h' a = Some (ODict d).

(** A store for the two-parameter model: the model at address 0, its
    parameters at 1, 2 and 3, the caller's dict at 5 with the list of its
    second entry at 4. *)
Definition example_heap : heap :=
  [ OModel PNone (PRef 1) PNone;
    OParams [2; 3];
    OParam "p1" (PNum 5);
    OParam "p2" (PStr "a");
    OList [PStr "a"; PStr "b"];
    ODict [("p1", PNum 5); ("p2", PRef 4)] ].

(** A transform that returns a new dict holding the value under the name of
    its parameter. *)
Definition example_transform (param : addr) (v : pyval) : St pyval :=
  p <-- read param ;;
  match p with
  | OParam name _ =>
      table <-- alloc (ODict [(name, v)]) ;;
      ret (PRef table)
  | _ => raise AttributeError
  end.

(** An assignment to an object in place, as [x.clear()] or [x[i] = v] make:
    nothing in [transform_parameters] does one, a transform might. *)
Definition write (a : addr) (o : obj) : St unit :=
  fun h =>
    if Nat.ltb a (List.length h)
    then (Ok tt, (firstn a h ++ o :: skipn (S a) h)%list)
    else (Err (Raised "dangling reference"), h).

(** A transform that empties the list it is given before answering. *)
Definition clearing_transform (param : addr) (v : pyval) : St pyval :=
  match v with
  | PRef a => _ <-- write a (OList []) ;; example_transform param v
  | _ => example_transform param v
  end.

(** Reading a stored value back as a value of the first model: floats and
    strings, and lists of those. *)
Definition atom (v : pyval) : option value :=
  match v with
  | PNum x => Some (VNum x)
  | PStr s => Some (VStr s)
  | _ => None
  end.

Fixpoint all_some {A : Type} (l : list (option A)) : option (list A) :=
  match l with
  | [] => Some []
  | Some a :: l' => option_map (cons a) (all_some l')
  | None :: _ => None
  end.

Definition read_back_value (h : heap) (v : pyval) : option value :=
  match v with
  | PRef a =>
      match nth_error h a with
      | Some (OList l) => option_map VList (all_some (map atom l))
      | _ => None
      end
  | _ => atom v
  end.

Definition read_back_dict (h : heap) (v : pyval) : option (Dict.t value) :=
  match v with
  | PRef a =>
      match nth_error h a with
      | Some (ODict d) =>
          all_some (map (fun kv => option_map (pair (fst kv))
                                              (read_back_value h (snd kv))) d)
      | _ => None
      end
  | _ => None
  end.

(** Entries under the same keys, in the same order, with related values. *)
Definition entries_rel {V V' : Type} (R : V -> V' -> Prop)
  (entries : Dict.t V) (d : Dict.t V') : Prop :=
  Forall2 (fun kv kv' => fst kv = fst kv' /\ R (snd kv) (snd kv')) entries d.

(** Stored entries that read back as the entries of a mapping. *)
Definition related (h : heap) (entries : Dict.t pyval) (d : Dict.t value) : Prop :=
  entries_rel (fun v v' => read_back_value h v = Some v') entries d.

(** A stored dict that reads back as a mapping. *)
Definition holds_dict (h : heap) (v : pyval) (d : Dict.t value) : Prop :=
  exists a entries,
    v = PRef a /\ nth_error h a = Some (ODict entries) /\ related h entries d.

(** A run from [h] that keeps the store and ends as the result [r] of the
    first model does: with the same exception, or with a value that [Q]
    relates to the value of [r] in the store it leaves. *)
Definition simulates {B B' : Type} (h : heap) (c : St B) (r : result B')
  (Q : heap -> B -> B' -> Prop) : Prop :=
  extends h (snd (c h)) /\
  match r with
  | Ok b' => exists b, fst (c h) = Ok b /\ Q (snd (c h)) b b'
  | Err e => fst (c h) = Err e
  end.

(** The method of the parameter object at [a] does, on stored values, what
    the transform of [p] does on the values they read back as. *)
Definition refines_transform (transform_method : addr -> pyval -> St pyval)
  (h0 : heap) (a : addr) (p : ImpactModelParam.t) : Prop :=
  (exists default, nth_error h0 a = Some (OParam (ImpactModelParam.name p) default)) /\
  forall h v v',
    extends h0 h -> read_back_value h v = Some v' ->
    simulates h (transform_method a v) (ImpactModelParam.transform p v') holds_dict.

(** The store holds the model: its object at [self], with the parameters
    of the model behind it, in order. *)
Definition model_stored (transform_method : addr -> pyval -> St pyval)
  (h0 : heap) (self : addr) {N : Type} (m : ImpactModel N) : Prop :=
  exists md pa tr addrs ps,
    nth_error h0 self = Some (OModel md (PRef pa) tr) /\
    nth_error h0 pa = Some (OParams addrs) /\
    parameters m = Some ps /\
    Forall2 (refines_transform transform_method h0) addrs
            (ImpactModelParams.parameters ps).

(** The model the example store holds, in the first reading: both
    parameters transformed by [Example.float_transform]. *)
Definition example_model : ImpactModel Example.node :=
  {| metadata := None;
     parameters :=
       Some {| ImpactModelParams.parameters :=
                 [Example.p1;
                  {| ImpactModelParam.name := "p2";
                     ImpactModelParam.default := VStr "a";
                     ImpactModelParam.transform := Example.float_transform "p2" |}];
               ImpactModelParams.sobol_problem := Example.problem;
               ImpactModelParams.uniform_draw := Example.draw;
               ImpactModelParams.sobol_draw := Example.draw;
               ImpactModelParams.draw_to_distrib := fun samples => Ok samples |};
     tree := None |}.

End Heap.

(** ** Serialization

    What [to_dict] produces and [from_dict] consumes: the values a YAML
    document loads to. *)

Inductive json : Type :=
| JNone
| JBool (b : bool)
| JNum (x : float)
| JStr (s : string)
| JList (l : list json)
| JDict (d : Dict.t json).

Definition json_of_optional_str (o : option string) : json :=
  match o with
  | Some s => JStr s
  | None => JNone
  end.

(** [model_dump()] of the two leaf models: one key per field, in field
    order. *)
Definition LcaPractitioner_model_dump (p : LcaPractitioner) : Dict.t json :=
  [("name", json_of_optional_str (practitioner_name p));
   ("organization", json_of_optional_str (organization p));
   ("mail", json_of_optional_str (mail p))].

Definition LcaStudy_model_dump (s : LcaStudy) : Dict.t json :=
  [("link", json_of_optional_str (link s));
   ("description", json_of_optional_str (description s));
   ("date", json_of_optional_str (date s));
   ("version", json_of_optional_str (version s));
   ("license", json_of_optional_str (license s));
   ("appabuild_version", json_of_optional_str (appabuild_version s))].

(** [ModelMetadata.to_dict]: [model_dump()] turns a nested model into a
    dict and leaves [None] as it is. *)
Definition ModelMetadata_to_dict (md : ModelMetadata) : Dict.t json :=
  [("author", match author md with
              | Some a => JDict (LcaPractitioner_model_dump a)
              | None => JNone
              end);
   ("reviewer", match reviewer md with
                | Some r => JDict (LcaPractitioner_model_dump r)
                | None => JNone
                end);
   ("report", match report md with
              | Some s => JDict (LcaStudy_model_dump s)
              | None => JNone
              end)].

(** [x[key]] with a string key: only a dict can be subscripted so. *)
Definition subscript (x : json) (key : string) : result json :=
  match x with
  | JDict d => Dict.getitem key d
  | _ => Err TypeError
  end.

(** The validation of one [Optional[str]] field without a default: the
    keyword must be there, and hold a string or [None]. *)
Definition validate_optional_str (kwargs : Dict.t json) (field : string)
  : result (option string) :=
  match Dict.get field kwargs with
  | Some (JStr s) => Ok (Some s)
  | Some JNone => Ok None
  | _ => Err (Raised "ValidationError")
  end.

(** [LcaPractitioner] called with [x] unpacked as keyword arguments:
    unpacking anything but a mapping is a [TypeError]; keywords that name no
    field are ignored. *)
Definition LcaPractitioner_init (x : json) : result LcaPractitioner :=
  match x with
  | JDict kwargs =>
      n <- validate_optional_str kwargs "name" ;;
      o <- validate_optional_str kwargs "organization" ;;
      m <- validate_optional_str kwargs "mail" ;;
      Ok {| practitioner_name := n; organization := o; mail := m |}
  | _ => Err TypeError
  end.

Definition LcaStudy_init (x : json) : result LcaStudy :=
  match x with
  | JDict kwargs =>
      l <- validate_optional_str kwargs "link" ;;
      d <- validate_optional_str kwargs "description" ;;
      t <- validate_optional_str kwargs "date" ;;
      v <- validate_optional_str kwargs "version" ;;
      c <- validate_optional_str kwargs "license" ;;
      a <- validate_optional_str kwargs "appabuild_version" ;;
      Ok {| link := l; description := d; date := t; version := v;
            license := c; appabuild_version := a |}
  | _ => Err TypeError
  end.

(** [ModelMetadata.from_dict] *)
Definition ModelMetadata_from_dict (model_metadata : json) : result ModelMetadata :=
  a <- subscript model_metadata "author" ;;
  author <- LcaPractitioner_init a ;;
  r <- subscript model_metadata "reviewer" ;;
  reviewer <- LcaPractitioner_init r ;;
  s <- subscript model_metadata "report" ;;
  report <- LcaStudy_init s ;;
  Ok {| author := Some author; reviewer := Some reviewer; report := Some report |}.

Section ModelSerialization.
Variable N : Type.

(** [ImpactModelParams.to_list] and [from_list], [ImpactTreeNode.to_dict]
    and [from_dict]: taken as given. *)
Variable params_to_list : ImpactModelParams.t -> bool -> result json.
Variable params_from_list : json -> result ImpactModelParams.t.
Variable tree_to_dict : N -> result json.
Variable tree_from_dict : json -> result N.

(** [ImpactModel.to_dict]: the three values of the display are evaluated in
    order, each through an attribute of a field that may be [None]. *)
Definition to_dict (self : ImpactModel N) : result (Dict.t json) :=
  md <- match metadata self with
        | Some md => Ok (JDict (ModelMetadata_to_dict md))
        | None => Err AttributeError
        end ;;
  ps <- match parameters self with
        | Some ps => params_to_list ps true
        | None => Err AttributeError
        end ;;
  t <- match tree self with
       | Some root => tree_to_dict root
       | None => Err AttributeError
       end ;;
  Ok [("metadata", md); ("parameters", ps); ("tree", t)].

(** [ImpactModel.from_dict] *)
Definition from_dict (impact_model : json) : result (ImpactModel N) :=
  mdj <- subscript impact_model "metadata" ;;
  md <- ModelMetadata_from_dict mdj ;;
  pj <- subscript impact_model "parameters" ;;
  ps <- params_from_list pj ;;
  tj <- subscript impact_model "tree" ;;
  t <- tree_from_dict tj ;;
  Ok {| metadata := Some md; parameters := Some ps; tree := Some t |}.

(** The property [name] *)
Definition model_name {tree_api : ImpactTreeNode.api N} (self : ImpactModel N)
  : result string :=
  match tree self with
  | Some root => Ok (ImpactTreeNode.name root)
  | None => Err AttributeError
  end.

End ModelSerialization.

(** The tree of the example with a first child whose [compute] raises. *)
Definition failing_api : ImpactTreeNode.api Example.node :=
  {| ImpactTreeNode.name := @ImpactTreeNode.name _ Example.tree_api;
     ImpactTreeNode.properties := @ImpactTreeNode.properties _ Example.tree_api;
     ImpactTreeNode.parent := @ImpactTreeNode.parent _ Example.tree_api;
     ImpactTreeNode.children := @ImpactTreeNode.children _ Example.tree_api;
     ImpactTreeNode.unnested_descendants :=
       @ImpactTreeNode.unnested_descendants _ Example.tree_api;
     ImpactTreeNode.compute := fun nd transformed direct_impacts =>
       match nd with
       | Example.ChildA => Err (Raised "no data")
       | _ => Example.node_compute nd transformed direct_impacts
       end |}.

(** An analysis that returns one entry more than the problem has names. *)
Definition long_analysis (pb : SobolProblem) (Y : value) (calc_second_order : bool)
  : result SobolIndices :=
  Ok {| S1 := map (fun _ => (0.5)%float) ("extra" :: names pb); ST := [] |}.

(** ** Shapes of results *)

(** The rows one analysis gives: the names of the problem paired, in order,
    with the entries of ["S1"]. *)
Definition rows_for (node method : string) (parameter_names : list string)
  (s1 : list float) : list SobolRow :=
  map (fun nx => {| row_node := node; row_method := method;
                    row_parameter := fst nx; row_sobol_s1 := snd nx |})
      (combine parameter_names s1).

(** The two kinds of calls. *)
Definition is_compute_call {N : Type} (ev : event N) : Prop :=
  match ev with
  | EvCompute _ _ _ => True
  | EvSobolAnalyze _ _ _ => False
  end.

Definition is_analysis_call {N : Type} (ev : event N) : Prop :=
  match ev with
  | EvCompute _ _ _ => False
  | EvSobolAnalyze _ _ _ => True
  end.

(** The scalar [value] replicated [L] times under its key. *)
Definition replicated (L : nat) (kv : string * value) : string * value :=
  (fst kv, VList (repeat (snd kv) L)).

(** * Properties *)

(** ** The error monad *)

Lemma bind_Ok_inv {A B : Type} (c : result A) (k : A -> result B) (b : B) :
  bind c k = Ok b -> exists a, c = Ok a /\ k a = Ok b.
Proof.
  destruct c as [a|e]; simpl; intros E; [eauto | discriminate].
Qed.

Lemma mapM_Ok_map {A B : Type} (f : A -> result B) (g : A -> B) (l : list A) :
  Forall (fun a => f a = Ok (g a)) l -> mapM f l = Ok (map g l).
Proof.
  induction 1 as [|a l Ha _ IH]; simpl; [reflexivity|].
  rewrite Ha; simpl. rewrite IH; reflexivity.
Qed.

Lemma mapM_Ok_Forall2 {A B : Type} (f : A -> result B) (l : list A) (bs : list B) :
  mapM f l = Ok bs <-> Forall2 (fun a b => f a = Ok b) l bs.
Proof.
  revert bs; induction l as [|a l IH]; simpl; intros bs.
  - split; intros E.
    + inversion E; constructor.
    + inversion E; reflexivity.
  - split; intros E.
    + apply bind_Ok_inv in E as (b & Eb & E).
      apply bind_Ok_inv in E as (bs' & Ebs & E).
      inversion E; subst. constructor; [assumption | apply IH; assumption].
    + inversion E as [|a' b l' bs' Hb Hrest]; subst.
      rewrite Hb; simpl. apply IH in Hrest. rewrite Hrest; reflexivity.
Qed.

Lemma mapM_Err_In {A B : Type} (f : A -> result B) (l : list A) :
  (exists a, In a l /\ is_ok (f a) = false) -> exists e, mapM f l = Err e.
Proof.
  induction l as [|a l IH]; intros (x & Hin & Hx); [destruct Hin|].
  simpl. destruct (f a) as [b|e] eqn:Ea; simpl; [|eauto].
  destruct Hin as [->|Hin]; [rewrite Ea in Hx; discriminate|].
  destruct IH as (e & ->); [eauto|]. simpl; eauto.
Qed.

Lemma mapM_total {A B : Type} (f : A -> result B) (l : list A) :
  Forall (fun a => is_ok (f a) = true) l -> exists bs, mapM f l = Ok bs.
Proof.
  induction 1 as [|a l Ha _ (bs & IH)]; simpl; [eauto|].
  destruct (f a) as [b|e]; [|discriminate]. simpl. rewrite IH; simpl; eauto.
Qed.

(** ** Dictionaries *)

Section DictFacts.
Variable V : Type.
Implicit Types (d : Dict.t V) (k : string) (v : V).

Lemma get_set d k k' v :
  Dict.get k (Dict.set k' v d) = if String.eqb k k' then Some v else Dict.get k d.
Proof.
  induction d as [|[k0 v0] d IH]; simpl.
  - reflexivity.
  - destruct (String.eqb k' k0) eqn:E0; simpl.
    + apply String.eqb_eq in E0; subst k0.
      destruct (String.eqb k k'); reflexivity.
    + destruct (String.eqb k k0) eqn:E1.
      * apply String.eqb_eq in E1; subst k0.
        rewrite String.eqb_sym, E0. reflexivity.
      * exact IH.
Qed.

Lemma keys_set d k k' v :
  In k (Dict.keys (Dict.set k' v d)) <-> k = k' \/ In k (Dict.keys d).
Proof.
  induction d as [|[k0 v0] d IH]; simpl.
  - intuition.
  - destruct (String.eqb k' k0) eqn:E0; simpl.
    + apply String.eqb_eq in E0; subst k0. intuition.
    + rewrite IH. intuition.
Qed.

Lemma set_fresh d k v :
  ~ In k (Dict.keys d) -> Dict.set k v d = (d ++ [(k, v)])%list.
Proof.
  induction d as [|[k0 v0] d IH]; simpl; intros Hk; [reflexivity|].
  destruct (String.eqb k k0) eqn:E.
  - apply String.eqb_eq in E. exfalso; apply Hk; left; congruence.
  - rewrite IH; [reflexivity|]. intros Hin; apply Hk; right; exact Hin.
Qed.

Lemma wf_set d k v : Dict.wf d -> Dict.wf (Dict.set k v d).
Proof.
  unfold Dict.wf. induction d as [|[k0 v0] d IH]; simpl; intros Hd.
  - constructor; [intros []|constructor].
  - inversion Hd as [|x l Hnotin Hrest]; subst.
    destruct (String.eqb k k0) eqn:E; simpl.
    + apply String.eqb_eq in E; subst k0. constructor; assumption.
    + constructor; [|apply IH; assumption].
      intros Hin. apply (keys_set d k0 k v) in Hin. destruct Hin as [->|Hin].
      * rewrite String.eqb_refl in E; discriminate.
      * contradiction.
Qed.

Lemma wf_update d1 d2 : Dict.wf d1 -> Dict.wf (Dict.update d1 d2).
Proof.
  unfold Dict.update. revert d1; induction d2 as [|[k v] d2 IH]; simpl; intros d1 H1.
  - exact H1.
  - apply IH, wf_set, H1.
Qed.

Lemma wf_of_items (l : list (string * V)) : Dict.wf (Dict.of_items l).
Proof. apply wf_update. constructor. Qed.

Lemma get_update d1 d2 k :
  Dict.get k (Dict.update d1 d2) =
  match Dict.get k (rev d2) with
  | Some v => Some v
  | None => Dict.get k d1
  end.
Proof.
  unfold Dict.update. revert d1; induction d2 as [|[k' v'] d2 IH]; simpl; intros d1.
  - reflexivity.
  - rewrite IH. clear IH.
    assert (Happ : forall l1 l2 : Dict.t V,
               Dict.get k (l1 ++ l2)%list =
               match Dict.get k l1 with Some v => Some v | None => Dict.get k l2 end).
    { induction l1 as [|[a b] l1 IHl]; simpl; intros l2; [reflexivity|].
      destruct (String.eqb k a); [reflexivity | apply IHl]. }
    rewrite Happ. destruct (Dict.get k (rev d2)); [reflexivity|].
    simpl. rewrite get_set. destruct (String.eqb k k'); reflexivity.
Qed.

(** Last write wins: a key is read back with the value of its last pair. *)
Lemma get_of_items (l : list (string * V)) k :
  Dict.get k (Dict.of_items l) = Dict.get k (rev l).
Proof.
  unfold Dict.of_items. rewrite get_update. destruct (Dict.get k (rev l)); reflexivity.
Qed.

Lemma keys_update d1 d2 k :
  In k (Dict.keys (Dict.update d1 d2)) <-> In k (Dict.keys d1) \/ In k (Dict.keys d2).
Proof.
  unfold Dict.update. revert d1; induction d2 as [|[k' v'] d2 IH]; simpl; intros d1.
  - intuition.
  - rewrite IH, keys_set. intuition.
Qed.

Lemma keys_of_items (l : list (string * V)) k :
  In k (Dict.keys (Dict.of_items l)) <-> In k (map fst l).
Proof.
  unfold Dict.of_items. rewrite keys_update. simpl. intuition.
Qed.

Lemma update_fresh d1 d2 :
  NoDup (Dict.keys (d1 ++ d2)%list) -> Dict.update d1 d2 = (d1 ++ d2)%list.
Proof.
  unfold Dict.update, Dict.keys. revert d1; induction d2 as [|[k v] d2 IH]; simpl; intros d1 Hnd.
  - rewrite app_nil_r; reflexivity.
  - rewrite set_fresh.
    + rewrite IH; rewrite <- app_assoc; [reflexivity | exact Hnd].
    + rewrite map_app in Hnd. simpl in Hnd.
      apply NoDup_remove_2 in Hnd. intros Hin; apply Hnd, in_or_app; left; exact Hin.
Qed.

(** Storing the pairs of a dict again gives the dict back. *)
Lemma of_items_wf d : Dict.wf d -> Dict.of_items d = d.
Proof. intros Hd. unfold Dict.of_items. rewrite update_fresh; [reflexivity | exact Hd]. Qed.

Lemma wf_filter (f : string * V -> bool) d : Dict.wf d -> Dict.wf (filter f d).
Proof.
  unfold Dict.wf, Dict.keys. induction d as [|[k v] d IH]; simpl; intros Hd; [constructor|].
  inversion Hd as [|x l Hnotin Hrest]; subst.
  destruct (f (k, v)); simpl; [constructor|]; [|apply IH; assumption|apply IH; assumption].
  intros Hin. apply Hnotin. apply in_map_iff in Hin as ([k1 v1] & E & Hin).
  apply filter_In in Hin as [Hin _]. apply in_map_iff. exists (k1, v1); split; assumption.
Qed.

Lemma get_In d k v : Dict.get k d = Some v -> In (k, v) d.
Proof.
  induction d as [|[k0 v0] d IH]; simpl; [discriminate|].
  destruct (String.eqb k k0) eqn:E.
  - apply String.eqb_eq in E; subst. intros [= ->]. left; reflexivity.
  - intros H; right; apply IH, H.
Qed.

Lemma In_get d k v : Dict.wf d -> In (k, v) d -> Dict.get k d = Some v.
Proof.
  unfold Dict.wf, Dict.keys. induction d as [|[k0 v0] d IH]; simpl; intros Hd Hin; [destruct Hin|].
  inversion Hd as [|x l Hnotin Hrest]; subst.
  destruct Hin as [[= -> ->]|Hin].
  - rewrite String.eqb_refl; reflexivity.
  - destruct (String.eqb k k0) eqn:E.
    + apply String.eqb_eq in E; subst k0. exfalso; apply Hnotin.
      apply in_map_iff. exists (k, v); split; [reflexivity | assumption].
    + apply IH; assumption.
Qed.

Lemma get_None_keys d k : Dict.get k d = None <-> ~ In k (Dict.keys d).
Proof.
  induction d as [|[k0 v0] d IH]; simpl; [intuition|].
  destruct (String.eqb k k0) eqn:E.
  - apply String.eqb_eq in E; subst. split; [discriminate | intros H; exfalso; apply H; left; reflexivity].
  - rewrite IH. split; intros H.
    + intros [->|Hin]; [rewrite String.eqb_refl in E; discriminate | contradiction].
    + intros Hin; apply H; right; exact Hin.
Qed.

End DictFacts.

Lemma In_of_items {V : Type} (l : list (string * V)) k v :
  In (k, v) (Dict.of_items l) -> In (k, v) l.
Proof.
  intros Hin. apply In_get in Hin; [|apply wf_of_items].
  rewrite get_of_items in Hin. apply get_In in Hin. apply in_rev, Hin.
Qed.

Lemma wf_rev {V : Type} (d : Dict.t V) : Dict.wf d -> Dict.wf (rev d).
Proof.
  unfold Dict.wf, Dict.keys. rewrite map_rev. apply NoDup_rev.
Qed.

(** ** Lengths, [min] and [max] *)

Lemma fold_min_spec (l : list nat) (x : nat) :
  fold_left Nat.min l x <= x /\ Forall (fun y => fold_left Nat.min l x <= y) l.
Proof.
  revert x; induction l as [|y l IH]; simpl; intros x; [split; [lia|constructor]|].
  destruct (IH (Nat.min x y)) as [H1 H2]. split; [lia|].
  constructor; [lia | exact H2].
Qed.

Lemma fold_max_spec (l : list nat) (x : nat) :
  x <= fold_left Nat.max l x /\ Forall (fun y => y <= fold_left Nat.max l x) l.
Proof.
  revert x; induction l as [|y l IH]; simpl; intros x; [split; [lia|constructor]|].
  destruct (IH (Nat.max x y)) as [H1 H2]. split; [lia|].
  constructor; [lia | exact H2].
Qed.

Lemma fold_min_const (l : list nat) (x : nat) :
  Forall (fun y => y = x) l -> fold_left Nat.min l x = x.
Proof.
  induction 1 as [|y l -> _ IH]; simpl; [reflexivity|]. rewrite Nat.min_id; exact IH.
Qed.

Lemma fold_max_const (l : list nat) (x : nat) :
  Forall (fun y => y = x) l -> fold_left Nat.max l x = x.
Proof.
  induction 1 as [|y l -> _ IH]; simpl; [reflexivity|]. rewrite Nat.max_id; exact IH.
Qed.

Lemma py_min_lower (l : list nat) (m x : nat) : py_min l = Ok m -> In x l -> m <= x.
Proof.
  destruct l as [|y l]; simpl; [discriminate|]. intros [= <-] Hin.
  destruct (fold_min_spec l y) as [H1 H2]. destruct Hin as [<-|Hin]; [exact H1|].
  rewrite Forall_forall in H2. apply H2, Hin.
Qed.

Lemma py_max_upper (l : list nat) (m x : nat) : py_max l = Ok m -> In x l -> x <= m.
Proof.
  destruct l as [|y l]; simpl; [discriminate|]. intros [= <-] Hin.
  destruct (fold_max_spec l y) as [H1 H2]. destruct Hin as [<-|Hin]; [exact H1|].
  rewrite Forall_forall in H2. apply H2, Hin.
Qed.

Lemma len_batches (vs : list value) :
  Forall (fun v => isinstance_list v = true) vs ->
  exists ns, mapM len vs = Ok ns /\
             Forall2 (fun v n => exists l, v = VList l /\ List.length l = n) vs ns.
Proof.
  induction 1 as [|v vs Hv _ (ns & E & IH)]; simpl.
  - exists []; split; [reflexivity | constructor].
  - destruct v as [x|s|l]; try discriminate. simpl. rewrite E; simpl.
    exists (List.length l :: ns); split; [reflexivity|]. constructor; [eauto | exact IH].
Qed.

(** ** The partition of the input *)

Section TransformFacts.
Variable N : Type.
Variable self : ImpactModel N.
Implicit Types (parameters : Dict.t value) (k : string) (v : value).

Lemma list_parameters_filter parameters :
  Dict.wf parameters ->
  list_parameters parameters = filter (fun kv => isinstance_list (snd kv)) parameters.
Proof. intros Hwf. apply of_items_wf, wf_filter, Hwf. Qed.

Lemma single_parameters_filter parameters :
  Dict.wf parameters ->
  single_parameters parameters =
  filter (fun kv => negb (isinstance_list (snd kv))) parameters.
Proof. intros Hwf. apply of_items_wf, wf_filter, Hwf. Qed.

Lemma In_list_parameters parameters k v :
  Dict.wf parameters ->
  In (k, v) (list_parameters parameters) <->
  In (k, v) parameters /\ isinstance_list v = true.
Proof. intros Hwf. rewrite list_parameters_filter by assumption. apply filter_In. Qed.

Lemma In_single_parameters parameters k v :
  Dict.wf parameters ->
  In (k, v) (single_parameters parameters) <->
  In (k, v) parameters /\ isinstance_list v = false.
Proof.
  intros Hwf. rewrite single_parameters_filter by assumption.
  rewrite filter_In. simpl. rewrite negb_true_iff. reflexivity.
Qed.

Lemma list_parameters_values parameters :
  Forall (fun v => isinstance_list v = true) (Dict.values (list_parameters parameters)).
Proof.
  apply Forall_forall. intros v Hv. unfold Dict.values in Hv.
  apply in_map_iff in Hv as ([k v'] & <- & Hin). simpl.
  apply In_of_items, filter_In in Hin. apply Hin.
Qed.

(** No batch among the entries: the first branch is taken. *)
Lemma transform_parameters_scalars parameters :
  Forall (fun kv => isinstance_list (snd kv) = false) parameters ->
  transform_parameters self parameters = merge_transformed self parameters.
Proof.
  intros Hsc. unfold transform_parameters, list_parameters, Dict.items.
  replace (filter (fun kv => isinstance_list (snd kv)) parameters) with (@nil (string * value)).
  - reflexivity.
  - symmetry. induction Hsc as [|kv l Hkv _ IH]; simpl; [reflexivity|]. rewrite Hkv; exact IH.
Qed.

(** The lengths the assertion compares, when the input is a dict with at
    least one batch. *)
Lemma transform_parameters_batched parameters k0 l0 :
  Dict.wf parameters ->
  In (k0, VList l0) parameters ->
  exists ns shortest longest,
    mapM len (Dict.values (list_parameters parameters)) = Ok ns /\
    py_min ns = Ok shortest /\ py_max ns = Ok longest /\
    (forall k l, In (k, VList l) parameters -> In (List.length l) ns) /\
    (forall n, In n ns -> exists k l, In (k, VList l) parameters /\ List.length l = n) /\
    transform_parameters self parameters =
    if Nat.eqb shortest longest then
      full <- full_list_parameters (single_parameters parameters)
                                   (list_parameters parameters) ;;
      merge_transformed self full
    else Err AssertionError.
Proof.
  intros Hwf Hin0.
  destruct (len_batches (list_parameters_values parameters)) as (ns & Ens & Hns).
  assert (Hlp : In (k0, VList l0) (list_parameters parameters)).
  { apply In_list_parameters; [assumption | split; [assumption | reflexivity]]. }
  assert (Hall : forall k l, In (k, VList l) parameters -> In (List.length l) ns).
  { intros k l Hin.
    assert (Hv : In (VList l) (Dict.values (list_parameters parameters))).
    { apply in_map_iff. exists (k, VList l); split; [reflexivity|].
      apply In_list_parameters; [assumption | split; [assumption | reflexivity]]. }
    clear -Hns Hv. induction Hns as [|v n vs ns' (l' & E & Hl) _ IH]; [destruct Hv|].
    destruct Hv as [->|Hv]; [left; inversion E; subst; reflexivity | right; apply IH, Hv]. }
  assert (Hback : forall n, In n ns ->
                  exists k l, In (k, VList l) parameters /\ List.length l = n).
  { intros n Hn.
    assert (Hv : exists l, In (VList l) (Dict.values (list_parameters parameters))
                           /\ List.length l = n).
    { clear -Hns Hn. induction Hns as [|v n' vs ns' (l' & E & Hl) _ IH]; [destruct Hn|].
      destruct Hn as [->|Hn].
      - exists l'; split; [left; exact E | exact Hl].
      - destruct (IH Hn) as (l & Hl1 & Hl2). exists l; split; [right; exact Hl1 | exact Hl2]. }
    destruct Hv as (l & Hv & Hl). apply in_map_iff in Hv as ([k v] & E & Hin).
    simpl in E; subst v. exists k, l; split; [|exact Hl].
    apply In_list_parameters in Hin; [apply Hin | assumption]. }
  destruct ns as [|n ns]; [destruct (Hall _ _ Hin0)|].
  exists (n :: ns), (fold_left Nat.min ns n), (fold_left Nat.max ns n).
  repeat split; try assumption.
  unfold transform_parameters.
  destruct (list_parameters parameters) as [|kv lp] eqn:Elp; [destruct Hlp|].
  cbn [List.length Nat.eqb]. rewrite Ens. reflexivity.
Qed.

End TransformFacts.

Lemma py_min_const (ns : list nat) (L : nat) :
  ns <> [] -> (forall n, In n ns -> n = L) -> py_min ns = Ok L.
Proof.
  destruct ns as [|n ns]; [congruence|]. intros _ Hall. simpl.
  rewrite (Hall n) by (left; reflexivity). f_equal. apply fold_min_const.
  apply Forall_forall. intros y Hy. apply Hall. right; exact Hy.
Qed.

Lemma py_max_const (ns : list nat) (L : nat) :
  ns <> [] -> (forall n, In n ns -> n = L) -> py_max ns = Ok L.
Proof.
  destruct ns as [|n ns]; [congruence|]. intros _ Hall. simpl.
  rewrite (Hall n) by (left; reflexivity). f_equal. apply fold_max_const.
  apply Forall_forall. intros y Hy. apply Hall. right; exact Hy.
Qed.

Lemma Forall2_In_r {A B : Type} (R : A -> B -> Prop) (l : list A) (l' : list B) (b : B) :
  Forall2 R l l' -> In b l' -> exists a, In a l /\ R a b.
Proof.
  induction 1 as [|a0 b0 l l' H0 _ IH]; intros Hin; [destruct Hin|].
  destruct Hin as [<-|Hin].
  - exists a0; split; [left; reflexivity | exact H0].
  - destruct (IH Hin) as (a & Ha & HR). exists a; split; [right; exact Ha | exact HR].
Qed.

Section BroadcastFacts.
Variable N : Type.
Variable self : ImpactModel N.
Implicit Types (parameters : Dict.t value) (k : string) (v : value).

(** What the merge stores comes out of one of the transforms. *)
Lemma merge_transformed_In (d r : Dict.t value) k v :
  merge_transformed self d = Ok r -> In (k, v) r ->
  exists k0 v0 table f t,
    In (k0, v0) d /\ transformation_table self = Ok table /\
    Dict.get k0 table = Some f /\ f v0 = Ok t /\ In (k, v) t.
Proof.
  unfold merge_transformed. intros E Hin.
  apply bind_Ok_inv in E as (tables & Etables & E). inversion E; subst r; clear E.
  apply In_of_items, in_concat in Hin as (t & Ht & Hin).
  apply in_map_iff in Ht as (t' & <- & Ht').
  apply mapM_Ok_Forall2 in Etables.
  destruct (Forall2_In_r t' Etables Ht') as ([k0 v0] & Hkv & Eone).
  unfold transform_one in Eone. simpl in Eone.
  apply bind_Ok_inv in Eone as (table & Etable & Eone).
  apply bind_Ok_inv in Eone as (f & Ef & Eone).
  unfold Dict.getitem in Ef. destruct (Dict.get k0 table) as [f'|] eqn:Eget; [|discriminate].
  inversion Ef; subst f'. exists k0, v0, table, f, t'. auto.
Qed.

Lemma merge_transformed_total (d : Dict.t value) :
  (forall k v, In (k, v) d ->
     exists table f, transformation_table self = Ok table /\
                     Dict.get k table = Some f /\ is_ok (f v) = true) ->
  exists r, merge_transformed self d = Ok r.
Proof.
  intros Hreg. unfold merge_transformed.
  destruct (@mapM_total _ _ (transform_one self) (Dict.items d)) as (tables & Et).
  - apply Forall_forall. intros [k v] Hin. destruct (Hreg k v Hin) as (table & f & Et & Ef & Hok).
    unfold transform_one, Dict.getitem. simpl. rewrite Et. simpl. rewrite Ef. simpl. exact Hok.
  - rewrite Et. simpl. eauto.
Qed.

(** With a batch among the entries and one common length [L], the
    assertion holds and the scalars are replicated [L] times. *)
Lemma full_list_parameters_common parameters L :
  Dict.wf parameters ->
  (exists k l, In (k, VList l) parameters) ->
  (forall k l, In (k, VList l) parameters -> List.length l = L) ->
  exists full,
    full_list_parameters (single_parameters parameters) (list_parameters parameters)
    = Ok full /\
    transform_parameters self parameters = merge_transformed self full /\
    Dict.wf full /\
    (forall k v, In (k, v) parameters -> isinstance_list v = false ->
                 Dict.get k full = Some (VList (repeat v L))) /\
    (forall k l, In (k, VList l) parameters -> Dict.get k full = Some (VList l)) /\
    (forall k, In k (Dict.keys full) <-> In k (Dict.keys parameters)) /\
    Forall (is_batch L) (Dict.values full).
Proof.
  intros Hwf (k0 & l0 & Hin0) Hcommon.
  destruct (transform_parameters_batched self k0 l0 Hwf Hin0)
    as (ns & shortest & longest & Ens & Emin & Emax & Hall & Hback & Etp).
  assert (Hne : ns <> []).
  { intros ->. destruct (Hall _ _ Hin0). }
  assert (HnsL : forall n, In n ns -> n = L).
  { intros n Hn. destruct (Hback n Hn) as (k & l & Hin & <-). eapply Hcommon, Hin. }
  rewrite (py_min_const Hne HnsL) in Emin. rewrite (py_max_const Hne HnsL) in Emax.
  inversion Emin; inversion Emax; subst shortest longest. rewrite Nat.eqb_refl in Etp.
  set (lp := list_parameters parameters) in *.
  set (sp := single_parameters parameters) in *.
  assert (Hlp : forall k v, In (k, v) lp <-> In (k, v) parameters /\ isinstance_list v = true).
  { intros k v. apply In_list_parameters, Hwf. }
  assert (Hsp : forall k v, In (k, v) sp <-> In (k, v) parameters /\ isinstance_list v = false).
  { intros k v. apply In_single_parameters, Hwf. }
  assert (Hfirst : first_len lp = Ok L).
  { unfold first_len. destruct (Dict.values lp) as [|v vs] eqn:Ev.
    - exfalso. assert (H : In (VList l0) (Dict.values lp)).
      { apply in_map_iff. exists (k0, VList l0); split; [reflexivity | apply Hlp; auto]. }
      rewrite Ev in H. destruct H.
    - assert (H : In v (Dict.values lp)) by (rewrite Ev; left; reflexivity).
      apply in_map_iff in H as ([k v'] & E & H). simpl in E; subst v'.
      apply Hlp in H as [H1 H2]. destruct v as [x|s|l]; try discriminate.
      simpl. f_equal. eapply Hcommon, H1. }
  set (bc := fun kv : string * value => (fst kv, VList (repeat (snd kv) L))).
  assert (Ebc : mapM (fun kv => L' <- first_len lp ;; Ok (fst kv, VList (repeat (snd kv) L')))
                     (Dict.items sp) = Ok (map bc sp)).
  { apply mapM_Ok_map. apply Forall_forall. intros kv _. rewrite Hfirst. reflexivity. }
  assert (Hwfsp : Dict.wf sp) by apply wf_of_items.
  assert (Hwflp : Dict.wf lp) by apply wf_of_items.
  assert (Hwfbc : Dict.wf (map bc sp)).
  { unfold Dict.wf, Dict.keys in *. rewrite map_map. simpl. exact Hwfsp. }
  exists (Dict.update (map bc sp) lp).
  assert (Hfull : full_list_parameters sp lp = Ok (Dict.update (map bc sp) lp)).
  { unfold full_list_parameters. rewrite Ebc. simpl. rewrite (of_items_wf Hwfbc). reflexivity. }
  assert (Hwffull : Dict.wf (Dict.update (map bc sp) lp)) by (apply wf_update, Hwfbc).
  assert (Hget_single : forall k v, In (k, v) parameters -> isinstance_list v = false ->
            Dict.get k (Dict.update (map bc sp) lp) = Some (VList (repeat v L))).
  { intros k v Hin Hv. rewrite get_update.
    destruct (Dict.get k (rev lp)) as [v'|] eqn:Erev.
    - exfalso. apply get_In, in_rev, Hlp in Erev as [H1 H2].
      pose proof (In_get k v' Hwf H1) as G1. pose proof (In_get k v Hwf Hin) as G2.
      rewrite G1 in G2. inversion G2; subst v'. congruence.
    - apply In_get; [exact Hwfbc|]. apply in_map_iff. exists (k, v); split; [reflexivity|].
      apply Hsp; auto. }
  assert (Hget_list : forall k l, In (k, VList l) parameters ->
            Dict.get k (Dict.update (map bc sp) lp) = Some (VList l)).
  { intros k l Hin. rewrite get_update.
    rewrite (@In_get _ (rev lp) k (VList l)); [reflexivity | apply wf_rev, Hwflp |].
    apply in_rev. rewrite rev_involutive. apply Hlp; auto. }
  repeat split; try assumption.
  - rewrite Etp, Hfull. reflexivity.
  - rewrite keys_update. intros [Hk|Hk].
    + unfold Dict.keys in Hk. apply in_map_iff in Hk as ([k' v'] & <- & Hin).
      apply in_map_iff in Hin as ([k1 v1] & E & Hin). unfold bc in E. simpl in E.
      inversion E; subst k' v'; clear E. simpl.
      apply Hsp in Hin as [Hin _]. apply in_map_iff. exists (k1, v1); auto.
    + unfold Dict.keys in Hk. apply in_map_iff in Hk as ([k' v'] & <- & Hin).
      apply Hlp in Hin as [Hin _]. apply in_map_iff. exists (k', v'); auto.
  - intros Hk. unfold Dict.keys in Hk. apply in_map_iff in Hk as ([k' v'] & <- & Hin).
    simpl. apply keys_update.
    destruct (isinstance_list v') eqn:Ev.
    + right. apply in_map_iff. exists (k', v'); split; [reflexivity | apply Hlp; auto].
    + left. apply in_map_iff. exists (bc (k', v')); split; [reflexivity|].
      apply in_map_iff. exists (k', v'); split; [reflexivity | apply Hsp; auto].
  - apply Forall_forall. intros v Hv. unfold Dict.values in Hv.
    apply in_map_iff in Hv as ([k v'] & E & Hin). simpl in E; subst v'.
    apply (In_get k v Hwffull) in Hin. rewrite get_update in Hin.
    destruct (Dict.get k (rev lp)) as [v'|] eqn:Erev.
    + inversion Hin; subst v'. apply get_In, in_rev, Hlp in Erev as [H1 H2].
      destruct v as [x|s|l]; try discriminate. exists l; split; [reflexivity|].
      eapply Hcommon, H1.
    + apply get_In, in_map_iff in Hin as ([k1 v1] & E & _). inversion E; subst.
      eexists; split; [reflexivity | apply repeat_length].
Qed.

End BroadcastFacts.

Lemma get_app {V : Type} (l1 l2 : Dict.t V) (k : string) :
  Dict.get k (l1 ++ l2)%list =
  match Dict.get k l1 with
  | Some v => Some v
  | None => Dict.get k l2
  end.
Proof.
  induction l1 as [|[a b] l1 IH]; simpl; [reflexivity|].
  destruct (String.eqb k a); [reflexivity | exact IH].
Qed.

(** The transforms of the example keep the length of a batch. *)
Lemma example_transforms_keep_length (L : nat) (table : Dict.t (value -> result (Dict.t value)))
  (k : string) (f : value -> result (Dict.t value)) (v : value) (t : Dict.t value) :
  transformation_table Example.model = Ok table ->
  Dict.get k table = Some f -> is_batch L v -> f v = Ok t ->
  Forall (is_batch L) (Dict.values t).
Proof.
  intros Et Ef (l & -> & Hl) Efv. inversion Et; subst table; clear Et.
  cbn in Ef. destruct (String.eqb k "p1").
  - inversion Ef; subst f. inversion Efv; subst t. repeat constructor.
    exists l; auto.
  - destruct (String.eqb k "p2"); [|discriminate].
    inversion Ef; subst f. inversion Efv; subst t.
    repeat constructor; eexists; (split; [reflexivity|]); rewrite length_map; exact Hl.
Qed.

(** ** The claims about [transform_parameters] *)

(** C1.  When the input holds at least one batch and all its batches have
    the same length [L], every scalar entry is replicated into a batch of
    length [L] (the batches are kept as they are, under the same keys), the
    transforms are applied to that all-batch mapping, and, each registered
    transform mapping a length-[L] batch to length-[L] outputs, every value
    of the returned mapping is a batch of length [L]; the call returns when
    every name is registered and its transform accepts the batch. *)
Theorem transform_parameters_broadcast (N : Type) (self : ImpactModel N)
  (parameters : Dict.t value) (L : nat) :
  Dict.wf parameters ->
  (exists k l, In (k, VList l) parameters) ->
  (forall k l, In (k, VList l) parameters -> List.length l = L) ->
  (forall table k f v t,
      transformation_table self = Ok table -> Dict.get k table = Some f ->
      is_batch L v -> f v = Ok t -> Forall (is_batch L) (Dict.values t)) ->
  exists full,
    full_list_parameters (single_parameters parameters) (list_parameters parameters)
    = Ok full /\
    transform_parameters self parameters = merge_transformed self full /\
    (forall k v, In (k, v) parameters -> isinstance_list v = false ->
                 Dict.get k full = Some (VList (repeat v L))) /\
    (forall k l, In (k, VList l) parameters -> Dict.get k full = Some (VList l)) /\
    (forall k, In k (Dict.keys full) <-> In k (Dict.keys parameters)) /\
    (forall r, transform_parameters self parameters = Ok r ->
               Forall (is_batch L) (Dict.values r)) /\
    ((forall k v, In (k, v) full ->
        exists table f, transformation_table self = Ok table /\
                        Dict.get k table = Some f /\ is_ok (f v) = true) ->
     exists r, transform_parameters self parameters = Ok r).
Proof.
  intros Hwf Hbatch Hcommon Hkeep.
  destruct (full_list_parameters_common self Hwf Hbatch Hcommon)
    as (full & Efull & Etp & Hwffull & Hsingle & Hlist & Hkeys & Hvalues).
  exists full. repeat split; try assumption; try apply Hkeys.
  - intros r Er. rewrite Etp in Er. apply Forall_forall. intros v Hv.
    unfold Dict.values in Hv. apply in_map_iff in Hv as ([k v'] & E & Hin).
    simpl in E; subst v'.
    destruct (merge_transformed_In self full k v Er Hin)
      as (k0 & v0 & table & f & t & Hin0 & Etable & Ef & Efv & Hint).
    assert (Hb : is_batch L v0).
    { rewrite Forall_forall in Hvalues. apply Hvalues.
      apply in_map_iff. exists (k0, v0); auto. }
    pose proof (Hkeep table k0 f v0 t Etable Ef Hb Efv) as Ht.
    rewrite Forall_forall in Ht. apply Ht. apply in_map_iff. exists (k, v); auto.
  - intros Hreg. rewrite Etp. apply merge_transformed_total, Hreg.
Qed.

Lemma transform_parameters_broadcast_witness :
  Dict.wf Example.mixed /\
  exists full,
    full_list_parameters (single_parameters Example.mixed)
                         (list_parameters Example.mixed) = Ok full /\
    transform_parameters Example.model Example.mixed
    = merge_transformed Example.model full /\
    (forall k v, In (k, v) Example.mixed -> isinstance_list v = false ->
                 Dict.get k full = Some (VList (repeat v 2))) /\
    (forall k l, In (k, VList l) Example.mixed -> Dict.get k full = Some (VList l)) /\
    (forall k, In k (Dict.keys full) <-> In k (Dict.keys Example.mixed)) /\
    (forall r, transform_parameters Example.model Example.mixed = Ok r ->
               Forall (is_batch 2) (Dict.values r)) /\
    ((forall k v, In (k, v) full ->
        exists table f, transformation_table Example.model = Ok table /\
                        Dict.get k table = Some f /\ is_ok (f v) = true) ->
     exists r, transform_parameters Example.model Example.mixed = Ok r).
Proof.
  assert (Hwf : Dict.wf Example.mixed).
  { unfold Dict.wf; simpl. repeat constructor; simpl; intuition congruence. }
  split; [exact Hwf|].
  apply (@transform_parameters_broadcast Example.node Example.model Example.mixed 2 Hwf).
  - exists "p2", [VStr "a"; VStr "b"]. simpl; auto.
  - intros k l [E|[E|[]]]; inversion E; reflexivity.
  - apply example_transforms_keep_length.
Defined.

(** Two batches of different lengths fail the assertion. *)
Lemma assertion_fails (N : Type) (self : ImpactModel N)
  (parameters : Dict.t value) (k1 k2 : string) (l1 l2 : list value) :
  Dict.wf parameters ->
  In (k1, VList l1) parameters -> In (k2, VList l2) parameters ->
  List.length l1 <> List.length l2 ->
  transform_parameters self parameters = Err AssertionError.
Proof.
  intros Hwf H1 H2 Hne.
  destruct (transform_parameters_batched self k1 l1 Hwf H1)
    as (ns & shortest & longest & _ & Emin & Emax & Hall & _ & Etp).
  pose proof (@py_min_lower _ _ _ Emin (Hall _ _ H1)) as A1.
  pose proof (@py_min_lower _ _ _ Emin (Hall _ _ H2)) as A2.
  pose proof (@py_max_upper _ _ _ Emax (Hall _ _ H1)) as B1.
  pose proof (@py_max_upper _ _ _ Emax (Hall _ _ H2)) as B2.
  rewrite Etp. destruct (Nat.eqb shortest longest) eqn:Eq; [|reflexivity].
  apply Nat.eqb_eq in Eq. lia.
Qed.

(** C2.  Two batches of different lengths in the input: the call raises
    [AssertionError], whatever the model, and returns no mapping. *)
Theorem transform_parameters_unequal_batches (N : Type) (self : ImpactModel N)
  (parameters : Dict.t value) (k1 k2 : string) (l1 l2 : list value) :
  Dict.wf parameters ->
  In (k1, VList l1) parameters -> In (k2, VList l2) parameters ->
  List.length l1 <> List.length l2 ->
  transform_parameters self parameters = Err AssertionError /\
  forall r, transform_parameters self parameters <> Ok r.
Proof.
  intros Hwf H1 H2 Hne.
  pose proof (assertion_fails self k1 k2 l1 l2 Hwf H1 H2 Hne) as E.
  split; [exact E|]. intros r. rewrite E. discriminate.
Qed.

Lemma transform_parameters_unequal_batches_witness :
  transform_parameters Example.model Example.unequal = Err AssertionError /\
  forall r, transform_parameters Example.model Example.unequal <> Ok r.
Proof.
  apply (@transform_parameters_unequal_batches Example.node Example.model
           Example.unequal "p1" "p2" [VNum 1; VNum 2; VNum 3] [VStr "a"; VStr "b"]).
  - unfold Dict.wf; simpl. repeat constructor; simpl; intuition congruence.
  - simpl; auto.
  - simpl; auto.
  - simpl; lia.
Defined.

(** C5, as the spec states it, fails: a batch of length 1 next to a batch
    of length 2, both names registered, is rejected by the assertion; it is
    not replicated. *)
Lemma length_one_batch_rejected :
  In ("p1", VList [VNum 5]) Example.singleton_and_pair /\
  In ("p2", VList [VStr "a"; VStr "b"]) Example.singleton_and_pair /\
  transform_parameters Example.model Example.singleton_and_pair = Err AssertionError /\
  ~ exists r, transform_parameters Example.model Example.singleton_and_pair = Ok r.
Proof.
  assert (E : transform_parameters Example.model Example.singleton_and_pair
              = Err AssertionError) by reflexivity.
  repeat split; simpl; auto.
  intros (r & Er). rewrite E in Er. discriminate.
Qed.

(** C5, amended.  A batch of length 1 together with a batch of any other
    length, longer or empty, fails the assertion; it is accepted when every
    batch of the input has length 1, and then it reaches its transform as it
    is while the scalars are replicated once. *)
Theorem length_one_batch (N : Type) (self : ImpactModel N)
  (parameters : Dict.t value) (k1 : string) (x : value) :
  Dict.wf parameters ->
  In (k1, VList [x]) parameters ->
  (forall k2 l2, In (k2, VList l2) parameters -> List.length l2 <> 1 ->
                 transform_parameters self parameters = Err AssertionError) /\
  ((forall k l, In (k, VList l) parameters -> List.length l = 1) ->
   exists full,
     full_list_parameters (single_parameters parameters) (list_parameters parameters)
     = Ok full /\
     transform_parameters self parameters = merge_transformed self full /\
     Dict.get k1 full = Some (VList [x]) /\
     (forall k v, In (k, v) parameters -> isinstance_list v = false ->
                  Dict.get k full = Some (VList [v]))).
Proof.
  intros Hwf H1. split.
  - intros k2 l2 H2 Hother.
    apply (assertion_fails self k1 k2 [x] l2 Hwf H1 H2). simpl. lia.
  - intros Hone.
    destruct (@full_list_parameters_common N self parameters 1 Hwf)
      as (full & Efull & Etp & _ & Hsingle & Hlist & _); [eauto | exact Hone |].
    exists full. repeat split; try assumption.
    apply Hlist, H1.
Qed.

Lemma length_one_batch_witness :
  transform_parameters Example.model Example.singleton_and_pair = Err AssertionError /\
  transform_parameters Example.model Example.singleton_and_empty = Err AssertionError /\
  exists full,
    full_list_parameters (single_parameters Example.singleton_and_scalar)
                         (list_parameters Example.singleton_and_scalar) = Ok full /\
    transform_parameters Example.model Example.singleton_and_scalar
    = merge_transformed Example.model full /\
    Dict.get "p1" full = Some (VList [VNum 5]) /\
    Dict.get "p2" full = Some (VList [VStr "a"]) /\
    merge_transformed Example.model full
    = Ok [("p2_a", VList [VNum 1]); ("p2_b", VList [VNum 0]); ("p1", VList [VNum 5])].
Proof.
  assert (Hwf : forall v2, Dict.wf [("p1", VList [VNum 5]); ("p2", v2)]).
  { intros v2. unfold Dict.wf; simpl. repeat constructor; simpl; intuition congruence. }
  split; [|split].
  - destruct (@length_one_batch Example.node Example.model Example.singleton_and_pair
                "p1" (VNum 5) (Hwf _)) as [Hrejected _]; [simpl; auto|].
    apply (Hrejected "p2" [VStr "a"; VStr "b"]); simpl; [auto | lia].
  - destruct (@length_one_batch Example.node Example.model Example.singleton_and_empty
                "p1" (VNum 5) (Hwf _)) as [Hrejected _]; [simpl; auto|].
    apply (Hrejected "p2" []); simpl; [auto | lia].
  - destruct (@length_one_batch Example.node Example.model Example.singleton_and_scalar
                "p1" (VNum 5) (Hwf _)) as [_ Haccepted]; [simpl; auto|].
    destruct Haccepted as (full & Efull & Etp & Hp1 & Hscalars).
    + intros k l [E|[E|[]]]; inversion E; reflexivity.
    + exists full. split; [exact Efull|]. split; [exact Etp|]. split; [exact Hp1|].
      split; [apply Hscalars; simpl; auto|].
      vm_compute in Efull. inversion Efull; subst full. reflexivity.
Defined.

(** C6.  With no batch among the entries, each entry's transform is applied
    to its scalar value and the returned tables are merged in the order of
    the input: the keys of the result are the union of the keys of the
    tables, and a key that several tables hold takes the value of the last
    of them. *)
Theorem transform_parameters_scalar_merge (N : Type) (self : ImpactModel N)
  (parameters : Dict.t value)
  (table : Dict.t (value -> result (Dict.t value))) (tables : list (Dict.t value)) :
  Forall (fun kv => isinstance_list (snd kv) = false) parameters ->
  transformation_table self = Ok table ->
  Forall2 (fun kv t => exists f, Dict.get (fst kv) table = Some f /\ f (snd kv) = Ok t)
          parameters tables ->
  exists r,
    transform_parameters self parameters = Ok r /\
    Dict.wf r /\
    (forall k, In k (Dict.keys r) <-> exists t, In t tables /\ In k (Dict.keys t)) /\
    (forall k, Dict.get k r = Dict.get k (rev (List.concat tables))) /\
    (forall before t after k v,
        tables = (before ++ t :: after)%list -> Dict.wf t -> In (k, v) t ->
        (forall t', In t' after -> ~ In k (Dict.keys t')) ->
        Dict.get k r = Some v).
Proof.
  intros Hscalar Etable Htables.
  assert (Emap : mapM (transform_one self) (Dict.items parameters) = Ok tables).
  { apply mapM_Ok_Forall2. unfold Dict.items.
    eapply Forall2_impl; [|exact Htables]. intros [k v] t (f & Ef & Efv).
    unfold transform_one, Dict.getitem. simpl in *. rewrite Etable. simpl.
    rewrite Ef. exact Efv. }
  exists (Dict.of_items (List.concat tables)).
  assert (Hget : forall k, Dict.get k (Dict.of_items (List.concat tables))
                           = Dict.get k (rev (List.concat tables))).
  { intros k. apply get_of_items. }
  repeat split.
  - rewrite transform_parameters_scalars by exact Hscalar.
    unfold merge_transformed. rewrite Emap. simpl.
    unfold Dict.items. rewrite map_id. reflexivity.
  - apply wf_of_items.
  - intros Hk. apply (keys_of_items (List.concat tables) k) in Hk.
    apply in_map_iff in Hk as ([k' v] & E & Hin). simpl in E; subst k'.
    apply in_concat in Hin as (t & Ht & Hin). exists t; split; [exact Ht|].
    apply in_map_iff. exists (k, v); auto.
  - intros (t & Ht & Hk). apply (keys_of_items (List.concat tables) k).
    apply in_map_iff in Hk as ([k' v] & E & Hin). simpl in E; subst k'.
    apply in_map_iff. exists (k, v); split; [reflexivity|].
    apply in_concat. exists t; auto.
  - exact Hget.
  - intros before t after k v -> Hwft Hin Hafter. rewrite Hget.
    rewrite concat_app. simpl. rewrite !rev_app_distr, <- app_assoc, !get_app.
    assert (Hnone : Dict.get k (rev (List.concat after)) = None).
    { apply get_None_keys. intros Hk. unfold Dict.keys in Hk.
      apply in_map_iff in Hk as ([k' v'] & E & Hin'). simpl in E; subst k'.
      apply in_rev, in_concat in Hin' as (t' & Ht' & Hin').
      apply (Hafter t' Ht'). apply in_map_iff. exists (k, v'); auto. }
    rewrite Hnone. rewrite (@In_get _ (rev t) k v); [reflexivity | apply wf_rev, Hwft |].
    apply in_rev. rewrite rev_involutive. exact Hin.
Qed.

Lemma transform_parameters_scalar_merge_witness :
  exists r,
    transform_parameters Example.model Example.scalars = Ok r /\
    Dict.wf r /\
    (forall k, In k (Dict.keys r) <->
       exists t, In t [[("p1", VNum 5)]; [("p2_a", VNum 1); ("p2_b", VNum 0)]] /\
                 In k (Dict.keys t)) /\
    (forall k, Dict.get k r =
       Dict.get k (rev (List.concat [[("p1", VNum 5)]; [("p2_a", VNum 1); ("p2_b", VNum 0)]]))) /\
    (forall before t after k v,
        [[("p1", VNum 5)]; [("p2_a", VNum 1); ("p2_b", VNum 0)]]
        = (before ++ t :: after)%list -> Dict.wf t -> In (k, v) t ->
        (forall t', In t' after -> ~ In k (Dict.keys t')) ->
        Dict.get k r = Some v).
Proof.
  apply (@transform_parameters_scalar_merge Example.node Example.model Example.scalars
           [("p1", Example.float_transform "p1"); ("p2", Example.enum_transform "p2")]).
  - repeat constructor.
  - reflexivity.
  - repeat constructor; eexists; split; reflexivity.
Defined.

(** ** Runs *)

Lemma mbind_Ok {N A B : Type} (c : M N A) (k : A -> M N B) (a : A) :
  outcome c = Ok a ->
  trace (mbind c k) = (trace c ++ trace (k a))%list /\
  outcome (mbind c k) = outcome (k a).
Proof.
  destruct c as [tr [a'|e]]; simpl; intros E; inversion E; subst.
  destruct (k a) as [tr' r]. simpl. auto.
Qed.

Lemma mbind_Err {N A B : Type} (c : M N A) (k : A -> M N B) (e : exception) :
  outcome c = Err e -> mbind c k = (trace c, Err e).
Proof.
  destruct c as [tr [a'|e']]; simpl; intros E; inversion E; subst. reflexivity.
Qed.

Lemma mbind_lift_Ok {N A B : Type} (a : A) (k : A -> M N B) :
  mbind (lift (Ok a)) k = k a.
Proof. unfold lift, mbind. destruct (k a); reflexivity. Qed.

Lemma mbind_lift_Err {N A B : Type} (e : exception) (k : A -> M N B) :
  mbind (lift (Err e)) k = ([], Err e).
Proof. reflexivity. Qed.

Lemma mbind_outcome_Ok_inv {N A B : Type} (c : M N A) (k : A -> M N B) (b : B) :
  outcome (mbind c k) = Ok b ->
  exists a, outcome c = Ok a /\ outcome (k a) = Ok b.
Proof.
  destruct c as [tr [a|e]]; simpl.
  - destruct (k a) as [tr' r] eqn:Ek. simpl. intros ->. exists a. rewrite Ek. auto.
  - discriminate.
Qed.

Lemma trace_mbind {N A B : Type} (c : M N A) (k : A -> M N B) (P : event N -> Prop) :
  Forall P (trace c) -> (forall a, outcome c = Ok a -> Forall P (trace (k a))) ->
  Forall P (trace (mbind c k)).
Proof.
  destruct c as [tr [a|e]]; simpl; intros Hc Hk; [|exact Hc].
  specialize (Hk a eq_refl). destruct (k a) as [tr' r]. simpl in *.
  apply Forall_app; auto.
Qed.

Lemma trace_lift {N A : Type} (r : result A) (P : event N -> Prop) :
  Forall P (trace (@lift N A r)).
Proof. constructor. Qed.

(** What holds before a loop and is kept by each round holds after it; what
    holds of every call of a round holds of every call of the loop. *)
Lemma for_each_invariant {N A S : Type} (body : S -> A -> M N S)
  (Inv : S -> Prop) (P : event N -> Prop) (l : list A) :
  (forall s a, In a l -> Inv s ->
     Forall P (trace (body s a)) /\
     forall s', outcome (body s a) = Ok s' -> Inv s') ->
  forall s, Inv s ->
    Forall P (trace (for_each body l s)) /\
    forall s', outcome (for_each body l s) = Ok s' -> Inv s'.
Proof.
  induction l as [|a l IH]; intros Hbody s Hs; simpl.
  - split; [constructor|]. intros s' E; inversion E; subst; exact Hs.
  - destruct (Hbody s a (or_introl eq_refl) Hs) as [Htr Hinv].
    assert (Hrest : forall s1, Inv s1 ->
              Forall P (trace (for_each body l s1)) /\
              forall s', outcome (for_each body l s1) = Ok s' -> Inv s').
    { apply IH. intros s1 a1 Hin. apply Hbody. right; exact Hin. }
    split.
    + apply trace_mbind; [exact Htr|]. intros s1 E1. apply Hrest, Hinv, E1.
    + intros s' E. apply mbind_outcome_Ok_inv in E as (s1 & E1 & E2).
      eapply Hrest; [apply Hinv, E1 | exact E2].
Qed.


Lemma mapMM_trace {N A B : Type} (f : A -> M N B) (P : event N -> Prop) (l : list A) :
  (forall a, In a l -> Forall P (trace (f a))) -> Forall P (trace (mapMM f l)).
Proof.
  induction l as [|a l IH]; simpl; intros Hf; [constructor|].
  apply trace_mbind; [apply Hf; left; reflexivity|]. intros b _.
  apply trace_mbind; [apply IH; intros a' Ha'; apply Hf; right; exact Ha'|].
  intros bs _. constructor.
Qed.

(** Every element succeeding, the comprehension makes the calls of its
    elements in order and yields their values. *)
Lemma mapMM_Ok {N A B : Type} (f : A -> M N B) (l : list A) (bs : list B) :
  Forall2 (fun a b => outcome (f a) = Ok b) l bs ->
  mapMM f l = (List.concat (map (fun a => trace (f a)) l), Ok bs).
Proof.
  induction 1 as [|a b l bs Hab _ IH]; simpl; [reflexivity|].
  rewrite IH. destruct (f a) as [tr r]. simpl in *. subst r.
  unfold mbind, ret. simpl. rewrite app_nil_r. reflexivity.
Qed.

Lemma mapM_ext {A B : Type} (f g : A -> result B) (l : list A) :
  (forall a, In a l -> f a = g a) -> mapM f l = mapM g l.
Proof.
  induction l as [|a l IH]; simpl; intros Hfg; [reflexivity|].
  rewrite Hfg by (left; reflexivity). rewrite IH; [reflexivity|].
  intros a' Ha'. apply Hfg. right; exact Ha'.
Qed.





Lemma batch_or_scalars (d : Dict.t value) :
  (exists k l, In (k, VList l) d) \/
  Forall (fun kv => isinstance_list (snd kv) = false) d.
Proof.
  induction d as [|[k v] d [(k' & l & Hin)|IH]].
  - right; constructor.
  - left. exists k', l. right; exact Hin.
  - destruct v as [x|s|l].
    + right; constructor; [reflexivity | exact IH].
    + right; constructor; [reflexivity | exact IH].
    + left. exists k, l. left; reflexivity.
Qed.

Section ModelFacts.
Variable N : Type.
Implicit Types (self : ImpactModel N) (d : Dict.t value).

(** [transform_parameters] reads the model through its table only. *)
Lemma transform_parameters_ext self self' d :
  transformation_table self = transformation_table self' ->
  transform_parameters self d = transform_parameters self' d.
Proof.
  intros Et.
  assert (Hm : forall d', merge_transformed self d' = merge_transformed self' d').
  { intros d'. unfold merge_transformed.
    rewrite (@mapM_ext _ _ (transform_one self) (transform_one self')); [reflexivity|].
    intros kv _. unfold transform_one. rewrite Et. reflexivity. }
  unfold transform_parameters. rewrite Hm.
  destruct (Nat.eqb (List.length (list_parameters d)) 0); [reflexivity|].
  destruct (mapM len (Dict.values (list_parameters d))) as [ns|e]; simpl; [|reflexivity].
  destruct (py_min ns) as [a|e]; simpl; [|reflexivity].
  destruct (py_max ns) as [b|e]; simpl; [|reflexivity].
  destruct (Nat.eqb a b); [|reflexivity].
  destruct (full_list_parameters (single_parameters d) (list_parameters d)); simpl;
    [apply Hm | reflexivity].
Qed.

Lemma merge_transformed_unregistered self d k :
  In k (Dict.keys d) ->
  (forall table, transformation_table self = Ok table -> Dict.get k table = None) ->
  exists e, merge_transformed self d = Err e.
Proof.
  intros Hk Hnone. unfold Dict.keys in Hk. apply in_map_iff in Hk as ([k' v] & E & Hin).
  simpl in E; subst k'.
  destruct (@mapM_Err_In _ _ (transform_one self) (Dict.items d)) as (e & Ee).
  - exists (k, v); split; [exact Hin|]. unfold transform_one, Dict.getitem. simpl.
    destruct (transformation_table self) as [table|e]; simpl; [|reflexivity].
    rewrite (Hnone table eq_refl). reflexivity.
  - exists e. unfold merge_transformed. rewrite Ee. reflexivity.
Qed.

(** A key without a registered transform makes the transformation fail, in
    either branch. *)
Lemma transform_parameters_unregistered self d k :
  Dict.wf d -> In k (Dict.keys d) ->
  (forall table, transformation_table self = Ok table -> Dict.get k table = None) ->
  exists e, transform_parameters self d = Err e.
Proof.
  intros Hwf Hk Hnone. destruct (batch_or_scalars d) as [(k0 & l0 & Hin0)|Hsc].
  - destruct (transform_parameters_batched self k0 l0 Hwf Hin0)
      as (ns & shortest & longest & _ & Emin & Emax & Hall & _ & Etp).
    destruct (Nat.eqb shortest longest) eqn:Eq; [|eauto].
    apply Nat.eqb_eq in Eq.
    assert (Hcommon : forall k' l, In (k', VList l) d -> List.length l = shortest).
    { intros k' l Hin.
      pose proof (@py_min_lower _ _ _ Emin (Hall _ _ Hin)).
      pose proof (@py_max_upper _ _ _ Emax (Hall _ _ Hin)). lia. }
    destruct (@full_list_parameters_common N self d shortest Hwf)
      as (full & _ & Etp' & _ & _ & _ & Hkeys & _); [eauto | exact Hcommon |].
    rewrite Etp'. apply merge_transformed_unregistered with (k := k); [|exact Hnone].
    apply Hkeys, Hk.
  - rewrite transform_parameters_scalars by exact Hsc.
    apply merge_transformed_unregistered with (k := k); assumption.
Qed.

End ModelFacts.

(** ** Defaults *)

Section DefaultFacts.
Variable ps : ImpactModelParams.t.
Implicit Types (params : Dict.t value) (k : string).








End DefaultFacts.

(** ** The order of the keyword arguments *)




(** ** The claims about [get_scores] and [get_nodes_scores] *)

Section ScoreClaims.
Context {N : Type} {tree_api : ImpactTreeNode.api N}.
Variable combine_by_property :
  list NodeScores.t -> value -> result (list NodeScores.t).

(** With parameters declared, a run of [get_scores] is the transformation of
    the merged mapping followed by the root's [compute]. *)
Lemma get_scores_unfold (self : ImpactModel N) (ps : ImpactModelParams.t)
  (params : Dict.t value) :
  parameters self = Some ps ->
  get_scores self params =
  (transformed_params <~ lift (transform_parameters self (merged_parameters ps params)) ;;
   root <~ self_tree self ;;
   call_compute root transformed_params None).
Proof.
  intros Eps. unfold get_scores, self_parameters. rewrite Eps.
  exact (@mbind_lift_Ok N _ _ ps _).
Qed.

Lemma get_nodes_scores_unfold (self : ImpactModel N) (ps : ImpactModelParams.t)
  (by_property : option value) (params : Dict.t value) :
  parameters self = Some ps ->
  get_nodes_scores combine_by_property self by_property params =
  (transformed_params <~ lift (transform_parameters self (merged_parameters ps params)) ;;
   root <~ self_tree self ;;
   scores <~ mapMM (node_scores transformed_params by_property)
                   (ImpactTreeNode.unnested_descendants root) ;;
   match by_property with
   | Some property => lift (combine_by_property scores property)
   | None => ret scores
   end).
Proof.
  intros Eps. unfold get_nodes_scores, self_parameters. rewrite Eps.
  exact (@mbind_lift_Ok N _ _ ps _).
Qed.



(** C9.  A key of the merged mapping that no declared parameter is named
    after: the transformation raises, and [get_scores] and
    [get_nodes_scores] end with that exception without a single call of a
    node's [compute]. *)
Theorem unknown_parameter_name_fails (self : ImpactModel N)
  (ps : ImpactModelParams.t) (by_property : option value)
  (params : Dict.t value) (k : string) :
  parameters self = Some ps ->
  Dict.wf params ->
  In k (Dict.keys (merged_parameters ps params)) ->
  ~ In k (map ImpactModelParam.name (ImpactModelParams.parameters ps)) ->
  exists e,
    transform_parameters self (merged_parameters ps params) = Err e /\
    get_scores self params = ([], Err e) /\
    get_nodes_scores combine_by_property self by_property params = ([], Err e).
Proof.
  intros Eps Hwf Hk Hunknown.
  destruct (@transform_parameters_unregistered N self (merged_parameters ps params) k)
    as (e & Ee).
  - apply wf_update, Hwf.
  - exact Hk.
  - intros table Et. unfold transformation_table in Et. rewrite Eps in Et.
    inversion Et; subst table. apply get_None_keys. intros Hin.
    apply (proj1 (keys_of_items _ k)) in Hin. apply in_map_iff in Hin as ([k' f] & E & Hin).
    apply in_map_iff in Hin as (p & E' & Hp). inversion E'; subst k' f; clear E'.
    simpl in E; subst k. apply Hunknown, in_map, Hp.
  - exists e. split; [exact Ee|]. split.
    + rewrite (get_scores_unfold self params Eps), Ee. reflexivity.
    + rewrite (get_nodes_scores_unfold self by_property params Eps), Ee. reflexivity.
Qed.

End ScoreClaims.


(** C3, as the spec states it, fails when two transforms write the same
    key: the value kept is that of the argument passed last.  Every declared
    parameter supplied with its own default, [p2_a] before [p2], scores 1
    where the call without argument scores 7. *)
Lemma get_scores_keyword_order :
  Permutation Collision.supplied
    (map (fun p => (ImpactModelParam.name p, ImpactModelParam.default p))
         (ImpactModelParams.parameters Collision.params)) /\
  ImpactModelParams.get_missing_parameter_names Collision.params Collision.supplied = [] /\
  outcome (get_scores Collision.model Collision.supplied)
  = Ok {| LCIAScores.scores := [("GWP", VNum 1)] |} /\
  outcome (get_scores Collision.model [])
  = Ok {| LCIAScores.scores := [("GWP", VNum 7)] |} /\
  outcome (get_scores Collision.model Collision.supplied)
  <> outcome (get_scores Collision.model []).
Proof.
  split; [apply perm_swap|]. split; [reflexivity|].
  split; [reflexivity|]. split; [reflexivity|].
  intros E.
  apply (f_equal (fun r => match r with
                           | Ok {| LCIAScores.scores := [(_, VNum x)] |} =>
                               PrimFloat.ltb x 3
                           | _ => false
                           end)) in E.
  vm_compute in E. discriminate E.
Qed.

Lemma unknown_parameter_name_fails_witness :
  exists e,
    transform_parameters Example.model
      (merged_parameters Example.params [("p1", VNum 1); ("zz", VNum 2)]) = Err e /\
    get_scores Example.model [("p1", VNum 1); ("zz", VNum 2)] = ([], Err e) /\
    get_nodes_scores Example.combine Example.model (Some (VStr "phase"))
      [("p1", VNum 1); ("zz", VNum 2)] = ([], Err e).
Proof.
  apply (@unknown_parameter_name_fails Example.node Example.tree_api Example.combine
           Example.model Example.params (Some (VStr "phase"))
           [("p1", VNum 1); ("zz", VNum 2)] "zz").
  - reflexivity.
  - unfold Dict.wf; simpl. repeat constructor; simpl; intuition congruence.
  - cbn. auto.
  - simpl. intuition congruence.
Defined.

Section NodeClaims.
Context {N : Type} {tree_api : ImpactTreeNode.api N}.
Variable combine_by_property :
  list NodeScores.t -> value -> result (list NodeScores.t).

Lemma node_scores_trace (transformed : Dict.t value) (by_property : option value)
  (node : N) :
  trace (node_scores transformed by_property node)
  = [EvCompute node transformed (Some (is_not_None by_property))].
Proof.
  unfold node_scores, call_compute, mbind.
  destruct (ImpactTreeNode.compute node transformed (Some (is_not_None by_property)));
    reflexivity.
Qed.

Lemma node_scores_outcome (transformed : Dict.t value) (by_property : option value)
  (node : N) (r : NodeScores.t) :
  outcome (node_scores transformed by_property node) = Ok r <->
  record_of transformed by_property node r.
Proof.
  unfold node_scores, call_compute, mbind, record_of.
  destruct (ImpactTreeNode.compute node transformed (Some (is_not_None by_property)))
    as [sc|e]; simpl.
  - split.
    + intros E; inversion E; subst; simpl. auto.
    + intros (E1 & E2 & E3 & E4). destruct r as [nm pr pa sc']; simpl in *.
      inversion E4; subst. reflexivity.
  - split; [discriminate|]. intros (_ & _ & _ & E); discriminate.
Qed.

Lemma records_exist (transformed : Dict.t value) (by_property : option value)
  (nodes : list N) :
  Forall (fun node =>
            is_ok (ImpactTreeNode.compute node transformed
                     (Some (is_not_None by_property))) = true) nodes ->
  exists records, Forall2 (record_of transformed by_property) nodes records.
Proof.
  induction 1 as [|node nodes Hok _ (records & IH)]; [exists []; constructor|].
  destruct (ImpactTreeNode.compute node transformed (Some (is_not_None by_property)))
    as [sc|e] eqn:Ec; [|discriminate].
  exists ({| NodeScores.name := ImpactTreeNode.name node;
             NodeScores.properties := ImpactTreeNode.properties node;
             NodeScores.parent :=
               match ImpactTreeNode.parent node with
               | Some p => ImpactTreeNode.name p
               | None => ""
               end;
             NodeScores.lcia_scores := sc |} :: records).
  constructor; [|exact IH]. unfold record_of. simpl. auto.
Qed.

(** C7.  The parameters transformed and every node's [compute] returning,
    [get_nodes_scores] calls [compute] once per node of
    [unnested_descendants], in order, each time with
    [direct_impacts = (by_property is not None)], and builds one record per
    node, carrying the node's name and properties, its parent's name or the
    empty string, and the scores of that call; the records are returned as
    they are without [by_property] and handed to [combine_by_property] with
    it. *)
Theorem get_nodes_scores_per_node (self : ImpactModel N)
  (ps : ImpactModelParams.t) (root : N) (by_property : option value)
  (params transformed : Dict.t value) :
  parameters self = Some ps ->
  tree self = Some root ->
  transform_parameters self (merged_parameters ps params) = Ok transformed ->
  Forall (fun node =>
            is_ok (ImpactTreeNode.compute node transformed
                     (Some (is_not_None by_property))) = true)
         (ImpactTreeNode.unnested_descendants root) ->
  exists records,
    Forall2 (record_of transformed by_property)
            (ImpactTreeNode.unnested_descendants root) records /\
    List.length records = List.length (ImpactTreeNode.unnested_descendants root) /\
    trace (get_nodes_scores combine_by_property self by_property params)
    = map (fun node => EvCompute node transformed (Some (is_not_None by_property)))
          (ImpactTreeNode.unnested_descendants root) /\
    outcome (get_nodes_scores combine_by_property self by_property params)
    = match by_property with
      | Some property => combine_by_property records property
      | None => Ok records
      end /\
    (is_not_None by_property = true <-> by_property <> None).
Proof.
  intros Eps Etree Etr Hok.
  destruct (records_exist transformed by_property Hok) as (records & Hrec).
  exists records. split; [exact Hrec|].
  split; [symmetry; eapply Forall2_length, Hrec|].
  assert (Hrun : mapMM (node_scores transformed by_property)
                       (ImpactTreeNode.unnested_descendants root)
                 = (map (fun node => EvCompute node transformed
                                       (Some (is_not_None by_property)))
                        (ImpactTreeNode.unnested_descendants root), Ok records)).
  { rewrite (@mapMM_Ok N _ _ (node_scores transformed by_property) _ records).
    - f_equal. clear. induction (ImpactTreeNode.unnested_descendants root) as [|a l IH];
        simpl; [reflexivity|]. rewrite node_scores_trace, IH. reflexivity.
    - eapply Forall2_impl; [|exact Hrec]. intros node r Hr.
      apply node_scores_outcome, Hr. }
  rewrite (get_nodes_scores_unfold combine_by_property self by_property params Eps).
  rewrite Etr, (@mbind_lift_Ok N). unfold self_tree. rewrite Etree.
  change (@ret N N root) with (@lift N N (Ok root)). rewrite (@mbind_lift_Ok N).
  rewrite Hrun. split; [|split].
  - destruct by_property as [property|]; simpl.
    + destruct (combine_by_property records property); simpl; apply app_nil_r.
    + apply app_nil_r.
  - destruct by_property as [property|]; simpl.
    + destruct (combine_by_property records property); reflexivity.
    + reflexivity.
  - destruct by_property; simpl; split; congruence.
Qed.

End NodeClaims.

Lemma get_nodes_scores_per_node_witness :
  exists records,
    Forall2 (record_of [("p1", VNum 5); ("p2_a", VNum 1); ("p2_b", VNum 0)]
                       (Some (VStr "phase")))
            [Example.Root; Example.ChildA; Example.ChildB] records /\
    List.length records = 3 /\
    trace (get_nodes_scores Example.combine Example.model (Some (VStr "phase"))
             Example.scalars)
    = map (fun node => EvCompute node [("p1", VNum 5); ("p2_a", VNum 1); ("p2_b", VNum 0)]
                                 (Some true))
          [Example.Root; Example.ChildA; Example.ChildB] /\
    outcome (get_nodes_scores Example.combine Example.model (Some (VStr "phase"))
               Example.scalars)
    = Example.combine records (VStr "phase") /\
    (true = true <-> Some (VStr "phase") <> None).
Proof.
  apply (@get_nodes_scores_per_node Example.node Example.tree_api Example.combine
           Example.model Example.params Example.Root (Some (VStr "phase"))
           Example.scalars [("p1", VNum 5); ("p2_a", VNum 1); ("p2_b", VNum 0)]).
  - reflexivity.
  - reflexivity.
  - reflexivity.
  - repeat constructor.
Defined.

(** ** Sobol indices *)

Lemma index_Ok {A : Type} (l : list A) (i : nat) (a : A) :
  index l i = Ok a <-> nth_error l i = Some a.
Proof.
  unfold index. destruct (nth_error l i); split; intros E; inversion E; reflexivity.
Qed.

(** Row [i] of the comprehension pairs the name at position [i] of the
    problem with [s1[i]]. *)
Lemma rows_of_positions (node : result string) (method : string)
  (problem : result SobolProblem) (s1 : list float) (rows : list SobolRow) :
  rows_of node method problem s1 = Ok rows ->
  Forall2 (fun i r =>
             exists pb, problem = Ok pb /\ node = Ok (row_node r) /\
                        row_method r = method /\
                        nth_error (names pb) i = Some (row_parameter r) /\
                        nth_error s1 i = Some (row_sobol_s1 r))
          (seq 0 (List.length s1)) rows.
Proof.
  unfold rows_of. intros E. apply mapM_Ok_Forall2 in E.
  eapply Forall2_impl; [|exact E]. clear E. intros i r E.
  apply bind_Ok_inv in E as (nd & End & E).
  apply bind_Ok_inv in E as (pb & Epb & E).
  apply bind_Ok_inv in E as (parameter & Ep & E).
  apply bind_Ok_inv in E as (x & Ex & E).
  inversion E; subst r; clear E. simpl.
  exists pb. apply index_Ok in Ep. apply index_Ok in Ex. auto.
Qed.

Lemma rows_of_total (nd method : string) (pb : SobolProblem) (s1 : list float) :
  List.length s1 <= List.length (names pb) ->
  exists rows, rows_of (Ok nd) method (Ok pb) s1 = Ok rows /\
               List.length rows = List.length s1.
Proof.
  intros Hlen. unfold rows_of.
  match goal with
  | |- exists rows, mapM ?f ?l = _ /\ _ => destruct (@mapM_total _ _ f l) as (rows & E)
  end.
  - apply Forall_forall. intros i Hi. apply in_seq in Hi. simpl.
    unfold index.
    destruct (nth_error (names pb) i) eqn:E1;
      [|apply nth_error_None in E1; lia].
    destruct (nth_error s1 i) eqn:E2; [reflexivity|apply nth_error_None in E2; lia].
  - exists rows. split; [exact E|]. apply mapM_Ok_Forall2, Forall2_length in E.
    rewrite length_seq in E. symmetry; exact E.
Qed.

Section SobolClaims.
Context {N : Type} {tree_api : ImpactTreeNode.api N}.
Variable combine_by_property :
  list NodeScores.t -> value -> result (list NodeScores.t).
Variable sobol_analyze : SobolProblem -> value -> bool -> result SobolIndices.
Variable self : ImpactModel N.

Lemma call_compute_trace (P : event N -> Prop) (node : N) (params : Dict.t value)
  (direct_impacts : option bool) :
  P (EvCompute node params direct_impacts) ->
  Forall P (trace (call_compute node params direct_impacts)).
Proof. intros HP. repeat constructor. exact HP. Qed.

Lemma self_parameters_trace (P : event N -> Prop) : Forall P (trace (self_parameters self)).
Proof. unfold self_parameters. destruct (parameters self); constructor. Qed.

Lemma self_tree_trace (P : event N -> Prop) : Forall P (trace (self_tree self)).
Proof. unfold self_tree. destruct (tree self); constructor. Qed.

(** Scoring calls nothing but [compute]. *)
Lemma get_scores_trace (P : event N -> Prop) (params : Dict.t value) :
  (forall node tp d, P (EvCompute node tp d)) ->
  Forall P (trace (get_scores self params)).
Proof.
  intros HP. unfold get_scores.
  apply trace_mbind; [apply self_parameters_trace|]. intros ps _.
  apply trace_mbind; [apply trace_lift|]. intros tp _.
  apply trace_mbind; [apply self_tree_trace|]. intros root _.
  apply call_compute_trace, HP.
Qed.

Lemma get_nodes_scores_trace (P : event N -> Prop) (by_property : option value)
  (params : Dict.t value) :
  (forall node tp d, P (EvCompute node tp d)) ->
  Forall P (trace (get_nodes_scores combine_by_property self by_property params)).
Proof.
  intros HP. unfold get_nodes_scores.
  apply trace_mbind; [apply self_parameters_trace|]. intros ps _.
  apply trace_mbind; [apply trace_lift|]. intros tp _.
  apply trace_mbind; [apply self_tree_trace|]. intros root _.
  apply trace_mbind.
  - apply mapMM_trace. intros node _. rewrite node_scores_trace.
    repeat constructor. apply HP.
  - intros scores _. destruct by_property; [apply trace_lift | constructor].
Qed.

Lemma row_from_call_mono (calls calls' : list (event N)) (r : SobolRow) :
  (forall ev, In ev calls -> In ev calls') ->
  row_from_call sobol_analyze self calls r -> row_from_call sobol_analyze self calls' r.
Proof.
  intros Hsub (pb & Y & indices & i & Epb & Hin & Ea & Hs1 & Hname).
  exists pb, Y, indices, i. auto.
Qed.

(** One round of the loop over the methods: one analysis, asked for the
    second-order terms, and the rows of its ["S1"] appended. *)
Lemma analyze_method_round (node : result string) (acc : list SobolRow)
  (item : string * value) :
  Forall second_order_requested
         (trace (analyze_method sobol_analyze self node acc item)) /\
  forall acc', outcome (analyze_method sobol_analyze self node acc item) = Ok acc' ->
    exists rows,
      acc' = (acc ++ rows)%list /\
      Forall (row_from_call sobol_analyze self
                (trace (analyze_method sobol_analyze self node acc item))) rows.
Proof.
  unfold analyze_method. destruct (self_sobol_problem self) as [pb|e] eqn:Epb.
  - rewrite (@mbind_lift_Ok N). unfold call_sobol_analyze, mbind, lift, ret.
    destruct (sobol_analyze pb (snd item) true) as [indices|e] eqn:Ea.
    + destruct (rows_of node (fst item) (Ok pb) (S1 indices)) as [rows|e] eqn:Er; simpl.
      * split; [repeat constructor|]. intros acc' E. inversion E; subst.
        exists rows. split; [reflexivity|].
        apply rows_of_positions in Er. apply Forall_forall. intros r Hr.
        destruct (Forall2_In_r r Er Hr) as (i & _ & pb' & Epb' & _ & _ & Hname & Hs1).
        inversion Epb'; subst pb'. exists pb, (snd item), indices, i.
        repeat split; try assumption. left; reflexivity.
      * split; [repeat constructor | discriminate].
    + simpl. split; [repeat constructor | discriminate].
  - simpl. split; [constructor | discriminate].
Qed.

(** A loop whose rounds append rows read off their own calls. *)
Lemma for_each_rows {A : Type} (body : list SobolRow -> A -> M N (list SobolRow))
  (l : list A) :
  (forall acc a, In a l ->
     Forall second_order_requested (trace (body acc a)) /\
     forall acc', outcome (body acc a) = Ok acc' ->
       exists rows, acc' = (acc ++ rows)%list /\
                    Forall (row_from_call sobol_analyze self (trace (body acc a))) rows) ->
  forall acc,
    Forall second_order_requested (trace (for_each body l acc)) /\
    forall acc', outcome (for_each body l acc) = Ok acc' ->
      exists rows, acc' = (acc ++ rows)%list /\
                   Forall (row_from_call sobol_analyze self (trace (for_each body l acc)))
                          rows.
Proof.
  induction l as [|a l IH]; intros Hbody acc; simpl.
  - split; [constructor|]. intros acc' E. inversion E; subst.
    exists []. split; [symmetry; apply app_nil_r | constructor].
  - destruct (Hbody acc a (or_introl eq_refl)) as [Htr Hrows].
    assert (Hrest : forall acc1,
              Forall second_order_requested (trace (for_each body l acc1)) /\
              forall acc', outcome (for_each body l acc1) = Ok acc' ->
                exists rows, acc' = (acc1 ++ rows)%list /\
                  Forall (row_from_call sobol_analyze self (trace (for_each body l acc1)))
                         rows).
    { apply IH. intros acc1 a1 Hin. apply Hbody. right; exact Hin. }
    split.
    + apply trace_mbind; [exact Htr|]. intros acc1 _. apply Hrest.
    + intros acc' E. apply mbind_outcome_Ok_inv in E as (acc1 & E1 & E2).
      destruct (Hrows acc1 E1) as (rows1 & -> & Hrows1).
      destruct (proj2 (Hrest (acc ++ rows1)%list) acc' E2) as (rows2 & -> & Hrows2).
      exists (rows1 ++ rows2)%list. split; [symmetry; apply app_assoc|].
      rewrite (proj1 (mbind_Ok _ _ E1)). apply Forall_app; split.
      * eapply Forall_impl; [|exact Hrows1]. intros r. apply row_from_call_mono.
        intros ev Hev. apply in_or_app. left; exact Hev.
      * eapply Forall_impl; [|exact Hrows2]. intros r. apply row_from_call_mono.
        intros ev Hev. apply in_or_app. right; exact Hev.
Qed.

Lemma methods_loop_rows (node : result string) (items : list (string * value))
  (acc : list SobolRow) :
  Forall second_order_requested
         (trace (for_each (analyze_method sobol_analyze self node) items acc)) /\
  forall acc',
    outcome (for_each (analyze_method sobol_analyze self node) items acc) = Ok acc' ->
    exists rows,
      acc' = (acc ++ rows)%list /\
      Forall (row_from_call sobol_analyze self
                (trace (for_each (analyze_method sobol_analyze self node) items acc)))
             rows.
Proof.
  apply for_each_rows. intros acc0 item _. apply analyze_method_round.
Qed.

(** What comes before the loops adds calls and no row. *)
Lemma mbind_rows {A : Type} (c : M N A) (k : A -> M N (list SobolRow)) :
  Forall second_order_requested (trace c) ->
  (forall a, outcome c = Ok a ->
     Forall second_order_requested (trace (k a)) /\
     forall rows, outcome (k a) = Ok rows ->
       Forall (row_from_call sobol_analyze self (trace (k a))) rows) ->
  Forall second_order_requested (trace (mbind c k)) /\
  forall rows, outcome (mbind c k) = Ok rows ->
    Forall (row_from_call sobol_analyze self (trace (mbind c k))) rows.
Proof.
  intros Hc Hk. split.
  - apply trace_mbind; [exact Hc|]. intros a Ea. apply (Hk a Ea).
  - intros rows E. apply mbind_outcome_Ok_inv in E as (a & Ea & E).
    rewrite (proj1 (mbind_Ok _ _ Ea)).
    eapply Forall_impl; [|apply (proj2 (Hk a Ea) rows E)].
    intros r. apply row_from_call_mono. intros ev Hev. apply in_or_app. right; exact Hev.
Qed.

(** Whatever the run: each analysis it calls is asked for the second-order
    terms, and each row it returns is read off one of these calls. *)
Lemma sobol_calls_and_rows (n : Z) (all_nodes : bool) :
  Forall second_order_requested
         (trace (get_sobol_s1_indices combine_by_property sobol_analyze self n all_nodes)) /\
  forall rows,
    outcome (get_sobol_s1_indices combine_by_property sobol_analyze self n all_nodes)
    = Ok rows ->
    Forall (row_from_call sobol_analyze self
              (trace (get_sobol_s1_indices combine_by_property sobol_analyze self
                        n all_nodes)))
           rows.
Proof.
  assert (Hcompute : forall (node : N) (tp : Dict.t value) (d : option bool),
             second_order_requested (EvCompute node tp d)) by (intros; exact I).
  assert (Hloop : forall {A : Type} (body : list SobolRow -> A -> M N (list SobolRow))
                         (l : list A),
             (forall acc a, In a l ->
                Forall second_order_requested (trace (body acc a)) /\
                forall acc', outcome (body acc a) = Ok acc' ->
                  exists rows, acc' = (acc ++ rows)%list /\
                    Forall (row_from_call sobol_analyze self (trace (body acc a))) rows) ->
             Forall second_order_requested (trace (for_each body l [])) /\
             forall rows, outcome (for_each body l []) = Ok rows ->
               Forall (row_from_call sobol_analyze self (trace (for_each body l []))) rows).
  { intros A body l Hbody. destruct (for_each_rows body l Hbody []) as [Htr Hrows].
    split; [exact Htr|]. intros rows E.
    destruct (Hrows rows E) as (rows' & -> & Hrows'). exact Hrows'. }
  unfold get_sobol_s1_indices.
  apply mbind_rows; [apply self_parameters_trace|]. intros ps _.
  apply mbind_rows; [apply trace_lift|]. intros s0 _.
  apply mbind_rows; [apply self_parameters_trace|]. intros ps' _.
  apply mbind_rows; [apply trace_lift|]. intros samples _.
  destruct all_nodes.
  - apply mbind_rows.
    + unfold get_nodes_scores_kwargs. destruct (Dict.mem "self" samples);
        [apply trace_lift | apply get_nodes_scores_trace, Hcompute].
    + intros lcia_scores _. apply Hloop.
      intros acc node_scores _. apply methods_loop_rows.
  - apply mbind_rows.
    + unfold get_scores_kwargs. destruct (Dict.mem "self" samples);
        [apply trace_lift | apply get_scores_trace, Hcompute].
    + intros lcia_scores _. apply Hloop.
      intros acc item _. apply analyze_method_round.
Qed.


(** Scores were returned: the model has a tree. *)
Lemma get_scores_kwargs_tree (samples : Dict.t value) (lcia_scores : LCIAScores.t) :
  outcome (get_scores_kwargs self samples) = Ok lcia_scores ->
  exists root, tree self = Some root.
Proof.
  intros Esc. unfold get_scores_kwargs in Esc.
  destruct (Dict.mem "self" samples); [discriminate|].
  unfold get_scores in Esc.
  apply mbind_outcome_Ok_inv in Esc as (ps0 & _ & Esc).
  apply mbind_outcome_Ok_inv in Esc as (tp & _ & Esc).
  apply mbind_outcome_Ok_inv in Esc as (root & Eroot & _).
  unfold self_tree in Eroot. destruct (tree self) as [root'|]; [eauto | discriminate].
Qed.

Lemma get_sobol_unfold (ps : ImpactModelParams.t) (n : Z) (all_nodes : bool)
  (s0 samples : Dict.t value) :
  parameters self = Some ps ->
  ImpactModelParams.sobol_draw ps n = Ok s0 ->
  ImpactModelParams.draw_to_distrib ps s0 = Ok samples ->
  get_sobol_s1_indices combine_by_property sobol_analyze self n all_nodes =
  if all_nodes then
    lcia_scores <~ get_nodes_scores_kwargs combine_by_property self samples ;;
    for_each
      (fun sobol_s1_indices node_scores =>
         for_each (analyze_method sobol_analyze self (Ok (NodeScores.name node_scores)))
                  (Dict.items (LCIAScores.scores (NodeScores.lcia_scores node_scores)))
                  sobol_s1_indices)
      lcia_scores []
  else
    lcia_scores <~ get_scores_kwargs self samples ;;
    for_each (analyze_method sobol_analyze self (self_tree_name self))
             (Dict.items (LCIAScores.scores lcia_scores)) [].
Proof.
  intros Eps Edraw Edist. unfold get_sobol_s1_indices, self_parameters. rewrite Eps.
  change (@ret N _ ps) with (@lift N _ (Ok ps)).
  rewrite (@mbind_lift_Ok N). rewrite Edraw, (@mbind_lift_Ok N).
  rewrite (@mbind_lift_Ok N). rewrite Edist, (@mbind_lift_Ok N). reflexivity.
Qed.

End SobolClaims.

(** A negative index comes out as the analysis gave it. *)
Lemma sobol_negative_index_reported :
  exists rows r,
    outcome (get_sobol_s1_indices Example.combine Example.analyze Example.model 1 false)
    = Ok rows /\
    In r rows /\ row_parameter r = "p1" /\ row_sobol_s1 r = (-0.5)%float /\
    PrimFloat.ltb (row_sobol_s1 r) 0 = true.
Proof.
  eexists. eexists. split; [reflexivity|]. split; [left; reflexivity|].
  repeat split.
Qed.

(** ** The store *)

Section HeapFacts.
Import Heap.
Local Open Scope heap_scope.

Lemma extends_refl (h : heap) : extends h h.
Proof. exists []. symmetry; apply app_nil_r. Qed.

Lemma extends_trans (h1 h2 h3 : heap) : extends h1 h2 -> extends h2 h3 -> extends h1 h3.
Proof. intros (m1 & ->) (m2 & ->). exists (m1 ++ m2)%list. symmetry; apply app_assoc. Qed.

Lemma extends_nth (h h' : heap) (a : addr) (o : obj) :
  extends h h' -> nth_error h a = Some o -> nth_error h' a = Some o.
Proof.
  intros (more & ->) Ha. rewrite nth_error_app1; [exact Ha|].
  apply nth_error_Some. congruence.
Qed.

Lemma extends_length (h h' : heap) : extends h h' -> List.length h <= List.length h'.
Proof. intros (more & ->). rewrite length_app. lia. Qed.

Lemma preserving_ret {A : Type} (a : A) : preserving (Heap.ret a).
Proof. intros h. apply extends_refl. Qed.

Lemma preserving_raise {A : Type} (e : exception) : preserving (@raise A e).
Proof. intros h. apply extends_refl. Qed.

Lemma preserving_lift {A : Type} (r : result A) : preserving (Heap.lift r).
Proof. intros h. apply extends_refl. Qed.

Lemma preserving_read (a : addr) : preserving (read a).
Proof. intros h. unfold read. destruct (nth_error h a); apply extends_refl. Qed.

Lemma preserving_alloc (o : obj) : preserving (alloc o).
Proof. intros h. exists [o]. reflexivity. Qed.

Lemma preserving_bind {A B : Type} (c : St A) (k : A -> St B) :
  preserving c -> (forall a, preserving (k a)) -> preserving (Heap.bind c k).
Proof.
  intros Hc Hk h. unfold Heap.bind. specialize (Hc h).
  destruct (c h) as [[a|e] h1]; simpl in *; [|exact Hc].
  eapply extends_trans; [exact Hc | apply Hk].
Qed.

Lemma preserving_mapM {A B : Type} (f : A -> St B) (l : list A) :
  (forall a, preserving (f a)) -> preserving (Heap.mapM f l).
Proof.
  intros Hf. induction l as [|a l IH]; simpl; [apply preserving_ret|].
  apply preserving_bind; [apply Hf|]. intros b.
  apply preserving_bind; [exact IH|]. intros bs. apply preserving_ret.
Qed.

Lemma preserving_filterM {A : Type} (f : A -> St bool) (l : list A) :
  (forall a, preserving (f a)) -> preserving (filterM f l).
Proof.
  intros Hf. induction l as [|a l IH]; simpl; [apply preserving_ret|].
  apply preserving_bind; [apply Hf|]. intros b.
  apply preserving_bind; [exact IH|]. intros bs. apply preserving_ret.
Qed.

Lemma preserving_read_dict (v : pyval) : preserving (read_dict v).
Proof.
  destruct v; simpl; try apply preserving_raise.
  apply preserving_bind; [apply preserving_read|].
  intros [l|d|nm df|l|md pr tr|w]; try apply preserving_raise. apply preserving_ret.
Qed.

Lemma preserving_isinstance_list (v : pyval) : preserving (Heap.isinstance_list v).
Proof.
  destruct v; simpl; try apply preserving_ret.
  apply preserving_bind; [apply preserving_read|]. intros o. apply preserving_ret.
Qed.

Lemma preserving_len (v : pyval) : preserving (Heap.len v).
Proof.
  destruct v; simpl; try apply preserving_raise; try apply preserving_ret.
  apply preserving_bind; [apply preserving_read|].
  intros [l|d|nm df|l|md pr tr|w]; try apply preserving_raise; apply preserving_ret.
Qed.

Lemma returns_new_dict_raise (e : exception) : returns_new_dict (raise e).
Proof. intros h v h' E. discriminate. Qed.

Lemma returns_new_dict_bind {A : Type} (c : St A) (k : A -> St pyval) :
  preserving c -> (forall a, returns_new_dict (k a)) ->
  returns_new_dict (Heap.bind c k).
Proof.
  intros Hc Hk h v h' E. unfold Heap.bind in E. specialize (Hc h).
  destruct (c h) as [[a|e] h1]; simpl in *; [|discriminate].
  destruct (Hk a h1 v h' E) as (r & d & -> & Hr & Hd).
  exists r, d. repeat split; [|exact Hd]. apply extends_length in Hc. lia.
Qed.

Lemma returns_new_dict_alloc (d : Dict.t pyval) :
  returns_new_dict (merged <-- alloc (ODict d) ;; Heap.ret (PRef merged)).
Proof.
  intros h v h' E. unfold Heap.bind, alloc, Heap.ret in E. inversion E; subst.
  exists (List.length h), d. repeat split; [lia|].
  rewrite nth_error_app2, Nat.sub_diag; [reflexivity | lia].
Qed.

Variable transform_method : addr -> pyval -> St pyval.
Hypothesis transform_pure : forall param v, preserving (transform_method param v).

Lemma preserving_transformation_table (self : addr) :
  preserving (Heap.transformation_table self).
Proof.
  unfold Heap.transformation_table.
  apply preserving_bind; [apply preserving_read|].
  intros [l|d|nm df|l|md pr tr|w]; try apply preserving_raise.
  destruct pr; try apply preserving_raise.
  apply preserving_bind; [apply preserving_read|].
  intros [l|d|nm df|l|md' pr' tr'|w]; try apply preserving_raise.
  apply preserving_bind.
  - apply preserving_mapM. intros p. apply preserving_bind; [apply preserving_read|].
    intros [l'|d|nm df|l'|md' pr' tr'|w]; try apply preserving_raise. apply preserving_ret.
  - intros pairs. apply preserving_bind; [apply preserving_alloc|].
    intros table. apply preserving_ret.
Qed.

Lemma preserving_transform_one (self : addr) (kv : string * pyval) :
  preserving (Heap.transform_one transform_method self kv).
Proof.
  unfold Heap.transform_one.
  apply preserving_bind; [apply preserving_transformation_table|]. intros table.
  apply preserving_bind; [apply preserving_read_dict|]. intros entries.
  apply preserving_bind; [apply preserving_lift|]. intros f.
  destruct f; try apply preserving_raise.
  apply preserving_bind; [apply transform_pure|]. intros returned.
  apply preserving_read_dict.
Qed.

Lemma preserving_merge_transformed (self : addr) (d : Dict.t pyval) :
  preserving (Heap.merge_transformed transform_method self d).
Proof.
  unfold Heap.merge_transformed.
  apply preserving_bind; [apply preserving_mapM, preserving_transform_one|].
  intros tables. apply preserving_bind; [apply preserving_alloc|].
  intros merged. apply preserving_ret.
Qed.

Lemma merge_transformed_new_dict (self : addr) (d : Dict.t pyval) :
  returns_new_dict (Heap.merge_transformed transform_method self d).
Proof.
  unfold Heap.merge_transformed.
  apply returns_new_dict_bind; [apply preserving_mapM, preserving_transform_one|].
  intros tables. apply returns_new_dict_alloc.
Qed.

Lemma preserving_first_len (d : Dict.t pyval) : preserving (Heap.first_len d).
Proof.
  unfold Heap.first_len. destruct (Dict.values d); [apply preserving_raise | apply preserving_len].
Qed.

Lemma preserving_negated (kv : string * pyval) :
  preserving (b <-- Heap.isinstance_list (snd kv) ;; Heap.ret (negb b)).
Proof.
  apply preserving_bind; [apply preserving_isinstance_list|]. intros b. apply preserving_ret.
Qed.

Lemma preserving_broadcast (list_params : Dict.t pyval) (kv : string * pyval) :
  preserving (L <-- Heap.first_len list_params ;;
              replicated <-- alloc (OList (repeat (snd kv) L)) ;;
              Heap.ret (fst kv, PRef replicated)).
Proof.
  apply preserving_bind; [apply preserving_first_len|]. intros L.
  apply preserving_bind; [apply preserving_alloc|]. intros a. apply preserving_ret.
Qed.

(** The two properties are proved along the same steps: every step before
    the last keeps the store, the last returns a dict of its own. *)
Ltac step :=
  first
    [ apply preserving_read_dict
    | apply preserving_alloc
    | apply preserving_lift
    | apply preserving_filterM; intros; first [apply preserving_isinstance_list
                                              | apply preserving_negated]
    | apply preserving_mapM; intros; first [apply preserving_len
                                           | apply preserving_broadcast] ].

Lemma preserving_transform_parameters (self : addr) (parameters : pyval) :
  preserving (Heap.transform_parameters transform_method self parameters).
Proof.
  unfold Heap.transform_parameters.
  do 7 (apply preserving_bind; [step|]; intro).
  destruct (Nat.eqb _ 0).
  - apply preserving_bind; [step|]. intro. apply preserving_merge_transformed.
  - do 4 (apply preserving_bind; [step|]; intro).
    destruct (Nat.eqb _ _); [|apply preserving_raise].
    do 6 (apply preserving_bind; [step|]; intro).
    apply preserving_merge_transformed.
Qed.

Lemma transform_parameters_new_dict (self : addr) (parameters : pyval) :
  returns_new_dict (Heap.transform_parameters transform_method self parameters).
Proof.
  unfold Heap.transform_parameters.
  do 7 (apply returns_new_dict_bind; [step|]; intro).
  destruct (Nat.eqb _ 0).
  - apply returns_new_dict_bind; [step|]. intro. apply merge_transformed_new_dict.
  - do 4 (apply returns_new_dict_bind; [step|]; intro).
    destruct (Nat.eqb _ _); [|apply returns_new_dict_raise].
    do 6 (apply returns_new_dict_bind; [step|]; intro).
    apply merge_transformed_new_dict.
Qed.

(** C10.  The transforms changing no object they find, a call of
    [transform_parameters], whether it returns or raises, leaves every
    object of the store as it was: the dict passed in keeps its entries and
    the lists they refer to their elements, and the model keeps its fields.
    What it returns is a reference to a dict allocated during the call. *)
Theorem transform_parameters_frame (self : addr) (parameters : pyval) (h : heap) :
  let run := Heap.transform_parameters transform_method self parameters h in
  (forall a o, nth_error h a = Some o -> nth_error (snd run) a = Some o) /\
  (forall p d, parameters = PRef p -> nth_error h p = Some (ODict d) ->
               nth_error (snd run) p = Some (ODict d)) /\
  (forall metadata params tree,
     nth_error h self = Some (OModel metadata params tree) ->
     nth_error (snd run) self = Some (OModel metadata params tree)) /\
  (forall v, fst run = Ok v ->
     exists a d, v = PRef a /\ List.length h <= a /\
                 nth_error h a = None /\ nth_error (snd run) a = Some (ODict d)).
Proof.
  intros run.
  assert (Hext : extends h (snd run)) by apply preserving_transform_parameters.
  split; [intros a o; apply extends_nth, Hext|].
  split; [intros p d _; apply extends_nth, Hext|].
  split; [intros md pr tr; apply extends_nth, Hext|].
  intros v Ev. destruct run as [r h'] eqn:Erun. simpl in *. subst r.
  destruct (transform_parameters_new_dict self parameters h Erun) as (a & d & -> & Ha & Hd).
  exists a, d. repeat split; try assumption. apply nth_error_None. exact Ha.
Qed.

End HeapFacts.

Lemma example_transform_pure (param : Heap.addr) (v : Heap.pyval) :
  Heap.preserving (Heap.example_transform param v).
Proof.
  unfold Heap.example_transform.
  apply preserving_bind; [apply preserving_read|].
  intros [l|d|nm df|l|md pr tr|w]; try apply preserving_raise.
  apply preserving_bind; [apply preserving_alloc|]. intros a. apply preserving_ret.
Qed.

Lemma transform_parameters_frame_witness :
  let run := Heap.transform_parameters Heap.example_transform 0 (Heap.PRef 5)
               Heap.example_heap in
  (forall a o, nth_error Heap.example_heap a = Some o -> nth_error (snd run) a = Some o) /\
  (forall p d, Heap.PRef 5 = Heap.PRef p ->
               nth_error Heap.example_heap p = Some (Heap.ODict d) ->
               nth_error (snd run) p = Some (Heap.ODict d)) /\
  (forall metadata params tree,
     nth_error Heap.example_heap 0 = Some (Heap.OModel metadata params tree) ->
     nth_error (snd run) 0 = Some (Heap.OModel metadata params tree)) /\
  (forall v, fst run = Ok v ->
     exists a d, v = Heap.PRef a /\ List.length Heap.example_heap <= a /\
                 nth_error Heap.example_heap a = None /\
                 nth_error (snd run) a = Some (Heap.ODict d)).
Proof.
  exact (@transform_parameters_frame Heap.example_transform example_transform_pure
           0 (Heap.PRef 5) Heap.example_heap).
Defined.

(** The run of the example returns, and what it returns is read back as
    the transformed mapping, the scalar having been replicated. *)
Lemma example_heap_run :
  exists h',
    Heap.transform_parameters Heap.example_transform 0 (Heap.PRef 5) Heap.example_heap
    = (Ok (Heap.PRef 15), h') /\
    nth_error h' 15 = Some (Heap.ODict [("p1", Heap.PRef 8); ("p2", Heap.PRef 4)]) /\
    nth_error h' 8 = Some (Heap.OList [Heap.PNum 5; Heap.PNum 5]) /\
    nth_error h' 5 = nth_error Heap.example_heap 5.
Proof.
  eexists. split; [reflexivity|]. repeat split.
Qed.

(** The two readings agree on the example: the dict returned in the store,
    read back, is the mapping the first model computes from the input read
    back. *)
Lemma example_readings_agree :
  let run := Heap.transform_parameters Heap.example_transform 0 (Heap.PRef 5)
               Heap.example_heap in
  exists v input,
    fst run = Ok v /\
    Heap.read_back_dict Heap.example_heap (Heap.PRef 5) = Some input /\
    option_map Ok (Heap.read_back_dict (snd run) v)
    = Some (transform_parameters Heap.example_model input).
Proof.
  eexists. eexists. split; [reflexivity|]. split; reflexivity.
Qed.

(** The hypothesis of C10 is needed: a transform that empties the list it
    receives empties the caller's list, since the batches are handed to
    the transforms as the objects the caller passed. *)
Lemma impure_transform_changes_input :
  let run := Heap.transform_parameters Heap.clearing_transform 0 (Heap.PRef 5)
               Heap.example_heap in
  nth_error Heap.example_heap 4 = Some (Heap.OList [Heap.PStr "a"; Heap.PStr "b"]) /\
  nth_error (snd run) 4 = Some (Heap.OList []).
Proof. split; reflexivity. Qed.

(** ** The two readings of [transform_parameters] *)

Section Simulation.

Lemma simulates_bind {A A' B B' : Type} (h : Heap.heap) (c : Heap.St A) (r : result A')
  (k : A -> Heap.St B) (k' : A' -> result B')
  (Q : Heap.heap -> A -> A' -> Prop) (Q' : Heap.heap -> B -> B' -> Prop) :
  Heap.simulates h c r Q ->
  (forall h1 a a', Heap.extends h h1 -> Q h1 a a' -> Heap.simulates h1 (k a) (k' a') Q') ->
  Heap.simulates h (Heap.bind c k) (bind r k') Q'.
Proof.
  intros [Hext Hc] Hk. unfold Heap.simulates, Heap.bind in *.
  destruct (c h) as [ra h1]. simpl in *. destruct r as [a'|e]; simpl.
  - destruct Hc as (a & -> & HQ). destruct (Hk h1 a a' Hext HQ) as [Hext' Hk'].
    split; [eapply extends_trans; eassumption | exact Hk'].
  - subst ra. simpl. auto.
Qed.

(** A step of the store model that the first model does not make. *)
Lemma simulates_step {A B B' : Type} (h : Heap.heap) (c : Heap.St A) (a : A) (h1 : Heap.heap)
  (k : A -> Heap.St B) (r : result B') (Q' : Heap.heap -> B -> B' -> Prop) :
  c h = (Ok a, h1) -> Heap.extends h h1 ->
  Heap.simulates h1 (k a) r Q' ->
  Heap.simulates h (Heap.bind c k) r Q'.
Proof.
  intros Ec Hext [Hext' Hk]. unfold Heap.simulates, Heap.bind in *. rewrite Ec.
  split; [eapply extends_trans; eassumption | exact Hk].
Qed.

Lemma simulates_ret {B B' : Type} (h : Heap.heap) (b : B) (b' : B')
  (Q : Heap.heap -> B -> B' -> Prop) :
  Q h b b' -> Heap.simulates h (Heap.ret b) (Ok b') Q.
Proof. intros HQ. split; [apply extends_refl|]. exists b. auto. Qed.

Lemma simulates_run {B B' : Type} (h : Heap.heap) (c : Heap.St B) (b : B) (b' : B')
  (Q : Heap.heap -> B -> B' -> Prop) :
  c h = (Ok b, h) -> Q h b b' -> Heap.simulates h c (Ok b') Q.
Proof.
  intros E HQ. unfold Heap.simulates. rewrite E. simpl.
  split; [apply extends_refl | eauto].
Qed.

Lemma simulates_raise {B B' : Type} (h : Heap.heap) (e : exception)
  (Q : Heap.heap -> B -> B' -> Prop) :
  Heap.simulates h (Heap.raise e) (Err e) Q.
Proof. split; [apply extends_refl | reflexivity]. Qed.

(** A comprehension: element by element, in a store that grows. *)
Lemma simulates_mapM {A A' B B' : Type} (f : A -> Heap.St B) (g : A' -> result B')
  (R : Heap.heap -> A -> A' -> Prop) (Q : Heap.heap -> B -> B' -> Prop) :
  (forall h h' a a', Heap.extends h h' -> R h a a' -> R h' a a') ->
  (forall h h' b b', Heap.extends h h' -> Q h b b' -> Q h' b b') ->
  forall l l' h,
    (forall h1 a a', Heap.extends h h1 -> In a l -> R h1 a a' -> Heap.simulates h1 (f a) (g a') Q) ->
    Forall2 (R h) l l' ->
    Heap.simulates h (Heap.mapM f l) (mapM g l') (fun h1 => Forall2 (Q h1)).
Proof.
  intros HR HQ l. induction l as [|a l IH]; intros l' h Hf Hl; inversion Hl; subst.
  - apply simulates_ret. constructor.
  - simpl. eapply simulates_bind.
    + apply Hf; [apply extends_refl | left; reflexivity | assumption].
    + intros h1 b b' Hext Hb. eapply simulates_bind.
      * apply IH.
        -- intros h2 a0 a0' Hext2 Hin. apply Hf; [|right; exact Hin].
           eapply extends_trans; eassumption.
        -- eapply Forall2_impl; [|eassumption]. intros x x'. apply HR, Hext.
      * intros h2 bs bs' Hext2 Hbs. apply simulates_ret.
        constructor; [eapply HQ; eassumption | exact Hbs].
Qed.

Lemma read_back_value_extends (h h' : Heap.heap) (v : Heap.pyval) (v' : value) :
  Heap.extends h h' -> Heap.read_back_value h v = Some v' -> Heap.read_back_value h' v = Some v'.
Proof.
  intros Hext. destruct v; simpl; auto.
  destruct (nth_error h a) as [o|] eqn:E; [|discriminate].
  rewrite (extends_nth _ Hext E). auto.
Qed.

Lemma related_extends (h h' : Heap.heap) (entries : Dict.t Heap.pyval) (d : Dict.t value) :
  Heap.extends h h' -> Heap.related h entries d -> Heap.related h' entries d.
Proof.
  intros Hext Hrel. eapply Forall2_impl; [|exact Hrel].
  intros kv kv' [E1 E2]. split; [exact E1|]. eapply read_back_value_extends; eassumption.
Qed.

Section EntriesRel.
Variables V V' : Type.
Variable R : V -> V' -> Prop.

Lemma entries_rel_set (entries : Dict.t V) (d : Dict.t V') (k : string) (v : V) (v' : V') :
  Heap.entries_rel R entries d -> R v v' ->
  Heap.entries_rel R (Dict.set k v entries) (Dict.set k v' d).
Proof.
  intros Hrel Hv. induction Hrel as [|[k1 v1] [k1' v1'] es d' [E1 E2] Hrest IH]; simpl.
  - repeat constructor; assumption.
  - simpl in E1. subst k1'. destruct (String.eqb k k1).
    + constructor; [split; [reflexivity | exact Hv] | exact Hrest].
    + constructor; [split; [reflexivity | exact E2] | exact IH].
Qed.

Lemma entries_rel_update (e1 e2 : Dict.t V) (d1 d2 : Dict.t V') :
  Heap.entries_rel R e1 d1 -> Heap.entries_rel R e2 d2 ->
  Heap.entries_rel R (Dict.update e1 e2) (Dict.update d1 d2).
Proof.
  intros H1 H2. revert e1 d1 H1. unfold Dict.update.
  induction H2 as [|[k v] [k' v'] e2 d2 [E1 E2] _ IH]; intros e1 d1 H1; simpl.
  - exact H1.
  - simpl in E1, E2. subst k'. apply IH. apply entries_rel_set; assumption.
Qed.

Lemma entries_rel_of_items (e : Dict.t V) (d : Dict.t V') :
  Heap.entries_rel R e d -> Heap.entries_rel R (Dict.of_items e) (Dict.of_items d).
Proof. intros H. apply entries_rel_update; [constructor | exact H]. Qed.

Lemma entries_rel_concat (tables : list (Dict.t V)) (tables' : list (Dict.t V')) :
  Forall2 (Heap.entries_rel R) tables tables' ->
  Heap.entries_rel R (List.concat tables) (List.concat tables').
Proof.
  induction 1 as [|t t' ts ts' Ht _ IH]; simpl; [constructor|].
  apply Forall2_app; assumption.
Qed.

Lemma entries_rel_get (e : Dict.t V) (d : Dict.t V') (k : string) :
  Heap.entries_rel R e d ->
  match Dict.get k d with
  | Some v' => exists v, Dict.get k e = Some v /\ R v v'
  | None => Dict.get k e = None
  end.
Proof.
  induction 1 as [|[k1 v1] [k1' v1'] es d' [E1 E2] _ IH]; simpl; [reflexivity|].
  simpl in E1, E2. subst k1'. destruct (String.eqb k k1); [eauto | exact IH].
Qed.

Lemma entries_rel_filter (f : string * V -> bool) (f' : string * V' -> bool)
  (e : Dict.t V) (d : Dict.t V') :
  (forall kv kv', fst kv = fst kv' -> R (snd kv) (snd kv') -> f kv = f' kv') ->
  Heap.entries_rel R e d -> Heap.entries_rel R (filter f e) (filter f' d).
Proof.
  intros Hf. induction 1 as [|kv kv' es d' [E1 E2] _ IH]; simpl; [constructor|].
  rewrite (Hf kv kv' E1 E2). destruct (f' kv'); [constructor; auto | exact IH].
Qed.

End EntriesRel.

Lemma simulates_readonly {B : Type} (h : Heap.heap) (c : Heap.St B) (r : result B) :
  c h = (r, h) -> Heap.simulates h c r (fun _ b b' => b = b').
Proof.
  intros E. unfold Heap.simulates. rewrite E. simpl. split; [apply extends_refl|].
  destruct r; eauto.
Qed.

Lemma mapM_readonly {A A' B : Type} (f : A -> Heap.St B) (g : A' -> result B)
  (R : A -> A' -> Prop) (l : list A) (l' : list A') (h : Heap.heap) :
  Forall2 R l l' -> (forall a a', R a a' -> f a h = (g a', h)) ->
  Heap.mapM f l h = (mapM g l', h).
Proof.
  intros Hl Hf. induction Hl as [|a a' l l' Ha _ IH]; simpl; [reflexivity|].
  unfold Heap.bind. rewrite (Hf a a' Ha). destruct (g a') as [b|e]; simpl; [|reflexivity].
  fold (Heap.mapM f l). rewrite IH. destruct (mapM g l'); reflexivity.
Qed.

Lemma filterM_readonly {A : Type} (f : A -> Heap.St bool) (g : A -> bool)
  (l : list A) (h : Heap.heap) :
  (forall a, In a l -> f a h = (Ok (g a), h)) ->
  Heap.filterM f l h = (Ok (filter g l), h).
Proof.
  induction l as [|a l IH]; intros Hf; simpl; [reflexivity|].
  unfold Heap.bind. rewrite (Hf a (or_introl eq_refl)).
  fold (Heap.filterM f l). rewrite IH by (intros a' Ha'; apply Hf; right; exact Ha').
  reflexivity.
Qed.

Lemma bind_run {A B : Type} (c : Heap.St A) (k : A -> Heap.St B)
  (h h1 : Heap.heap) (a : A) :
  c h = (Ok a, h1) -> Heap.bind c k h = k a h1.
Proof. intros E. unfold Heap.bind. rewrite E. reflexivity. Qed.

Lemma read_run (h : Heap.heap) (a : Heap.addr) (o : Heap.obj) :
  nth_error h a = Some o -> Heap.read a h = (Ok o, h).
Proof. intros E. unfold Heap.read. rewrite E. reflexivity. Qed.

Lemma mapM_cons_run {A B : Type} (f : A -> Heap.St B) (a : A) (l : list A)
  (b : B) (bs : list B) (h h1 h2 : Heap.heap) :
  f a h = (Ok b, h1) -> Heap.mapM f l h1 = (Ok bs, h2) ->
  Heap.mapM f (a :: l) h = (Ok (b :: bs), h2).
Proof.
  intros Ea El. simpl. unfold Heap.bind at 1. rewrite Ea.
  unfold Heap.bind. rewrite El. reflexivity.
Qed.

Lemma all_some_length {A : Type} (l : list (option A)) (l' : list A) :
  Heap.all_some l = Some l' -> List.length l' = List.length l.
Proof.
  revert l'; induction l as [|[a|] l IH]; simpl; intros l' E; try discriminate.
  - inversion E; reflexivity.
  - destruct (Heap.all_some l) as [r|]; simpl in E; [|discriminate].
    inversion E; subst. simpl. f_equal. apply IH. reflexivity.
Qed.

Lemma all_some_repeat {A : Type} (a : A) (n : nat) :
  Heap.all_some (repeat (Some a) n) = Some (repeat a n).
Proof. induction n as [|n IH]; simpl; [reflexivity|]. rewrite IH. reflexivity. Qed.

(** A stored value that reads back is a float, a string or a reference to a
    list; the two [isinstance] and the two [len] agree on it. *)
Lemma read_back_cases (h : Heap.heap) (v : Heap.pyval) (v' : value) :
  Heap.read_back_value h v = Some v' ->
  (Heap.atom v = Some v' /\ isinstance_list v' = false) \/
  (exists a l l', v = Heap.PRef a /\ nth_error h a = Some (Heap.OList l) /\
                  Heap.all_some (map Heap.atom l) = Some l' /\ v' = VList l').
Proof.
  destruct v as [|x|s|a|a]; simpl; intros E; try discriminate.
  - left. inversion E; auto.
  - left. inversion E; auto.
  - right. destruct (nth_error h a) as [[l|d|nm df|l|md pr tr|w]|] eqn:Hn; try discriminate.
    destruct (Heap.all_some (map Heap.atom l)) as [l'|] eqn:El; [|discriminate].
    inversion E. exists a, l, l'. auto.
Qed.

Lemma isinstance_list_read_back (h : Heap.heap) (v : Heap.pyval) (v' : value) :
  Heap.read_back_value h v = Some v' ->
  Heap.isinstance_list v h = (Ok (isinstance_list v'), h).
Proof.
  intros E. destruct (read_back_cases h v E) as [[Ha Hs]|(a & l & l' & -> & Hn & _ & ->)].
  - rewrite Hs. destruct v; try discriminate; reflexivity.
  - simpl. unfold Heap.bind, Heap.read. rewrite Hn. reflexivity.
Qed.

Lemma len_read_back (h : Heap.heap) (v : Heap.pyval) (v' : value) :
  Heap.read_back_value h v = Some v' -> Heap.len v h = (len v', h).
Proof.
  intros E. destruct (read_back_cases h v E) as [[Ha Hs]|(a & l & l' & -> & Hn & Hl & ->)].
  - destruct v; try discriminate; inversion Ha; reflexivity.
  - simpl. unfold Heap.bind, Heap.read. rewrite Hn. simpl. unfold Heap.ret.
    rewrite (all_some_length _ Hl), length_map. reflexivity.
Qed.

Lemma related_values (h : Heap.heap) (entries : Dict.t Heap.pyval) (d : Dict.t value) :
  Heap.related h entries d ->
  Forall2 (fun v v' => Heap.read_back_value h v = Some v') (Dict.values entries)
          (Dict.values d).
Proof.
  induction 1 as [|kv kv' es d' [_ E] _ IH]; simpl; constructor; assumption.
Qed.

Lemma first_len_read_back (h : Heap.heap) (entries : Dict.t Heap.pyval)
  (d : Dict.t value) :
  Heap.related h entries d -> Heap.first_len entries h = (first_len d, h).
Proof.
  intros Hrel. apply related_values in Hrel. unfold Heap.first_len, first_len.
  destruct Hrel as [|v v' vs vs' E _]; [reflexivity | apply len_read_back, E].
Qed.

Variable N : Type.
Variable m : ImpactModel N.
Variable transform_method : Heap.addr -> Heap.pyval -> Heap.St Heap.pyval.
Variable h0 : Heap.heap.
Variable self : Heap.addr.
Hypothesis stored : Heap.model_stored transform_method h0 self m.

(** A bound method of the stored table and the transform of the table of
    the first model, for the same parameter. *)
Let same_transform (f : Heap.pyval) (f' : value -> result (Dict.t value)) : Prop :=
  exists a p, f = Heap.PBound a /\ f' = ImpactModelParam.transform p /\
              Heap.refines_transform transform_method h0 a p.

Lemma transformation_table_run (h : Heap.heap) :
  Heap.extends h0 h ->
  exists entries table',
    Heap.transformation_table self h
    = (Ok (Heap.PRef (List.length h)), (h ++ [Heap.ODict entries])%list) /\
    transformation_table m = Ok table' /\
    Heap.entries_rel same_transform entries table'.
Proof.
  intros Hext. destruct stored as (md & pa & tr & addrs & ps & Hself & Hpa & Hm & Hps).
  pose (reader := fun a : Heap.addr =>
                    Heap.bind (Heap.read a)
                      (fun p => match p with
                                | Heap.OParam name _ => Heap.ret (name, Heap.PBound a)
                                | _ => Heap.raise AttributeError
                                end)).
  assert (Hread : exists pairs,
            Heap.mapM reader addrs h = (Ok pairs, h) /\
            Heap.entries_rel same_transform pairs
              (map (fun p => (ImpactModelParam.name p, ImpactModelParam.transform p))
                   (ImpactModelParams.parameters ps))).
  { clear Hpa. induction Hps as [|a p addrs' ps' Hap _ IH]; simpl.
    - exists []. split; [reflexivity | constructor].
    - destruct IH as (pairs & Epairs & Hpairs).
      destruct Hap as [(df & Ha) Hsim].
      exists ((ImpactModelParam.name p, Heap.PBound a) :: pairs). split.
      + apply (@mapM_cons_run _ _ reader a addrs' _ pairs h h h); [|exact Epairs].
        unfold reader, Heap.bind, Heap.read. rewrite (extends_nth _ Hext Ha). reflexivity.
      + constructor; [|exact Hpairs]. simpl. split; [reflexivity|].
        exists a, p. split; [reflexivity|]. split; [reflexivity|].
        split; [exists df; exact Ha | exact Hsim]. }
  destruct Hread as (pairs & Epairs & Hpairs).
  exists (Dict.of_items pairs), (Dict.of_items
            (map (fun p => (ImpactModelParam.name p, ImpactModelParam.transform p))
                 (ImpactModelParams.parameters ps))).
  split; [|split].
  - unfold Heap.transformation_table.
    erewrite bind_run by (apply read_run, (extends_nth _ Hext Hself)). cbv beta iota.
    erewrite bind_run by (apply read_run, (extends_nth _ Hext Hpa)). cbv beta iota.
    fold reader. erewrite bind_run by exact Epairs. reflexivity.
  - unfold transformation_table. rewrite Hm. reflexivity.
  - apply entries_rel_of_items, Hpairs.
Qed.

Lemma read_dict_run (h : Heap.heap) (a : Heap.addr) (entries : Dict.t Heap.pyval) :
  nth_error h a = Some (Heap.ODict entries) ->
  Heap.read_dict (Heap.PRef a) h = (Ok entries, h).
Proof. intros E. unfold Heap.read_dict, Heap.bind, Heap.read. rewrite E. reflexivity. Qed.

Lemma nth_error_new (h : Heap.heap) (o : Heap.obj) :
  nth_error (h ++ [o])%list (List.length h) = Some o.
Proof. rewrite nth_error_app2, Nat.sub_diag; [reflexivity | lia]. Qed.

Lemma extends_new (h : Heap.heap) (o : Heap.obj) : Heap.extends h (h ++ [o])%list.
Proof. exists [o]. reflexivity. Qed.

Lemma bind_ret_r {A : Type} (r : result A) : bind r (fun a => Ok a) = r.
Proof. destruct r; reflexivity. Qed.

(** One entry: the same lookup, then the method against the transform. *)
Lemma transform_one_simulates (h : Heap.heap) (kv : string * Heap.pyval)
  (kv' : string * value) :
  Heap.extends h0 h ->
  fst kv = fst kv' -> Heap.read_back_value h (snd kv) = Some (snd kv') ->
  Heap.simulates h (Heap.transform_one transform_method self kv)
                 (transform_one m kv') Heap.related.
Proof.
  intros Hext Ek Ev.
  destruct (transformation_table_run Hext) as (entries & table' & Erun & Etable & Hrel).
  unfold Heap.transform_one, transform_one. rewrite Etable. simpl.
  eapply simulates_step; [exact Erun | apply extends_new |].
  eapply simulates_step;
    [apply read_dict_run, nth_error_new | apply extends_refl |].
  pose proof (entries_rel_get (fst kv') Hrel) as Hget. rewrite Ek.
  unfold Dict.getitem.
  destruct (Dict.get (fst kv') table') as [f'|] eqn:Eget'.
  - destruct Hget as (f & -> & a & p & -> & -> & Hap). simpl.
    eapply simulates_step; [reflexivity | apply extends_refl |]. simpl.
    rewrite <- (bind_ret_r (ImpactModelParam.transform p (snd kv'))).
    eapply simulates_bind.
    + apply (proj2 Hap).
      * eapply extends_trans; [exact Hext | apply extends_new].
      * eapply read_back_value_extends; [apply extends_new | exact Ev].
    + intros h1 returned t Hext1 (ta & es & -> & Hta & Hes).
      eapply simulates_run; [apply read_dict_run, Hta | exact Hes].
  - rewrite Hget. simpl. split; [apply extends_refl | reflexivity].
Qed.

Lemma merge_transformed_simulates (h : Heap.heap) (entries : Dict.t Heap.pyval)
  (d : Dict.t value) :
  Heap.extends h0 h -> Heap.related h entries d ->
  Heap.simulates h (Heap.merge_transformed transform_method self entries)
                 (merge_transformed m d) Heap.holds_dict.
Proof.
  intros Hext Hrel. unfold Heap.merge_transformed, merge_transformed.
  eapply simulates_bind.
  - apply (@simulates_mapM _ _ _ _
             (Heap.transform_one transform_method self) (transform_one m)
             (fun h1 kv kv' => fst kv = fst kv' /\
                               Heap.read_back_value h1 (snd kv) = Some (snd kv'))
             Heap.related).
    + intros h1 h2 kv kv' Hext1 [E1 E2]. split; [exact E1|].
      eapply read_back_value_extends; eassumption.
    + intros h1 h2 t t' Hext1. apply related_extends, Hext1.
    + intros h1 kv kv' Hext1 _ [E1 E2]. apply transform_one_simulates; try assumption.
      eapply extends_trans; eassumption.
    + exact Hrel.
  - intros h1 tables tables' Hext1 Htables.
    unfold Heap.simulates, Heap.bind, Heap.alloc, Heap.ret. simpl.
    split; [apply extends_new|].
    eexists. split; [reflexivity|].
    exists (List.length h1), (Dict.of_items (List.concat tables)).
    split; [reflexivity|]. split; [apply nth_error_new|].
    apply (related_extends (extends_new h1 _)).
    unfold Dict.items. rewrite map_id.
    apply entries_rel_of_items, entries_rel_concat, Htables.
Qed.

(** The scalars replicated: each into a new list object. *)
Lemma broadcast_simulates (h : Heap.heap) (sp lp : Dict.t Heap.pyval)
  (sp' lp' : Dict.t value) :
  Heap.related h lp lp' -> Heap.related h sp sp' ->
  Forall (fun kv' => isinstance_list (snd kv') = false) sp' ->
  Heap.simulates h
    (Heap.mapM (fun kv =>
                  Heap.bind (Heap.first_len lp)
                    (fun L => Heap.bind (Heap.alloc (Heap.OList (repeat (snd kv) L)))
                                (fun replicated =>
                                   Heap.ret (fst kv, Heap.PRef replicated)))) sp)
    (mapM (fun kv => L <- first_len lp' ;; Ok (fst kv, VList (repeat (snd kv) L))) sp')
    Heap.related.
Proof.
  intros Hlp Hsp Hscalar.
  apply (@simulates_mapM _ _ _ _ _ _
           (fun h1 kv kv' => fst kv = fst kv' /\
                             Heap.read_back_value h1 (snd kv) = Some (snd kv') /\
                             isinstance_list (snd kv') = false)
           (fun h1 kv kv' => fst kv = fst kv' /\
                             Heap.read_back_value h1 (snd kv) = Some (snd kv'))).
  - intros h1 h2 kv kv' Hext1 (E1 & E2 & E3). repeat split; try assumption.
    eapply read_back_value_extends; eassumption.
  - intros h1 h2 kv kv' Hext1 (E1 & E2). split; [assumption|].
    eapply read_back_value_extends; eassumption.
  - intros h1 [k v] [k' v'] Hext1 _ (E1 & E2 & E3). simpl in *. subst k'.
    eapply simulates_bind.
    + apply simulates_readonly, first_len_read_back.
      eapply related_extends; eassumption.
    + intros h2 L L' Hext2 ->.
      unfold Heap.simulates, Heap.bind, Heap.alloc, Heap.ret. simpl.
      split; [apply extends_new|]. eexists. split; [reflexivity|]. simpl.
      split; [reflexivity|]. rewrite nth_error_new.
      destruct (read_back_cases h1 v E2) as [[Ha _]|(a & l & l' & _ & _ & _ & ->)];
        [|discriminate].
      rewrite map_repeat, Ha, all_some_repeat. reflexivity.
  - clear Hlp. induction Hsp as [|kv kv' sp0 sp0' [E1 E2] _ IH]; [constructor|].
    inversion Hscalar; subst. constructor; [auto | apply IH; assumption].
Qed.

Lemma bind_assoc {A B C : Type} (r : result A) (f : A -> result B) (g : B -> result C) :
  bind (bind r f) g = bind r (fun a => bind (f a) g).
Proof. destruct r; reflexivity. Qed.

Lemma related_In (h : Heap.heap) (entries : Dict.t Heap.pyval) (d : Dict.t value)
  (kv : string * Heap.pyval) :
  Heap.related h entries d -> In kv entries ->
  exists v', Heap.read_back_value h (snd kv) = Some v'.
Proof.
  induction 1 as [|kv0 kv0' es d' [_ E] _ IH]; intros Hin; [destruct Hin|].
  destruct Hin as [<-|Hin]; [eauto | apply IH, Hin].
Qed.

(** The [isinstance] test on a stored value, as a function. *)
Let is_list (h : Heap.heap) (kv : string * Heap.pyval) : bool :=
  match Heap.read_back_value h (snd kv) with
  | Some v' => isinstance_list v'
  | None => false
  end.

Lemma is_list_run (h h1 : Heap.heap) (entries : Dict.t Heap.pyval) (d : Dict.t value)
  (kv : string * Heap.pyval) :
  Heap.related h entries d -> Heap.extends h h1 -> In kv entries ->
  Heap.isinstance_list (snd kv) h1 = (Ok (is_list h kv), h1).
Proof.
  intros Hrel Hext Hin. destruct (related_In kv Hrel Hin) as (v' & E).
  unfold is_list. rewrite E. apply isinstance_list_read_back.
  eapply read_back_value_extends; eassumption.
Qed.

(** The store model does what the first model does: from a stored dict that
    reads back as [d], [transform_parameters] raises the exception the first
    model raises on [d], or returns a dict that reads back as the mapping
    the first model returns, and changes no object on the way. *)
Lemma transform_parameters_simulates (h : Heap.heap) (parameters : Heap.pyval)
  (d : Dict.t value) :
  Heap.extends h0 h -> Heap.holds_dict h parameters d ->
  Heap.simulates h (Heap.transform_parameters transform_method self parameters)
                 (transform_parameters m d) Heap.holds_dict.
Proof.
  intros Hext (p & entries & -> & Hp & Hrel).
  assert (Hbatches : Heap.related h (filter (is_list h) entries)
                       (filter (fun kv => isinstance_list (snd kv)) d)).
  { apply entries_rel_filter; [|exact Hrel]. intros kv kv' _ E.
    unfold is_list. rewrite E. reflexivity. }
  assert (Hscalars : Heap.related h (filter (fun kv => negb (is_list h kv)) entries)
                       (filter (fun kv => negb (isinstance_list (snd kv))) d)).
  { apply entries_rel_filter; [|exact Hrel]. intros kv kv' _ E.
    unfold is_list. rewrite E. reflexivity. }
  set (batches := filter (is_list h) entries) in *.
  set (scalars := filter (fun kv => negb (is_list h kv)) entries) in *.
  set (h1 := (h ++ [Heap.ODict (Dict.of_items batches)])%list).
  set (h2 := (h1 ++ [Heap.ODict (Dict.of_items scalars)])%list).
  assert (H01 : Heap.extends h h1) by apply extends_new.
  assert (H12 : Heap.extends h1 h2) by apply extends_new.
  assert (H02 : Heap.extends h h2) by (eapply extends_trans; eassumption).
  assert (Hlp : Heap.related h2 (Dict.of_items batches) (list_parameters d)).
  { apply (related_extends H02). apply entries_rel_of_items, Hbatches. }
  assert (Hsp : Heap.related h2 (Dict.of_items scalars) (single_parameters d)).
  { apply (related_extends H02). apply entries_rel_of_items, Hscalars. }
  unfold Heap.transform_parameters.
  eapply simulates_step; [apply read_dict_run, Hp | apply extends_refl |].
  eapply simulates_step; [|apply extends_refl|].
  { apply (@filterM_readonly _ _ (is_list h)). intros kv Hin.
    eapply is_list_run; [exact Hrel | apply extends_refl | exact Hin]. }
  eapply simulates_step; [reflexivity | exact H01 |]. fold batches h1.
  eapply simulates_step;
    [apply read_dict_run, (extends_nth _ H01 Hp) | apply extends_refl |].
  eapply simulates_step; [|apply extends_refl|].
  { apply (@filterM_readonly _ _ (fun kv => negb (is_list h kv))). intros kv Hin.
    erewrite bind_run by (eapply is_list_run; [exact Hrel | exact H01 | exact Hin]).
    reflexivity. }
  eapply simulates_step; [reflexivity | exact H12 |]. fold scalars h2.
  eapply simulates_step; [|apply extends_refl|].
  { apply read_dict_run. apply (extends_nth _ H12). apply nth_error_new. }
  unfold transform_parameters.
  rewrite (Forall2_length Hlp).
  destruct (Nat.eqb (List.length (list_parameters d)) 0).
  - eapply simulates_step;
      [apply read_dict_run, (extends_nth _ H02 Hp) | apply extends_refl |].
    apply merge_transformed_simulates.
    + eapply extends_trans; eassumption.
    + apply (related_extends H02), Hrel.
  - eapply simulates_bind.
    { apply simulates_readonly.
      eapply mapM_readonly; [apply (related_values Hlp)|].
      intros v v' E. apply len_read_back, E. }
    intros h3 lens_min lens_min' H23 ->.
    eapply simulates_bind; [apply simulates_readonly; reflexivity|].
    intros h4 shortest shortest' H34 ->.
    assert (H24 : Heap.extends h2 h4) by (eapply extends_trans; eassumption).
    eapply simulates_bind.
    { apply simulates_readonly.
      eapply mapM_readonly; [apply (related_values (related_extends H24 Hlp))|].
      intros v v' E. apply len_read_back, E. }
    intros h5 lens_max lens_max' H45 ->.
    eapply simulates_bind; [apply simulates_readonly; reflexivity|].
    intros h6 longest longest' H56 ->.
    assert (H26 : Heap.extends h2 h6).
    { eapply extends_trans; [exact H24|]. eapply extends_trans; eassumption. }
    destruct (Nat.eqb shortest' longest'); [|apply simulates_raise].
    eapply simulates_step; [|apply extends_refl|].
    { apply read_dict_run. apply (extends_nth _ H26). apply nth_error_new. }
    unfold full_list_parameters. rewrite bind_assoc.
    eapply simulates_bind.
    { apply broadcast_simulates.
      - apply (related_extends H26), Hlp.
      - apply (related_extends H26), Hsp.
      - apply Forall_forall. intros [k v] Hin. simpl.
        apply In_of_items, filter_In in Hin. apply negb_true_iff, Hin. }
    intros h7 broadcast broadcast' H67 Hbc. cbn [bind].
    set (h8 := (h7 ++ [Heap.ODict (Dict.of_items broadcast)])%list).
    set (full := Dict.update (Dict.of_items broadcast) (Dict.of_items batches)).
    set (h9 := (h8 ++ [Heap.ODict full])%list).
    assert (H78 : Heap.extends h7 h8) by apply extends_new.
    assert (H89 : Heap.extends h8 h9) by apply extends_new.
    assert (H29 : Heap.extends h2 h9).
    { eapply extends_trans; [exact H26|]. eapply extends_trans; [exact H67|].
      eapply extends_trans; eassumption. }
    eapply simulates_step; [reflexivity | exact H78 |]. fold h8.
    eapply simulates_step; [apply read_dict_run, nth_error_new | apply extends_refl |].
    eapply simulates_step; [reflexivity | exact H89 |]. fold full h9.
    eapply simulates_step; [apply read_dict_run, nth_error_new | apply extends_refl |].
    apply merge_transformed_simulates.
    + eapply extends_trans; [exact Hext|]. eapply extends_trans; eassumption.
    + apply entries_rel_update.
      * apply entries_rel_of_items.
        apply (related_extends (extends_trans H78 H89)), Hbc.
      * apply (related_extends H29), Hlp.
Qed.

End Simulation.

(** The example store holds the example model. *)
Lemma example_model_stored :
  Heap.model_stored Heap.example_transform Heap.example_heap 0 Heap.example_model.
Proof.
  assert (Hone : forall a nm df,
             nth_error Heap.example_heap a = Some (Heap.OParam nm df) ->
             forall h v v',
               Heap.extends Heap.example_heap h ->
               Heap.read_back_value h v = Some v' ->
               Heap.simulates h (Heap.example_transform a v)
                              (Example.float_transform nm v') Heap.holds_dict).
  { intros a nm df Ha h v v' Hext Ev.
    unfold Heap.simulates, Heap.example_transform, Example.float_transform.
    erewrite bind_run by (apply read_run, (extends_nth _ Hext Ha)).
    unfold Heap.bind, Heap.alloc, Heap.ret. simpl.
    split; [apply extends_new|]. eexists. split; [reflexivity|].
    exists (List.length h), [(nm, v)]. split; [reflexivity|].
    split; [apply nth_error_new|]. constructor; [|constructor].
    split; [reflexivity|]. simpl.
    eapply read_back_value_extends; [apply extends_new | exact Ev]. }
  exists Heap.PNone, 1, Heap.PNone, [2; 3]. eexists.
  split; [reflexivity|]. split; [reflexivity|]. split; [reflexivity|].
  constructor; [|constructor; [|constructor]].
  - split; [eexists; reflexivity|]. apply (Hone 2 "p1" (Heap.PNum 5) eq_refl).
  - split; [eexists; reflexivity|]. apply (Hone 3 "p2" (Heap.PStr "a") eq_refl).
Qed.

(** In the batch branch the transforms are applied to the replicated scalars
    first and to the batches second, whatever the order of the input. *)
Lemma batch_branch_order :
  let input := [("p2", VList [VStr "a"; VStr "b"]); ("p1", VNum 5)] in
  full_list_parameters (single_parameters input) (list_parameters input)
  = Ok [("p1", VList [VNum 5; VNum 5]); ("p2", VList [VStr "a"; VStr "b"])] /\
  option_map Dict.keys
    (match transform_parameters Example.model input with
     | Ok r => Some r
     | Err _ => None
     end)
  = Some ["p1"; "p2_a"; "p2_b"].
Proof. split; reflexivity. Qed.

(** * Further properties *)

(** ** The table of transforms *)

Lemma getitem_undeclared (N : Type) (self : ImpactModel N) (ps : ImpactModelParams.t)
  (k : string) :
  parameters self = Some ps ->
  ~ In k (map ImpactModelParam.name (ImpactModelParams.parameters ps)) ->
  exists table, transformation_table self = Ok table /\
                Dict.getitem k table = Err (KeyError k).
Proof.
  intros Eps Hk. unfold transformation_table. rewrite Eps. eexists. split; [reflexivity|].
  unfold Dict.getitem.
  match goal with
  | |- context [Dict.get k ?t] => rewrite (proj2 (get_None_keys t k)); [reflexivity|]
  end.
  intros Hin. apply (proj1 (keys_of_items _ k)) in Hin. rewrite map_map in Hin.
  exact (Hk Hin).
Qed.

(** X1.  [transformation_table] raises [TypeError] on a model without
    parameters; otherwise its keys are the declared names, and a name is
    mapped to the transform of the last parameter declared under it, any
    other key being a [KeyError]. *)
Theorem transformation_table_lookup (N : Type) (self : ImpactModel N) :
  match parameters self with
  | None => transformation_table self = Err TypeError
  | Some ps =>
      exists table,
        transformation_table self = Ok table /\
        Dict.wf table /\
        (forall k, In k (Dict.keys table) <->
                   In k (map ImpactModelParam.name (ImpactModelParams.parameters ps))) /\
        (forall before p after,
            ImpactModelParams.parameters ps = (before ++ p :: after)%list ->
            (forall q, In q after -> ImpactModelParam.name q <> ImpactModelParam.name p) ->
            Dict.getitem (ImpactModelParam.name p) table
            = Ok (ImpactModelParam.transform p)) /\
        (forall k, ~ In k (map ImpactModelParam.name (ImpactModelParams.parameters ps)) ->
                   Dict.getitem k table = Err (KeyError k))
  end.
Proof.
  unfold transformation_table. destruct (parameters self) as [ps|]; [|reflexivity].
  set (pairs := map (fun p => (ImpactModelParam.name p, ImpactModelParam.transform p))
                    (ImpactModelParams.parameters ps)).
  assert (Hkeys : forall k, In k (Dict.keys (Dict.of_items pairs)) <->
                            In k (map ImpactModelParam.name (ImpactModelParams.parameters ps))).
  { intros k. rewrite (keys_of_items pairs k). unfold pairs. rewrite map_map. reflexivity. }
  exists (Dict.of_items pairs). split; [reflexivity|]. split; [apply wf_of_items|].
  split; [exact Hkeys|]. split.
  - intros before p after Eps Hlast. unfold Dict.getitem.
    rewrite get_of_items. unfold pairs. rewrite Eps, map_app. simpl.
    rewrite rev_app_distr. simpl. rewrite <- app_assoc, get_app.
    assert (Hnone : Dict.get (ImpactModelParam.name p)
                      (rev (map (fun q => (ImpactModelParam.name q,
                                           ImpactModelParam.transform q)) after)) = None).
    { apply get_None_keys. intros Hin. unfold Dict.keys in Hin.
      rewrite map_rev, map_map in Hin. apply in_rev, in_map_iff in Hin as (q & Eq & Hq).
      exact (Hlast q Hq Eq). }
    rewrite Hnone. simpl. rewrite String.eqb_refl. reflexivity.
  - intros k Hk. unfold Dict.getitem.
    rewrite (proj2 (get_None_keys (Dict.of_items pairs) k)); [reflexivity|].
    intros Hin. apply Hk, Hkeys, Hin.
Qed.

(** ** The first failing entry *)

Lemma mapM_first_failure {A B : Type} (f : A -> result B) (before after : list A)
  (a : A) (e : exception) :
  Forall (fun x => is_ok (f x) = true) before -> f a = Err e ->
  mapM f (before ++ a :: after)%list = Err e.
Proof.
  intros Hok Ea. induction Hok as [|x before Hx _ IH]; simpl.
  - rewrite Ea. reflexivity.
  - destruct (f x); [|discriminate]. simpl. rewrite IH. reflexivity.
Qed.

(** X2.  With no batch in the input, the exception of the call is the one
    of the first entry, in input order, whose lookup or transform raises:
    a [KeyError] of its key when no parameter is declared under it, the
    transform's own exception otherwise.  The entries after it are not
    looked at. *)
Theorem scalar_branch_first_failure (N : Type) (self : ImpactModel N)
  (before after : Dict.t value) (kv : string * value) :
  Forall (fun x => isinstance_list (snd x) = false) (before ++ kv :: after)%list ->
  Forall (fun x => is_ok (transform_one self x) = true) before ->
  (forall e, transform_one self kv = Err e ->
             transform_parameters self (before ++ kv :: after)%list = Err e) /\
  (forall ps,
      parameters self = Some ps ->
      ~ In (fst kv) (map ImpactModelParam.name (ImpactModelParams.parameters ps)) ->
      transform_parameters self (before ++ kv :: after)%list = Err (KeyError (fst kv))) /\
  (forall table f e,
      transformation_table self = Ok table -> Dict.get (fst kv) table = Some f ->
      f (snd kv) = Err e ->
      transform_parameters self (before ++ kv :: after)%list = Err e).
Proof.
  intros Hscalar Hok.
  assert (Hfail : forall e, transform_one self kv = Err e ->
                  transform_parameters self (before ++ kv :: after)%list = Err e).
  { intros e Ee. rewrite transform_parameters_scalars by exact Hscalar.
    unfold merge_transformed, Dict.items.
    rewrite (@mapM_first_failure _ _ (transform_one self) before after kv e Hok Ee).
    reflexivity. }
  split; [exact Hfail|]. split.
  - intros ps Eps Hunknown. apply Hfail.
    destruct (getitem_undeclared self (fst kv) Eps Hunknown) as (table & Et & Hkey).
    unfold transform_one. rewrite Et. simpl. rewrite Hkey. reflexivity.
  - intros table f e Et Ef Efv. apply Hfail.
    unfold transform_one, Dict.getitem. rewrite Et. simpl. rewrite Ef. exact Efv.
Qed.

Lemma scalar_branch_first_failure_witness :
  transform_parameters Example.model
    [("p1", VNum 1); ("zz", VNum 2); ("p2", VNum 3)] = Err (KeyError "zz").
Proof.
  destruct (@scalar_branch_first_failure Example.node Example.model
              [("p1", VNum 1)] [("p2", VNum 3)] ("zz", VNum 2)) as (_ & Hkey & _).
  - repeat constructor.
  - repeat constructor.
  - apply (Hkey Example.params); [reflexivity|]. simpl. intuition congruence.
Defined.

(** ** The order of the merge *)

Lemma NoDup_partition {V : Type} (f : string * V -> bool) (d : Dict.t V) :
  Dict.wf d ->
  NoDup (Dict.keys (filter (fun kv => negb (f kv)) d) ++ Dict.keys (filter f d))%list.
Proof.
  unfold Dict.wf, Dict.keys. induction d as [|[k v] d IH]; simpl; intros Hd; [constructor|].
  inversion Hd as [|x l Hnotin Hrest]; subst. specialize (IH Hrest).
  assert (Hfresh : ~ In k (map fst (filter (fun kv => negb (f kv)) d) ++ map fst (filter f d))%list).
  { intros Hin. apply Hnotin. apply in_app_or in Hin as [Hin|Hin];
      apply in_map_iff in Hin as (kv & E & Hin); apply filter_In in Hin as [Hin _];
      apply in_map_iff; exists kv; auto. }
  destruct (f (k, v)); simpl.
  - eapply Permutation.Permutation_NoDup; [apply Permutation.Permutation_middle|].
    constructor; assumption.
  - constructor; assumption.
Qed.

(** X3.  With a batch in the input and one common length [L], the mapping
    the transforms are applied to lists the scalar entries first, each
    replicated [L] times, in input order, and the batch entries after them,
    in input order: in this branch the order of the merge is not the order
    of the input. *)
Theorem batch_branch_merge_order (N : Type) (self : ImpactModel N)
  (parameters : Dict.t value) (L : nat) :
  Dict.wf parameters ->
  (exists k l, In (k, VList l) parameters) ->
  (forall k l, In (k, VList l) parameters -> List.length l = L) ->
  let scalars := filter (fun kv => negb (isinstance_list (snd kv))) parameters in
  let batches := filter (fun kv => isinstance_list (snd kv)) parameters in
  full_list_parameters (single_parameters parameters) (list_parameters parameters)
  = Ok (map (replicated L) scalars ++ batches)%list /\
  transform_parameters self parameters
  = merge_transformed self (map (replicated L) scalars ++ batches)%list.
Proof.
  intros Hwf Hbatch Hcommon scalars batches.
  destruct (full_list_parameters_common self Hwf Hbatch Hcommon)
    as (full & Efull & Etp & _).
  assert (E : full_list_parameters (single_parameters parameters)
                                   (list_parameters parameters)
              = Ok (map (replicated L) scalars ++ batches)%list).
  { rewrite (single_parameters_filter Hwf), (list_parameters_filter Hwf).
    fold scalars batches. unfold full_list_parameters.
    assert (Hfirst : first_len batches = Ok L).
    { destruct Hbatch as (k0 & l0 & Hin0). unfold first_len.
      destruct (Dict.values batches) as [|v vs] eqn:Ev.
      - exfalso. assert (H : In (VList l0) (Dict.values batches)).
        { apply in_map_iff. exists (k0, VList l0); split; [reflexivity|].
          apply filter_In; auto. }
        rewrite Ev in H. destruct H.
      - assert (H : In v (Dict.values batches)) by (rewrite Ev; left; reflexivity).
        apply in_map_iff in H as ([k v'] & Ek & H). simpl in Ek; subst v'.
        apply filter_In in H as [H1 H2]. simpl in H2.
        destruct v as [x|s|l]; try discriminate. simpl. f_equal. eapply Hcommon, H1. }
    rewrite (@mapM_Ok_map _ _ _ (replicated L) (Dict.items scalars)).
    - simpl. f_equal.
      assert (Hnd : NoDup (Dict.keys (map (replicated L) scalars ++ batches)%list)).
      { unfold Dict.keys. rewrite map_app, map_map. simpl.
        apply (NoDup_partition (fun kv => isinstance_list (snd kv)) Hwf). }
      rewrite of_items_wf.
      + apply update_fresh, Hnd.
      + unfold Dict.wf, Dict.keys in *. rewrite map_app in Hnd.
        apply NoDup_app_remove_r in Hnd. exact Hnd.
    - apply Forall_forall. intros kv _. rewrite Hfirst. reflexivity. }
  split; [exact E|]. rewrite Etp. rewrite E in Efull. inversion Efull. reflexivity.
Qed.

Lemma batch_branch_merge_order_witness :
  full_list_parameters
    (single_parameters [("p2", VList [VStr "a"; VStr "b"]); ("p1", VNum 5)])
    (list_parameters [("p2", VList [VStr "a"; VStr "b"]); ("p1", VNum 5)])
  = Ok [("p1", VList [VNum 5; VNum 5]); ("p2", VList [VStr "a"; VStr "b"])] /\
  transform_parameters Example.model
    [("p2", VList [VStr "a"; VStr "b"]); ("p1", VNum 5)]
  = merge_transformed Example.model
      [("p1", VList [VNum 5; VNum 5]); ("p2", VList [VStr "a"; VStr "b"])].
Proof.
  apply (@batch_branch_merge_order Example.node Example.model
           [("p2", VList [VStr "a"; VStr "b"]); ("p1", VNum 5)] 2).
  - unfold Dict.wf; simpl. repeat constructor; simpl; intuition congruence.
  - exists "p2", [VStr "a"; VStr "b"]. simpl; auto.
  - intros k l [E|[E|[]]]; inversion E; reflexivity.
Defined.

(** ** Calls of [compute] *)

Lemma mapMM_first_failure {N A B : Type} (f : A -> M N B) (before after : list A)
  (a : A) (e : exception) :
  Forall (fun x => is_ok (outcome (f x)) = true) before ->
  outcome (f a) = Err e ->
  mapMM f (before ++ a :: after)%list
  = (List.concat (map (fun x => trace (f x)) (before ++ [a])%list), Err e).
Proof.
  intros Hok Ea. induction Hok as [|x before Hx _ IH]; simpl.
  - destruct (f a) as [tr r]. simpl in *. subst r. simpl. rewrite app_nil_r. reflexivity.
  - rewrite IH. destruct (f x) as [tr [b|e']]; simpl in *; [|discriminate]. reflexivity.
Qed.

Section ComputeCalls.
Context {N : Type} {tree_api : ImpactTreeNode.api N}.
Variable combine_by_property :
  list NodeScores.t -> value -> result (list NodeScores.t).

(** X4.  [get_scores] calls [compute] at most once: on the root, without
    [direct_impacts], with the mapping the transformation returned, and it
    returns what that call returned.  A run without the call is a run that
    raised. *)
Theorem get_scores_single_call (self : ImpactModel N) (params : Dict.t value) :
  List.length (trace (get_scores self params)) <= 1 /\
  (forall node transformed direct_impacts,
      In (EvCompute node transformed direct_impacts) (trace (get_scores self params)) ->
      direct_impacts = None /\
      tree self = Some node /\
      (exists ps, parameters self = Some ps /\
                  transform_parameters self (merged_parameters ps params)
                  = Ok transformed) /\
      outcome (get_scores self params) = ImpactTreeNode.compute node transformed None) /\
  (trace (get_scores self params) = [] ->
   exists e, outcome (get_scores self params) = Err e).
Proof.
  unfold get_scores, self_parameters, self_tree.
  destruct (parameters self) as [ps|]; simpl.
  - destruct (transform_parameters self (merged_parameters ps params)) as [tp|e] eqn:Etp;
      simpl.
    + destruct (tree self) as [root|]; simpl.
      * split; [lia|]. split; [|discriminate].
        intros node transformed d [E|[]]. inversion E; subst.
        repeat split. exists ps. auto.
      * split; [lia|]. split; [intros ? ? ? []|]. eauto.
    + split; [lia|]. split; [intros ? ? ? []|]. eauto.
  - split; [lia|]. split; [intros ? ? ? []|]. eauto.
Qed.

(** X5.  When the [compute] of a node raises, [get_nodes_scores] raises the
    same exception: the nodes before it in [unnested_descendants] have been
    computed, the nodes after it are not, and nothing is pooled. *)
Theorem get_nodes_scores_fail_fast (self : ImpactModel N)
  (ps : ImpactModelParams.t) (root : N) (by_property : option value)
  (params transformed : Dict.t value) (before after : list N) (node : N)
  (e : exception) :
  parameters self = Some ps ->
  tree self = Some root ->
  transform_parameters self (merged_parameters ps params) = Ok transformed ->
  ImpactTreeNode.unnested_descendants root = (before ++ node :: after)%list ->
  Forall (fun nd => is_ok (ImpactTreeNode.compute nd transformed
                             (Some (is_not_None by_property))) = true) before ->
  ImpactTreeNode.compute node transformed (Some (is_not_None by_property)) = Err e ->
  get_nodes_scores combine_by_property self by_property params
  = (map (fun nd => EvCompute nd transformed (Some (is_not_None by_property)))
         (before ++ [node])%list,
     Err e).
Proof.
  intros Eps Etree Etp Enodes Hok Efail.
  rewrite (get_nodes_scores_unfold combine_by_property self by_property params Eps).
  rewrite Etp, (@mbind_lift_Ok N). unfold self_tree. rewrite Etree.
  change (@ret N N root) with (@lift N N (Ok root)). rewrite (@mbind_lift_Ok N).
  rewrite Enodes.
  rewrite (@mapMM_first_failure N _ _ (node_scores transformed by_property)
             before after node e).
  - simpl. f_equal. induction (before ++ [node])%list as [|a l IH]; simpl; [reflexivity|].
    rewrite node_scores_trace, IH. reflexivity.
  - eapply Forall_impl; [|exact Hok]. intros nd Hnd. cbv beta in Hnd.
    unfold node_scores, call_compute, mbind.
    destruct (ImpactTreeNode.compute nd transformed (Some (is_not_None by_property)));
      [reflexivity | discriminate].
  - unfold node_scores, call_compute, mbind. rewrite Efail. reflexivity.
Qed.

End ComputeCalls.

Lemma get_nodes_scores_fail_fast_witness :
  @get_nodes_scores Example.node failing_api Example.combine Example.model None
    Example.scalars
  = ([EvCompute Example.Root [("p1", VNum 5); ("p2_a", VNum 1); ("p2_b", VNum 0)]
                (Some false);
      EvCompute Example.ChildA [("p1", VNum 5); ("p2_a", VNum 1); ("p2_b", VNum 0)]
                (Some false)],
     Err (Raised "no data")).
Proof.
  apply (@get_nodes_scores_fail_fast Example.node failing_api Example.combine
           Example.model Example.params Example.Root None Example.scalars
           [("p1", VNum 5); ("p2_a", VNum 1); ("p2_b", VNum 0)]
           [Example.Root] [Example.ChildB] Example.ChildA (Raised "no data")).
  - reflexivity.
  - reflexivity.
  - reflexivity.
  - reflexivity.
  - repeat constructor.
  - reflexivity.
Defined.

(** ** Uncertainty *)




Section Uncertainty.
Context {N : Type} {tree_api : ImpactTreeNode.api N}.
Variable combine_by_property :
  list NodeScores.t -> value -> result (list NodeScores.t).



End Uncertainty.


(** ** The rows of the Sobol indices *)

Lemma mapM_map {A B C : Type} (g : A -> B) (f : B -> result C) (l : list A) :
  mapM f (map g l) = mapM (fun a => f (g a)) l.
Proof.
  induction l as [|a l IH]; simpl; [reflexivity|]. rewrite IH. reflexivity.
Qed.

Lemma rows_by_index (node method : string) (parameter_names : list string)
  (s1 : list float) :
  List.length s1 <= List.length parameter_names ->
  mapM (fun i =>
          parameter <- index parameter_names i ;;
          sobol_s1 <- index s1 i ;;
          Ok {| row_node := node; row_method := method;
                row_parameter := parameter; row_sobol_s1 := sobol_s1 |})
       (seq 0 (List.length s1))
  = Ok (rows_for node method parameter_names s1).
Proof.
  revert parameter_names. induction s1 as [|x s1 IH]; intros [|nm nms] Hlen;
    simpl in Hlen; try lia; try reflexivity.
  cbn [List.length seq mapM]. unfold index at 1 2. cbn [nth_error bind].
  rewrite <- seq_shift, mapM_map.
  rewrite (@mapM_ext _ _ _
             (fun i => parameter <- index nms i ;;
                       sobol_s1 <- index s1 i ;;
                       Ok {| row_node := node; row_method := method;
                             row_parameter := parameter; row_sobol_s1 := sobol_s1 |}))
    by reflexivity.
  rewrite IH by lia. reflexivity.
Qed.

Lemma rows_of_exact (node method : string) (pb : SobolProblem) (s1 : list float) :
  List.length s1 <= List.length (names pb) ->
  rows_of (Ok node) method (Ok pb) s1 = Ok (rows_for node method (names pb) s1).
Proof. intros Hlen. unfold rows_of. exact (rows_by_index node method (names pb) s1 Hlen). Qed.

Lemma rows_of_too_long (node method : string) (pb : SobolProblem) (s1 : list float) :
  List.length (names pb) < List.length s1 ->
  rows_of (Ok node) method (Ok pb) s1 = Err IndexError.
Proof.
  intros Hlen. unfold rows_of.
  replace (List.length s1)
    with (List.length (names pb) + S (List.length s1 - S (List.length (names pb))))
    by lia.
  rewrite seq_app. cbn [seq plus].
  apply mapM_first_failure.
  - apply Forall_forall. intros i Hi. apply in_seq in Hi. simpl. unfold index.
    destruct (nth_error (names pb) i) eqn:E1; [|apply nth_error_None in E1; lia].
    destruct (nth_error s1 i) eqn:E2; [reflexivity | apply nth_error_None in E2; lia].
  - simpl. unfold index.
    rewrite (proj2 (nth_error_None (names pb) (List.length (names pb)))) by lia.
    reflexivity.
Qed.

Lemma trace_mbind_app {N A B : Type} (c : M N A) (k : A -> M N B) :
  trace (mbind c k)
  = (trace c ++ match outcome c with
                | Ok a => trace (k a)
                | Err _ => []
                end)%list.
Proof.
  destruct c as [tr [a|e]]; simpl; [|symmetry; apply app_nil_r].
  destruct (k a); reflexivity.
Qed.

Lemma map_snd_combine_le {A B : Type} (l : list A) (l' : list B) :
  List.length l' <= List.length l -> map snd (combine l l') = l'.
Proof.
  revert l'. induction l as [|a l IH]; intros [|b l'] Hlen; simpl in *;
    try reflexivity; try lia.
  f_equal. apply IH. lia.
Qed.

Lemma map_fst_combine_firstn {A B : Type} (l : list A) (l' : list B) :
  map fst (combine l l') = firstn (List.length l') l.
Proof.
  revert l'. induction l as [|a l IH]; intros [|b l']; simpl; try reflexivity.
  f_equal. apply IH.
Qed.




Section SobolRows.
Context {N : Type} {tree_api : ImpactTreeNode.api N}.
Variable combine_by_property :
  list NodeScores.t -> value -> result (list NodeScores.t).
Variable sobol_analyze : SobolProblem -> value -> bool -> result SobolIndices.
Variable self : ImpactModel N.

(** The analysis of one batch of scores returned [s1], no longer than the
    names of the problem. *)
Let analysed (pb : SobolProblem) (item : string * value) (s1 : list float) : Prop :=
  exists indices, sobol_analyze pb (snd item) true = Ok indices /\
                  S1 indices = s1 /\ List.length s1 <= List.length (names pb).

(** The rows of the methods of one score collection. *)
Let rows_of_methods (node : string) (pb : SobolProblem)
  (items : list (string * value)) (s1s : list (list float)) : list SobolRow :=
  List.concat (map (fun it => rows_for node (fst (fst it)) (names pb) (snd it))
                   (combine items s1s)).

Lemma analyze_method_exact (node : string) (pb : SobolProblem)
  (acc : list SobolRow) (item : string * value) (s1 : list float) :
  self_sobol_problem self = Ok pb -> analysed pb item s1 ->
  analyze_method sobol_analyze self (Ok node) acc item
  = ([EvSobolAnalyze pb (snd item) true],
     Ok (acc ++ rows_for node (fst item) (names pb) s1)%list).
Proof.
  intros Epb (indices & Ea & <- & Hlen).
  unfold analyze_method. rewrite Epb, (@mbind_lift_Ok N).
  unfold call_sobol_analyze, mbind, lift, ret. rewrite Ea.
  rewrite (rows_of_exact node (fst item) pb (S1 indices) Hlen). reflexivity.
Qed.

Lemma methods_loop_exact (node : string) (pb : SobolProblem)
  (items : list (string * value)) (s1s : list (list float)) :
  self_sobol_problem self = Ok pb ->
  Forall2 (analysed pb) items s1s ->
  forall acc,
    for_each (analyze_method sobol_analyze self (Ok node)) items acc
    = (map (fun item => EvSobolAnalyze pb (snd item) true) items,
       Ok (acc ++ rows_of_methods node pb items s1s)%list).
Proof.
  intros Epb Hall. unfold rows_of_methods.
  induction Hall as [|item s1 items s1s Hitem _ IH]; intros acc; simpl.
  - rewrite app_nil_r. reflexivity.
  - rewrite (analyze_method_exact node acc Epb Hitem).
    unfold mbind. rewrite IH. simpl. rewrite <- app_assoc. reflexivity.
Qed.

(** X7.  Without [all_nodes], the scores of the root computed and each
    analysis returning no more entries than the problem has names, the rows
    come method by method, in the order of the methods of the scores, and
    for a method name by name, in the order of the names of the problem;
    every row bears the name of the root.  One analysis is called per
    method, after the scores are computed.  An analysis that returns fewer
    entries than there are names gives rows for the first names only. *)
Theorem sobol_rows_of_root (ps : ImpactModelParams.t) (n : Z)
  (draws samples : Dict.t value) (root : N) (calls : list (event N))
  (lcia_scores : LCIAScores.t) (s1s : list (list float)) :
  parameters self = Some ps ->
  tree self = Some root ->
  ImpactModelParams.sobol_draw ps n = Ok draws ->
  ImpactModelParams.draw_to_distrib ps draws = Ok samples ->
  get_scores_kwargs self samples = (calls, Ok lcia_scores) ->
  Forall2 (analysed (ImpactModelParams.sobol_problem ps))
          (Dict.items (LCIAScores.scores lcia_scores)) s1s ->
  get_sobol_s1_indices combine_by_property sobol_analyze self n false
  = ((calls ++ map (fun item => EvSobolAnalyze (ImpactModelParams.sobol_problem ps)
                                               (snd item) true)
                   (Dict.items (LCIAScores.scores lcia_scores)))%list,
     Ok (List.concat
           (map (fun it => rows_for (ImpactTreeNode.name root) (fst (fst it))
                                    (names (ImpactModelParams.sobol_problem ps)) (snd it))
                (combine (Dict.items (LCIAScores.scores lcia_scores)) s1s)))).
Proof.
  intros Eps Etree Edraw Edist Escores Hall.
  rewrite (get_sobol_unfold combine_by_property sobol_analyze self n false Eps Edraw Edist).
  assert (Epb : self_sobol_problem self = Ok (ImpactModelParams.sobol_problem ps)).
  { unfold self_sobol_problem. rewrite Eps. reflexivity. }
  unfold self_tree_name. rewrite Etree, Escores. unfold mbind.
  rewrite (methods_loop_exact (ImpactTreeNode.name root) Epb Hall []). reflexivity.
Qed.

(** X8.  With [all_nodes], the rows come node by node in the order of the
    node scores, for a node method by method, for a method name by name,
    each row bearing the name of its node; the analyses are called in that
    order, after all the nodes are computed. *)
Theorem sobol_rows_of_nodes (ps : ImpactModelParams.t) (n : Z)
  (draws samples : Dict.t value) (calls : list (event N))
  (nodes_scores : list NodeScores.t) (s1ss : list (list (list float))) :
  parameters self = Some ps ->
  ImpactModelParams.sobol_draw ps n = Ok draws ->
  ImpactModelParams.draw_to_distrib ps draws = Ok samples ->
  get_nodes_scores_kwargs combine_by_property self samples = (calls, Ok nodes_scores) ->
  Forall2 (fun r s1s =>
             Forall2 (analysed (ImpactModelParams.sobol_problem ps))
                     (Dict.items (LCIAScores.scores (NodeScores.lcia_scores r))) s1s)
          nodes_scores s1ss ->
  get_sobol_s1_indices combine_by_property sobol_analyze self n true
  = ((calls ++
      List.concat
        (map (fun r =>
                map (fun item => EvSobolAnalyze (ImpactModelParams.sobol_problem ps)
                                                (snd item) true)
                    (Dict.items (LCIAScores.scores (NodeScores.lcia_scores r))))
             nodes_scores))%list,
     Ok (List.concat
           (map (fun rs =>
                   List.concat
                     (map (fun it => rows_for (NodeScores.name (fst rs)) (fst (fst it))
                                              (names (ImpactModelParams.sobol_problem ps))
                                              (snd it))
                          (combine (Dict.items (LCIAScores.scores
                                                  (NodeScores.lcia_scores (fst rs))))
                                   (snd rs))))
                (combine nodes_scores s1ss)))).
Proof.
  intros Eps Edraw Edist Escores Hall.
  rewrite (get_sobol_unfold combine_by_property sobol_analyze self n true Eps Edraw Edist).
  assert (Epb : self_sobol_problem self = Ok (ImpactModelParams.sobol_problem ps)).
  { unfold self_sobol_problem. rewrite Eps. reflexivity. }
  rewrite Escores. unfold mbind.
  assert (Hloop : forall acc,
    for_each
      (fun sobol_s1_indices node_scores =>
         for_each (analyze_method sobol_analyze self (Ok (NodeScores.name node_scores)))
                  (Dict.items (LCIAScores.scores (NodeScores.lcia_scores node_scores)))
                  sobol_s1_indices)
      nodes_scores acc
    = (List.concat
         (map (fun r =>
                 map (fun item => EvSobolAnalyze (ImpactModelParams.sobol_problem ps)
                                                 (snd item) true)
                     (Dict.items (LCIAScores.scores (NodeScores.lcia_scores r))))
              nodes_scores),
       Ok (acc ++
           List.concat
             (map (fun rs =>
                     rows_of_methods (NodeScores.name (fst rs))
                       (ImpactModelParams.sobol_problem ps)
                       (Dict.items (LCIAScores.scores (NodeScores.lcia_scores (fst rs))))
                       (snd rs))
                  (combine nodes_scores s1ss)))%list)).
  { clear Escores. induction Hall as [|r s1s rs s1ss' Hr _ IH]; intros acc; simpl.
    - rewrite app_nil_r. reflexivity.
    - rewrite (methods_loop_exact (NodeScores.name r) Epb Hr acc).
      unfold mbind. rewrite IH. rewrite <- app_assoc. reflexivity. }
  rewrite Hloop. reflexivity.
Qed.

(** X9.  An analysis that returns more entries than the problem has names
    makes the call raise [IndexError]: the rows of the methods before it
    are lost, the methods after it are not analysed. *)
Theorem sobol_index_error (ps : ImpactModelParams.t) (n : Z)
  (draws samples : Dict.t value) (root : N) (calls : list (event N))
  (lcia_scores : LCIAScores.t) (before after : list (string * value))
  (item : string * value) (s1s : list (list float)) (indices : SobolIndices) :
  parameters self = Some ps ->
  tree self = Some root ->
  ImpactModelParams.sobol_draw ps n = Ok draws ->
  ImpactModelParams.draw_to_distrib ps draws = Ok samples ->
  get_scores_kwargs self samples = (calls, Ok lcia_scores) ->
  Dict.items (LCIAScores.scores lcia_scores) = (before ++ item :: after)%list ->
  Forall2 (analysed (ImpactModelParams.sobol_problem ps)) before s1s ->
  sobol_analyze (ImpactModelParams.sobol_problem ps) (snd item) true = Ok indices ->
  List.length (names (ImpactModelParams.sobol_problem ps)) < List.length (S1 indices) ->
  get_sobol_s1_indices combine_by_property sobol_analyze self n false
  = ((calls ++ map (fun it => EvSobolAnalyze (ImpactModelParams.sobol_problem ps)
                                             (snd it) true)
                   (before ++ [item]))%list,
     Err IndexError).
Proof.
  intros Eps Etree Edraw Edist Escores Eitems Hbefore Ea Hlong.
  rewrite (get_sobol_unfold combine_by_property sobol_analyze self n false Eps Edraw Edist).
  assert (Epb : self_sobol_problem self = Ok (ImpactModelParams.sobol_problem ps)).
  { unfold self_sobol_problem. rewrite Eps. reflexivity. }
  unfold self_tree_name. rewrite Etree, Escores. unfold mbind. rewrite Eitems.
  assert (Hloop : forall acc,
    for_each (analyze_method sobol_analyze self (Ok (ImpactTreeNode.name root)))
             (before ++ item :: after)%list acc
    = (map (fun it => EvSobolAnalyze (ImpactModelParams.sobol_problem ps) (snd it) true)
           (before ++ [item])%list,
       Err IndexError)).
  { clear Eitems. induction Hbefore as [|it s1 before' s1s' Hit _ IH]; intros acc; simpl.
    - unfold analyze_method. rewrite Epb, (@mbind_lift_Ok N).
      unfold call_sobol_analyze, mbind, lift, ret. rewrite Ea.
      rewrite (rows_of_too_long (ImpactTreeNode.name root) (fst item) _ _ Hlong).
      reflexivity.
    - rewrite (analyze_method_exact (ImpactTreeNode.name root) acc Epb Hit).
      unfold mbind. rewrite IH. reflexivity. }
  rewrite Hloop. reflexivity.
Qed.

(** *** Counting the rows, and what each of them holds *)



(** The two columns of the rows of one analysis: the indices as returned,
    and the names at their positions. *)
Lemma rows_for_columns (node method : string) (parameter_names : list string)
  (s1 : list float) :
  List.length s1 <= List.length parameter_names ->
  map row_sobol_s1 (rows_for node method parameter_names s1) = s1 /\
  map row_parameter (rows_for node method parameter_names s1)
  = firstn (List.length s1) parameter_names.
Proof.
  intros Hlen. unfold rows_for. rewrite !map_map. simpl. split.
  - exact (map_snd_combine_le parameter_names s1 Hlen).
  - exact (map_fst_combine_firstn parameter_names s1).
Qed.

Lemma rows_of_methods_columns (node : string) (pb : SobolProblem)
  (items : list (string * value)) (s1s : list (list float)) :
  Forall2 (analysed pb) items s1s ->
  map row_sobol_s1 (rows_of_methods node pb items s1s) = List.concat s1s /\
  map row_parameter (rows_of_methods node pb items s1s)
  = List.concat (map (fun s1 => firstn (List.length s1) (names pb)) s1s).
Proof.
  unfold rows_of_methods.
  induction 1 as [|item s1 items s1s (indices & _ & _ & Hlen) _ [IH1 IH2]]; simpl;
    [split; reflexivity|].
  rewrite !map_app, IH1, IH2.
  destruct (rows_for_columns node (fst item) (names pb) s1 Hlen) as [-> ->].
  split; reflexivity.
Qed.


(** The run on the scores of the root, every analysis succeeding. *)
Lemma root_run (ps : ImpactModelParams.t) (n : Z) (draws samples : Dict.t value)
  (calls : list (event N)) (lcia_scores : LCIAScores.t) (s1s : list (list float)) :
  parameters self = Some ps ->
  ImpactModelParams.sobol_draw ps n = Ok draws ->
  ImpactModelParams.draw_to_distrib ps draws = Ok samples ->
  get_scores_kwargs self samples = (calls, Ok lcia_scores) ->
  Forall2 (analysed (ImpactModelParams.sobol_problem ps))
          (Dict.items (LCIAScores.scores lcia_scores)) s1s ->
  exists root,
    tree self = Some root /\
    get_sobol_s1_indices combine_by_property sobol_analyze self n false
    = ((calls ++ map (fun item => EvSobolAnalyze (ImpactModelParams.sobol_problem ps)
                                                 (snd item) true)
                     (Dict.items (LCIAScores.scores lcia_scores)))%list,
       Ok (rows_of_methods (ImpactTreeNode.name root) (ImpactModelParams.sobol_problem ps)
             (Dict.items (LCIAScores.scores lcia_scores)) s1s)).
Proof.
  intros Eps Edraw Edist Escores Hall.
  destruct (@get_scores_kwargs_tree N tree_api self samples lcia_scores) as (root & Etree).
  { rewrite Escores. reflexivity. }
  exists root. split; [exact Etree|].
  rewrite (get_sobol_unfold combine_by_property sobol_analyze self n false Eps Edraw Edist).
  assert (Epb : self_sobol_problem self = Ok (ImpactModelParams.sobol_problem ps)).
  { unfold self_sobol_problem. rewrite Eps. reflexivity. }
  unfold self_tree_name. rewrite Etree, Escores. unfold mbind.
  rewrite (methods_loop_exact (ImpactTreeNode.name root) Epb Hall []). reflexivity.
Qed.

(** The loop over the records of the nodes, every analysis succeeding. *)
Lemma nodes_loop_exact (pb : SobolProblem) (units : list NodeScores.t)
  (s1ss : list (list (list float))) :
  self_sobol_problem self = Ok pb ->
  Forall2 (fun r s1s =>
             Forall2 (analysed pb)
                     (Dict.items (LCIAScores.scores (NodeScores.lcia_scores r))) s1s)
          units s1ss ->
  forall acc,
    for_each
      (fun sobol_s1_indices node_scores =>
         for_each (analyze_method sobol_analyze self (Ok (NodeScores.name node_scores)))
                  (Dict.items (LCIAScores.scores (NodeScores.lcia_scores node_scores)))
                  sobol_s1_indices)
      units acc
    = (List.concat
         (map (fun r => map (fun item => EvSobolAnalyze pb (snd item) true)
                            (Dict.items (LCIAScores.scores (NodeScores.lcia_scores r))))
              units),
       Ok (acc ++
           List.concat
             (map (fun rs =>
                     rows_of_methods (NodeScores.name (fst rs)) pb
                       (Dict.items (LCIAScores.scores (NodeScores.lcia_scores (fst rs))))
                       (snd rs))
                  (combine units s1ss)))%list).
Proof.
  intros Epb Hall. induction Hall as [|r s1s rs s1ss' Hr _ IH]; intros acc; simpl.
  - rewrite app_nil_r. reflexivity.
  - rewrite (methods_loop_exact (NodeScores.name r) Epb Hr acc).
    unfold mbind. rewrite IH. rewrite <- app_assoc. reflexivity.
Qed.

Lemma nodes_run (ps : ImpactModelParams.t) (n : Z) (draws samples : Dict.t value)
  (calls : list (event N)) (units : list NodeScores.t)
  (s1ss : list (list (list float))) :
  parameters self = Some ps ->
  ImpactModelParams.sobol_draw ps n = Ok draws ->
  ImpactModelParams.draw_to_distrib ps draws = Ok samples ->
  get_nodes_scores_kwargs combine_by_property self samples = (calls, Ok units) ->
  Forall2 (fun r s1s =>
             Forall2 (analysed (ImpactModelParams.sobol_problem ps))
                     (Dict.items (LCIAScores.scores (NodeScores.lcia_scores r))) s1s)
          units s1ss ->
  get_sobol_s1_indices combine_by_property sobol_analyze self n true
  = ((calls ++
      List.concat
        (map (fun r => map (fun item => EvSobolAnalyze (ImpactModelParams.sobol_problem ps)
                                                       (snd item) true)
                           (Dict.items (LCIAScores.scores (NodeScores.lcia_scores r))))
             units))%list,
     Ok (List.concat
           (map (fun rs =>
                   rows_of_methods (NodeScores.name (fst rs))
                     (ImpactModelParams.sobol_problem ps)
                     (Dict.items (LCIAScores.scores (NodeScores.lcia_scores (fst rs))))
                     (snd rs))
                (combine units s1ss)))).
Proof.
  intros Eps Edraw Edist Escores Hall.
  rewrite (get_sobol_unfold combine_by_property sobol_analyze self n true Eps Edraw Edist).
  assert (Epb : self_sobol_problem self = Ok (ImpactModelParams.sobol_problem ps)).
  { unfold self_sobol_problem. rewrite Eps. reflexivity. }
  rewrite Escores. unfold mbind. rewrite (nodes_loop_exact Epb Hall []). reflexivity.
Qed.


Lemma nodes_columns (pb : SobolProblem) (units : list NodeScores.t)
  (s1ss : list (list (list float))) :
  Forall2 (fun r s1s =>
             Forall2 (analysed pb)
                     (Dict.items (LCIAScores.scores (NodeScores.lcia_scores r))) s1s)
          units s1ss ->
  let rows :=
    List.concat
      (map (fun rs =>
              rows_of_methods (NodeScores.name (fst rs)) pb
                (Dict.items (LCIAScores.scores (NodeScores.lcia_scores (fst rs))))
                (snd rs))
           (combine units s1ss)) in
  map row_sobol_s1 rows = List.concat (List.concat s1ss) /\
  map row_parameter rows
  = List.concat (map (fun s1 => firstn (List.length s1) (names pb)) (List.concat s1ss)).
Proof.
  induction 1 as [|r s1s units s1ss Hr _ [IH1 IH2]]; simpl; [split; reflexivity|].
  rewrite !map_app, IH1, IH2, !concat_app.
  destruct (rows_of_methods_columns (NodeScores.name r) Hr) as [-> ->].
  split; reflexivity.
Qed.

(** C8.  Whatever the run, each call of [sobol.analyze] it makes passes
    [calc_second_order=True], and each row it returns holds an entry of the
    ["S1"] that one of these calls got back, as returned, with the name the
    problem has at the position of that entry.  When the scores are computed
    and the analyses succeed, one analysis is called for each batch of
    scores, and the column of the indices is the ["S1"] of these calls one
    after the other, nothing changed, left out or added; the column of the
    parameters is the names at the same positions. *)
Theorem sobol_second_order_and_raw_indices (n : Z) (all_nodes : bool) :
  let run := get_sobol_s1_indices combine_by_property sobol_analyze self n all_nodes in
  Forall second_order_requested (trace run) /\
  (forall rows, outcome run = Ok rows ->
     Forall (row_from_call sobol_analyze self (trace run)) rows) /\
  (forall ps draws samples,
     parameters self = Some ps ->
     ImpactModelParams.sobol_draw ps n = Ok draws ->
     ImpactModelParams.draw_to_distrib ps draws = Ok samples ->
     let pb := ImpactModelParams.sobol_problem ps in
     (forall calls lcia_scores s1s,
        all_nodes = false ->
        get_scores_kwargs self samples = (calls, Ok lcia_scores) ->
        Forall2 (analysed pb) (Dict.items (LCIAScores.scores lcia_scores)) s1s ->
        trace run
        = (calls ++ map (fun item => EvSobolAnalyze pb (snd item) true)
                        (Dict.items (LCIAScores.scores lcia_scores)))%list /\
        exists rows,
          outcome run = Ok rows /\
          map row_sobol_s1 rows = List.concat s1s /\
          map row_parameter rows
          = List.concat (map (fun s1 => firstn (List.length s1) (names pb)) s1s)) /\
     (forall calls nodes_scores s1ss,
        all_nodes = true ->
        get_nodes_scores_kwargs combine_by_property self samples
        = (calls, Ok nodes_scores) ->
        Forall2 (fun r s1s =>
                   Forall2 (analysed pb)
                           (Dict.items (LCIAScores.scores (NodeScores.lcia_scores r))) s1s)
                nodes_scores s1ss ->
        trace run
        = (calls ++
           List.concat
             (map (fun r => map (fun item => EvSobolAnalyze pb (snd item) true)
                                (Dict.items (LCIAScores.scores
                                               (NodeScores.lcia_scores r))))
                  nodes_scores))%list /\
        exists rows,
          outcome run = Ok rows /\
          map row_sobol_s1 rows = List.concat (List.concat s1ss) /\
          map row_parameter rows
          = List.concat (map (fun s1 => firstn (List.length s1) (names pb))
                             (List.concat s1ss)))).
Proof.
  intros run.
  destruct (sobol_calls_and_rows combine_by_property sobol_analyze self n all_nodes)
    as [Hcalls Hrows].
  split; [exact Hcalls|]. split; [exact Hrows|].
  intros ps draws samples Eps Edraw Edist pb. split.
  - intros calls lcia_scores s1s -> Escores Hall. unfold run.
    destruct (root_run n Eps Edraw Edist Escores Hall) as (root & _ & ->).
    split; [reflexivity|]. eexists. split; [reflexivity|].
    apply rows_of_methods_columns, Hall.
  - intros calls nodes_scores s1ss -> Escores Hall. unfold run.
    rewrite (nodes_run n Eps Edraw Edist Escores Hall).
    split; [reflexivity|]. eexists. split; [reflexivity|].
    apply (nodes_columns Hall).
Qed.


End SobolRows.

Ltac analysed_item :=
  first [ apply Forall2_nil
        | apply Forall2_cons;
          [ try (eexists; split; [reflexivity|]; split; [reflexivity | simpl; lia]) | ] ].

Lemma sobol_second_order_and_raw_indices_witness :
  (trace (get_sobol_s1_indices Example.combine Example.analyze Example.model 1 false)
   = [EvCompute Example.Root
                [("p1", VList [VNum 2; VNum 8]);
                 ("p2_a", VList [VNum 1; VNum 0]);
                 ("p2_b", VList [VNum 0; VNum 1])] None;
      EvSobolAnalyze Example.problem (VList [VNum 2; VNum 8]) true;
      EvSobolAnalyze Example.problem (VList [VNum 2; VNum 8]) true] /\
   exists rows,
     outcome (get_sobol_s1_indices Example.combine Example.analyze Example.model 1 false)
     = Ok rows /\
     map row_sobol_s1 rows = [(-0.5)%float; (-0.5)%float; (-0.5)%float; (-0.5)%float] /\
     map row_parameter rows = ["p1"; "p2"; "p1"; "p2"]) /\
  (exists calls rows,
     trace (get_sobol_s1_indices Example.combine Example.analyze Example.model 1 true)
     = (calls ++ repeat (EvSobolAnalyze Example.problem (VList [VNum 2; VNum 8]) true) 6)%list /\
     outcome (get_sobol_s1_indices Example.combine Example.analyze Example.model 1 true)
     = Ok rows /\
     map row_sobol_s1 rows = repeat (-0.5)%float 12 /\
     map row_parameter rows
     = ["p1"; "p2"; "p1"; "p2"; "p1"; "p2"; "p1"; "p2"; "p1"; "p2"; "p1"; "p2"]).
Proof.
  split.
  - destruct (@sobol_second_order_and_raw_indices Example.node Example.tree_api
                Example.combine Example.analyze Example.model 1%Z false)
      as (_ & _ & Hruns).
    destruct (Hruns Example.params
                [("p1", VList [VNum 2; VNum 8]); ("p2", VList [VStr "a"; VStr "b"])]
                [("p1", VList [VNum 2; VNum 8]); ("p2", VList [VStr "a"; VStr "b"])]
                eq_refl eq_refl eq_refl) as [Hroot _].
    apply (Hroot [EvCompute Example.Root
                    [("p1", VList [VNum 2; VNum 8]);
                     ("p2_a", VList [VNum 1; VNum 0]);
                     ("p2_b", VList [VNum 0; VNum 1])] None]
                 Example.sampled_scores
                 [[(-0.5)%float; (-0.5)%float]; [(-0.5)%float; (-0.5)%float]]
                 eq_refl eq_refl).
    simpl. repeat analysed_item.
  - destruct (@sobol_second_order_and_raw_indices Example.node Example.tree_api
                Example.combine Example.analyze Example.model 1%Z true)
      as (_ & _ & Hruns).
    destruct (Hruns Example.params
                [("p1", VList [VNum 2; VNum 8]); ("p2", VList [VStr "a"; VStr "b"])]
                [("p1", VList [VNum 2; VNum 8]); ("p2", VList [VStr "a"; VStr "b"])]
                eq_refl eq_refl eq_refl) as [_ Hnodes].
    destruct (Hnodes (map (fun nd => EvCompute nd
                                       [("p1", VList [VNum 2; VNum 8]);
                                        ("p2_a", VList [VNum 1; VNum 0]);
                                        ("p2_b", VList [VNum 0; VNum 1])] (Some false))
                          [Example.Root; Example.ChildA; Example.ChildB])
                     Example.sampled_nodes_scores
                     (repeat [[(-0.5)%float; (-0.5)%float]; [(-0.5)%float; (-0.5)%float]] 3)
                     eq_refl eq_refl) as (Etrace & rows & Erows & Es1 & Enames).
    + simpl. repeat analysed_item.
    + eexists. exists rows. split; [exact Etrace|]. split; [exact Erows|].
      split; [exact Es1 | exact Enames].
Defined.


(** C4, as the spec states it, fails when a parameter is named
    [by_property]: its samples bind the keyword argument of
    [get_nodes_scores], the records of the three nodes are pooled, and the
    rows are those of the pooled records.  A pooling that keeps one record
    gives 4 rows where nodes, methods and names make 12; a pooling that
    refuses a list as property name leaves no row at all. *)
Lemma sobol_by_property_sample_pools :
  ImpactModelParams.sobol_draw Example.by_property_params 1
  = Ok [("p1", VList [VNum 2; VNum 8]); ("by_property", VList [VNum 0; VNum 1])] /\
  List.length (ImpactTreeNode.unnested_descendants Example.Root) = 3 /\
  List.length (names (ImpactModelParams.sobol_problem Example.by_property_params)) = 2 /\
  (exists calls units,
     get_nodes_scores_kwargs Example.combine Example.by_property_model
       [("p1", VList [VNum 2; VNum 8]); ("by_property", VList [VNum 0; VNum 1])]
     = (calls, Ok units) /\
     List.length calls = 3 /\ List.length units = 1 /\
     Forall (fun r => List.length (Dict.keys (LCIAScores.scores (NodeScores.lcia_scores r)))
                      = 2) units) /\
  (exists rows,
     outcome (get_sobol_s1_indices Example.combine Example.analyze
                Example.by_property_model 1 true) = Ok rows /\
     List.length rows = 4 /\ List.length rows <> 3 * 2 * 2) /\
  outcome (get_sobol_s1_indices Example.strict_combine Example.analyze
             Example.by_property_model 1 true) = Err TypeError.
Proof.
  split; [reflexivity|]. split; [reflexivity|]. split; [reflexivity|]. split.
  - eexists. eexists. split; [reflexivity|]. split; [reflexivity|]. split; [reflexivity|].
    repeat constructor.
  - split; [|reflexivity].
    eexists. split; [reflexivity|]. split; [reflexivity|]. simpl. lia.
Qed.

Lemma sobol_rows_of_root_witness :
  get_sobol_s1_indices Example.combine Example.analyze Example.model 1 false
  = ([EvCompute Example.Root
                [("p1", VList [VNum 2; VNum 8]);
                 ("p2_a", VList [VNum 1; VNum 0]);
                 ("p2_b", VList [VNum 0; VNum 1])] None;
      EvSobolAnalyze Example.problem (VList [VNum 2; VNum 8]) true;
      EvSobolAnalyze Example.problem (VList [VNum 2; VNum 8]) true],
     Ok [ {| row_node := "root"; row_method := "GWP"; row_parameter := "p1";
             row_sobol_s1 := (-0.5)%float |};
          {| row_node := "root"; row_method := "GWP"; row_parameter := "p2";
             row_sobol_s1 := (-0.5)%float |};
          {| row_node := "root"; row_method := "TOX"; row_parameter := "p1";
             row_sobol_s1 := (-0.5)%float |};
          {| row_node := "root"; row_method := "TOX"; row_parameter := "p2";
             row_sobol_s1 := (-0.5)%float |} ]).
Proof.
  apply (@sobol_rows_of_root Example.node Example.tree_api Example.combine
           Example.analyze Example.model Example.params 1%Z
           [("p1", VList [VNum 2; VNum 8]); ("p2", VList [VStr "a"; VStr "b"])]
           [("p1", VList [VNum 2; VNum 8]); ("p2", VList [VStr "a"; VStr "b"])]
           Example.Root
           [EvCompute Example.Root
              [("p1", VList [VNum 2; VNum 8]);
               ("p2_a", VList [VNum 1; VNum 0]);
               ("p2_b", VList [VNum 0; VNum 1])] None]
           Example.sampled_scores
           [[(-0.5)%float; (-0.5)%float]; [(-0.5)%float; (-0.5)%float]]).
  - reflexivity.
  - reflexivity.
  - reflexivity.
  - reflexivity.
  - reflexivity.
  - simpl. repeat analysed_item.
Defined.

Lemma sobol_rows_of_nodes_witness :
  exists calls,
    get_sobol_s1_indices Example.combine Example.analyze Example.model 1 true
    = ((calls ++
        List.concat
          (map (fun r =>
                  map (fun item => EvSobolAnalyze Example.problem (snd item) true)
                      (Dict.items (LCIAScores.scores (NodeScores.lcia_scores r))))
               Example.sampled_nodes_scores))%list,
       Ok (List.concat
             (map (fun rs =>
                     List.concat
                       (map (fun it => rows_for (NodeScores.name (fst rs)) (fst (fst it))
                                                ["p1"; "p2"] (snd it))
                            (combine (Dict.items (LCIAScores.scores
                                                    (NodeScores.lcia_scores (fst rs))))
                                     (snd rs))))
                  (combine Example.sampled_nodes_scores
                           (repeat [[(-0.5)%float; (-0.5)%float];
                                    [(-0.5)%float; (-0.5)%float]] 3))))).
Proof.
  eexists.
  apply (@sobol_rows_of_nodes Example.node Example.tree_api Example.combine
           Example.analyze Example.model Example.params 1%Z
           [("p1", VList [VNum 2; VNum 8]); ("p2", VList [VStr "a"; VStr "b"])]
           [("p1", VList [VNum 2; VNum 8]); ("p2", VList [VStr "a"; VStr "b"])]).
  - reflexivity.
  - reflexivity.
  - reflexivity.
  - reflexivity.
  - simpl. repeat analysed_item.
Defined.

Lemma sobol_index_error_witness :
  get_sobol_s1_indices Example.combine long_analysis Example.model 1 false
  = ([EvCompute Example.Root
                [("p1", VList [VNum 2; VNum 8]);
                 ("p2_a", VList [VNum 1; VNum 0]);
                 ("p2_b", VList [VNum 0; VNum 1])] None;
      EvSobolAnalyze Example.problem (VList [VNum 2; VNum 8]) true],
     Err IndexError).
Proof.
  apply (@sobol_index_error Example.node Example.tree_api Example.combine
           long_analysis Example.model Example.params 1%Z
           [("p1", VList [VNum 2; VNum 8]); ("p2", VList [VStr "a"; VStr "b"])]
           [("p1", VList [VNum 2; VNum 8]); ("p2", VList [VStr "a"; VStr "b"])]
           Example.Root
           [EvCompute Example.Root
              [("p1", VList [VNum 2; VNum 8]);
               ("p2_a", VList [VNum 1; VNum 0]);
               ("p2_b", VList [VNum 0; VNum 1])] None]
           Example.sampled_scores
           [] [("TOX", VList [VNum 2; VNum 8])] ("GWP", VList [VNum 2; VNum 8]) []
           {| S1 := [(0.5)%float; (0.5)%float; (0.5)%float]; ST := [] |}).
  - reflexivity.
  - reflexivity.
  - reflexivity.
  - reflexivity.
  - reflexivity.
  - reflexivity.
  - constructor.
  - reflexivity.
  - simpl. lia.
Defined.

Section SobolOrder.
Context {N : Type} {tree_api : ImpactTreeNode.api N}.
Variable combine_by_property :
  list NodeScores.t -> value -> result (list NodeScores.t).
Variable sobol_analyze : SobolProblem -> value -> bool -> result SobolIndices.
Variable self : ImpactModel N.

Lemma methods_loop_analyses (node : result string) (items : list (string * value))
  (acc : list SobolRow) :
  Forall is_analysis_call
         (trace (for_each (analyze_method sobol_analyze self node) items acc)).
Proof.
  apply (@for_each_invariant N _ _ (analyze_method sobol_analyze self node)
           (fun _ => True) is_analysis_call items); [|exact I].
  intros s item _ _. split; [|auto].
  unfold analyze_method. destruct (self_sobol_problem self) as [pb|e]; [|constructor].
  rewrite (@mbind_lift_Ok N). unfold call_sobol_analyze, mbind, lift, ret.
  destruct (sobol_analyze pb (snd item) true) as [indices|e']; [|repeat constructor].
  destruct (rows_of node (fst item) (Ok pb) (S1 indices)); repeat constructor.
Qed.

Lemma get_scores_one_call (params : Dict.t value) (lcia_scores : LCIAScores.t) :
  outcome (get_scores self params) = Ok lcia_scores ->
  List.length (trace (get_scores self params)) = 1.
Proof.
  unfold get_scores, self_parameters, self_tree.
  destruct (parameters self) as [ps|]; simpl; [|discriminate].
  destruct (transform_parameters self (merged_parameters ps params)); simpl; [|discriminate].
  destruct (tree self) as [root|]; simpl; [|discriminate].
  reflexivity.
Qed.

(** X10.  Whatever the run of [get_sobol_s1_indices], its calls are calls
    of [compute] followed by calls of [sobol.analyze]: no score is computed
    once an analysis has started.  Without [all_nodes], an analysis is
    called only after the one call that computed the root. *)
Theorem sobol_computes_then_analyses (n : Z) (all_nodes : bool) :
  exists computes analyses,
    trace (get_sobol_s1_indices combine_by_property sobol_analyze self n all_nodes)
    = (computes ++ analyses)%list /\
    Forall is_compute_call computes /\
    Forall is_analysis_call analyses /\
    (all_nodes = false -> analyses <> [] -> List.length computes = 1).
Proof.
  assert (Hcompute : forall (node : N) (tp : Dict.t value) (d : option bool),
             is_compute_call (EvCompute node tp d)) by (intros; exact I).
  assert (Hnothing : forall run : M N (list SobolRow),
             trace run = [] ->
             exists computes analyses,
               trace run = (computes ++ analyses)%list /\
               Forall is_compute_call computes /\
               Forall is_analysis_call analyses /\
               (all_nodes = false -> analyses <> [] -> List.length computes = 1)).
  { intros run E. exists [], []. rewrite E. repeat split; try constructor. congruence. }
  destruct (parameters self) as [ps|] eqn:Eps.
  2: { apply Hnothing. unfold get_sobol_s1_indices, self_parameters. rewrite Eps.
       reflexivity. }
  destruct (ImpactModelParams.sobol_draw ps n) as [draws|e] eqn:Edraw.
  2: { apply Hnothing. unfold get_sobol_s1_indices, self_parameters. rewrite Eps.
       change (@ret N _ ps) with (@lift N _ (Ok ps)). rewrite (@mbind_lift_Ok N).
       rewrite Edraw. reflexivity. }
  destruct (ImpactModelParams.draw_to_distrib ps draws) as [samples|e] eqn:Edist.
  2: { apply Hnothing. unfold get_sobol_s1_indices, self_parameters. rewrite Eps.
       change (@ret N _ ps) with (@lift N _ (Ok ps)). rewrite (@mbind_lift_Ok N).
       rewrite Edraw, (@mbind_lift_Ok N), (@mbind_lift_Ok N). rewrite Edist.
       reflexivity. }
  rewrite (get_sobol_unfold combine_by_property sobol_analyze self n all_nodes
             Eps Edraw Edist).
  destruct all_nodes.
  - rewrite trace_mbind_app. eexists. eexists. split; [reflexivity|].
    split; [|split; [|discriminate]].
    + unfold get_nodes_scores_kwargs. destruct (Dict.mem "self" samples);
        [apply trace_lift | apply get_nodes_scores_trace, Hcompute].
    + destruct (outcome (get_nodes_scores_kwargs combine_by_property self samples))
        as [scores|e]; [|constructor].
      apply (@for_each_invariant N _ _ _ (fun _ => True) is_analysis_call scores);
        [|exact I].
      intros s r _ _. split; [apply methods_loop_analyses | auto].
  - rewrite trace_mbind_app. eexists. eexists. split; [reflexivity|].
    split; [|split].
    + unfold get_scores_kwargs. destruct (Dict.mem "self" samples);
        [apply trace_lift | apply get_scores_trace, Hcompute].
    + destruct (outcome (get_scores_kwargs self samples)) as [sc|e]; [|constructor].
      apply methods_loop_analyses.
    + intros _ Hne.
      destruct (outcome (get_scores_kwargs self samples)) as [sc|e] eqn:Esc;
        [|congruence].
      unfold get_scores_kwargs in *. destruct (Dict.mem "self" samples); [discriminate|].
      eapply get_scores_one_call, Esc.
Qed.

End SobolOrder.

(** ** Models of the children *)

Section Children.
Context {N : Type} {tree_api : ImpactTreeNode.api N}.

(** X11.  [from_tree_children] raises [AttributeError] on a model without
    a tree; otherwise it returns one model per child of the root, in order,
    with that child as tree, the parameters of the model and no metadata.
    Such a model transforms parameters as the model does, and its scores
    are the child's [compute] on what the model's transformation returns. *)
Theorem from_tree_children_models (self : ImpactModel N) :
  match tree self with
  | None => from_tree_children self = Err AttributeError
  | Some root =>
      exists models,
        from_tree_children self = Ok models /\
        Forall2 (fun child m =>
                   tree m = Some child /\ parameters m = parameters self /\
                   metadata m = None /\
                   (forall d, transform_parameters m d = transform_parameters self d) /\
                   (forall ps params,
                       parameters self = Some ps ->
                       get_scores m params
                       = (transformed <~
                            lift (transform_parameters self (merged_parameters ps params)) ;;
                          call_compute child transformed None)))
                (ImpactTreeNode.children root) models
  end.
Proof.
  unfold from_tree_children. destruct (tree self) as [root|]; [|reflexivity].
  eexists. split; [reflexivity|].
  induction (ImpactTreeNode.children root) as [|child children IH]; simpl; constructor;
    [|exact IH].
  set (m := {| metadata := None; parameters := parameters self; tree := Some child |}).
  assert (Htable : transformation_table m = transformation_table self) by reflexivity.
  split; [reflexivity|]. split; [reflexivity|]. split; [reflexivity|]. split.
  - intros d. apply transform_parameters_ext, Htable.
  - intros ps params Eps.
    rewrite (@get_scores_unfold N tree_api m ps params) by exact Eps.
    rewrite (transform_parameters_ext m self _ Htable).
    unfold self_tree. simpl.
    destruct (transform_parameters self (merged_parameters ps params)) as [tp|e]; simpl;
      [|reflexivity].
    destruct (call_compute child tp None). reflexivity.
Qed.

End Children.

(** ** Metadata and dicts *)

Lemma LcaPractitioner_round_trip (p : LcaPractitioner) :
  LcaPractitioner_init (JDict (LcaPractitioner_model_dump p)) = Ok p.
Proof. destruct p as [[n|] [o|] [m|]]; reflexivity. Qed.

Lemma LcaStudy_round_trip (s : LcaStudy) :
  LcaStudy_init (JDict (LcaStudy_model_dump s)) = Ok s.
Proof. destruct s as [[l|] [d|] [t|] [v|] [c|] [a|]]; reflexivity. Qed.

Lemma metadata_round_trip (md : ModelMetadata) :
  ModelMetadata_from_dict (JDict (ModelMetadata_to_dict md))
  = match author md, reviewer md, report md with
    | Some _, Some _, Some _ => Ok md
    | _, _, _ => Err TypeError
    end.
Proof.
  destruct md as [[a|] [r|] [s|]]; unfold ModelMetadata_from_dict, ModelMetadata_to_dict;
    cbn [author reviewer report subscript Dict.getitem Dict.get String.eqb Ascii.eqb
         Bool.eqb bind];
    rewrite ?LcaPractitioner_round_trip; cbn [bind];
    rewrite ?LcaPractitioner_round_trip; cbn [bind];
    rewrite ?LcaStudy_round_trip; reflexivity.
Qed.

(** X12.  [ModelMetadata.from_dict] gives back the metadata [to_dict] was
    called on when the author, the reviewer and the report are all there;
    when one of them is [None], it raises [TypeError], [None] being no
    mapping to unpack.  The practitioners and the study themselves are read
    back whichever of their fields are [None]. *)
Theorem model_metadata_round_trip (md : ModelMetadata) :
  ModelMetadata_from_dict (JDict (ModelMetadata_to_dict md))
  = match author md, reviewer md, report md with
    | Some _, Some _, Some _ => Ok md
    | _, _, _ => Err TypeError
    end /\
  (forall p, LcaPractitioner_init (JDict (LcaPractitioner_model_dump p)) = Ok p) /\
  (forall s, LcaStudy_init (JDict (LcaStudy_model_dump s)) = Ok s).
Proof.
  split; [apply metadata_round_trip|].
  split; [apply LcaPractitioner_round_trip | apply LcaStudy_round_trip].
Qed.

Section Serialization.
Context {N : Type} {tree_api : ImpactTreeNode.api N}.
Variable params_to_list : ImpactModelParams.t -> bool -> result json.
Variable params_from_list : json -> result ImpactModelParams.t.
Variable tree_to_dict : N -> result json.
Variable tree_from_dict : json -> result N.

(** X13.  A model made by [from_tree_children] cannot be turned into a
    dict: it has no metadata, and [to_dict] raises [AttributeError] on it
    whatever its parameters and its tree. *)
Theorem children_models_to_dict (self : ImpactModel N) (models : list (ImpactModel N))
  (m : ImpactModel N) :
  from_tree_children self = Ok models -> In m models ->
  to_dict params_to_list tree_to_dict m = Err AttributeError.
Proof.
  unfold from_tree_children. destruct (tree self) as [root|]; [|discriminate].
  intros E Hin. inversion E; subst models; clear E.
  apply in_map_iff in Hin as (child & <- & _). reflexivity.
Qed.

(** X14.  What [to_dict] returns, [from_dict] reads back with the same
    metadata, if it reads it back at all; it raises [TypeError] when the
    author, the reviewer or the report of the metadata is [None].  A model
    read back has metadata, parameters and a tree. *)
Theorem to_dict_from_dict (self : ImpactModel N) (j : Dict.t json) :
  to_dict params_to_list tree_to_dict self = Ok j ->
  (forall m,
      from_dict params_from_list tree_from_dict (JDict j) = Ok m ->
      metadata m = metadata self /\
      parameters m <> None /\ tree m <> None) /\
  (forall md,
      metadata self = Some md ->
      author md = None \/ reviewer md = None \/ report md = None ->
      from_dict params_from_list tree_from_dict (JDict j) = Err TypeError).
Proof.
  unfold to_dict. intros E.
  destruct (metadata self) as [md|] eqn:Emd; [|discriminate]. simpl in E.
  apply bind_Ok_inv in E as (pj & Epj & E).
  apply bind_Ok_inv in E as (tj & Etj & E).
  inversion E; subst j; clear E.
  assert (Hfrom : from_dict params_from_list tree_from_dict
                    (JDict [("metadata", JDict (ModelMetadata_to_dict md));
                            ("parameters", pj); ("tree", tj)])
                  = (md' <- ModelMetadata_from_dict (JDict (ModelMetadata_to_dict md)) ;;
                     ps <- params_from_list pj ;;
                     t <- tree_from_dict tj ;;
                     Ok {| metadata := Some md'; parameters := Some ps; tree := Some t |}))
    by reflexivity.
  split.
  - intros m Em. rewrite Hfrom, metadata_round_trip in Em.
    destruct (author md), (reviewer md), (report md); try discriminate.
    simpl in Em.
    apply bind_Ok_inv in Em as (ps & _ & Em).
    apply bind_Ok_inv in Em as (t & _ & Em).
    inversion Em; subst m. simpl. repeat split; discriminate.
  - intros md' Emd' Hnone. inversion Emd'; subst md'.
    rewrite Hfrom, metadata_round_trip.
    destruct (author md), (reviewer md), (report md); try reflexivity;
      destruct Hnone as [H|[H|H]]; discriminate.
Qed.

End Serialization.

Lemma children_models_to_dict_witness :
  to_dict (fun _ _ => Ok (JList [])) (fun _ : Example.node => Ok (JDict []))
    {| metadata := None; parameters := Some Example.params; tree := Some Example.ChildA |}
  = Err AttributeError.
Proof.
  apply (@children_models_to_dict Example.node Example.tree_api
           (fun _ _ => Ok (JList [])) (fun _ => Ok (JDict []))
           Example.model
           [ {| metadata := None; parameters := Some Example.params;
                tree := Some Example.ChildA |};
             {| metadata := None; parameters := Some Example.params;
                tree := Some Example.ChildB |} ]).
  - reflexivity.
  - left; reflexivity.
Defined.

Lemma to_dict_from_dict_witness :
  let md := {| author := Some {| practitioner_name := Some "A"; organization := None;
                                 mail := None |};
               reviewer := None;
               report := None |} in
  from_dict (fun _ => Ok Example.params) (fun _ => Ok Example.Root)
    (JDict [("metadata", JDict (ModelMetadata_to_dict md));
            ("parameters", JList []); ("tree", JDict [])])
  = Err TypeError.
Proof.
  intros md.
  destruct (@to_dict_from_dict Example.node
              (fun _ _ => Ok (JList [])) (fun _ => Ok Example.params)
              (fun _ => Ok (JDict [])) (fun _ => Ok Example.Root)
              {| metadata := Some md; parameters := Some Example.params;
                 tree := Some Example.Root |}
              [("metadata", JDict (ModelMetadata_to_dict md));
               ("parameters", JList []); ("tree", JDict [])] eq_refl) as [_ H].
  apply (H md eq_refl). right; left; reflexivity.
Defined.
